(** * Route observation and reconciliation of the tunnel package

    A shallow embedding of [tunnel/mtumonitor.go] and [tunnel/proxy.go]:
    default-route selection, MTU adaptation, the start of the proxies and
    the bypass-route reconciliation pass, with the operating system seen
    through the [winipcfg] calls the code makes.  [spawnProxies] and
    [monitorProxyRoutes] are embedded in both variants the sources hold:
    the one that passes proxies ([Spawn], [ProxyRoutes]) and the one that
    passes a list of addresses ([AddressList], [AddressRoutes]).

    Conventions.
    - Go's fixed-width unsigned integers are [Z] values; where the code
      computes with them the wrap-around modulo [2^32] is written out.
    - A Go [error] is an [option Errno], [None] being [nil].
    - Go maps used as sets are [gset]s, maps are [gmap]s.  The order in
      which [range] visits a map is not specified by the language; it is a
      parameter of the development ([GoRange]).
    - Every call that changes the system (a route added or deleted, the
      row of an interface written, a callback registered or unregistered)
      and every line given to the logger is recorded as an [Event], in
      program order.  The reads ([GetIPForwardTable2], [Interface],
      [IPInterface]) are answered by a snapshot ([Topology]) and leave no
      event: an empty trace means that nothing was written, registered or
      logged, not that nothing was read. *)

From Stdlib Require Import ZArith List String Lia.
From stdpp Require Import base tactics option numbers countable strings list sets gmap.

Local Open Scope Z_scope.

(* stdpp's solvers clear hypotheses that may be gone already. *)
#[local] Set Warnings "-clear-no-such-hyp".

(** ** net/netip: the part of the standard library the code relies on *)

Module Netip.

(** [netip.Addr]: the zero value, an IPv4 address, or an IPv6 address
    with its zone (the empty string when there is none).  An IPv4-mapped
    IPv6 address is an [Addr6]. *)
Inductive Addr : Type :=
| AddrZero
| Addr4 (a : Z)
| Addr6 (a : Z) (zone : string).

#[global] Instance Addr_eq_dec : EqDecision Addr.
Proof. solve_decision. Defined.

Definition Addr_enc (x : Addr) : unit + (Z + Z * string) :=
  match x with
  | AddrZero => inl tt
  | Addr4 a => inr (inl a)
  | Addr6 a z => inr (inr (a, z))
  end.

Definition Addr_dec (x : unit + (Z + Z * string)) : Addr :=
  match x with
  | inl _ => AddrZero
  | inr (inl a) => Addr4 a
  | inr (inr (a, z)) => Addr6 a z
  end.

#[global] Instance Addr_countable : Countable Addr.
Proof. by apply (inj_countable' Addr_enc Addr_dec); intros []. Defined.

Definition Is4 (ip : Addr) : bool :=
  match ip with Addr4 _ => true | _ => false end.

Definition Is6 (ip : Addr) : bool :=
  match ip with Addr6 _ _ => true | _ => false end.

Definition BitLen (ip : Addr) : Z :=
  match ip with AddrZero => 0 | Addr4 _ => 32 | Addr6 _ _ => 128 end.

Definition isZero (ip : Addr) : bool :=
  match ip with AddrZero => true | _ => false end.

Definition withoutZone (ip : Addr) : Addr :=
  match ip with Addr6 a _ => Addr6 a EmptyString | _ => ip end.

(** [netip.Prefix]; [Bits] is [-1] for an invalid prefix. *)
Record Prefix : Type := mkPrefix { PrefixAddr : Addr; Bits : Z }.

#[global] Instance Prefix_eq_dec : EqDecision Prefix.
Proof. solve_decision. Defined.

#[global] Instance Prefix_countable : Countable Prefix.
Proof.
  by apply (inj_countable' (λ p, (PrefixAddr p, Bits p))
                           (λ q, mkPrefix q.1 q.2)); intros [].
Defined.

(** [netip.PrefixFrom]: no masking of host bits, the zone is dropped, and
    a length outside [0 .. BitLen] gives an invalid prefix. *)
Definition PrefixFrom (ip : Addr) (bits : Z) : Prefix :=
  {| PrefixAddr := withoutZone ip;
     Bits := if negb (isZero ip) && (0 <=? bits) && (bits <=? BitLen ip)
             then bits else -1 |}.

End Netip.

Import Netip.

(** ** golang.org/x/sys/windows and winipcfg: constants and rows *)

Definition Errno : Type := Z.
Definition error : Type := option Errno.

Definition ERROR_NOT_FOUND : Errno := 1168.
Definition ERROR_OBJECT_ALREADY_EXISTS : Errno := 5010.

Definition AddressFamily : Type := Z.
Definition AF_INET : AddressFamily := 2.
Definition AF_INET6 : AddressFamily := 23.

Definition LUID : Type := Z.

Definition uint32_max : Z := 4294967295.
Definition wrap32 (z : Z) : Z := z mod 4294967296.

Inductive IfOperStatus : Type :=
| IfOperStatusUp
| IfOperStatusDown
| IfOperStatusTesting
| IfOperStatusUnknown
| IfOperStatusDormant
| IfOperStatusNotPresent
| IfOperStatusLowerLayerDown.

#[global] Instance IfOperStatus_eq_dec : EqDecision IfOperStatus.
Proof. solve_decision. Defined.

Inductive MibNotificationType : Type :=
| MibParameterNotification
| MibAddInstance
| MibDeleteInstance
| MibInitialNotification.

#[global] Instance MibNotificationType_eq_dec : EqDecision MibNotificationType.
Proof. solve_decision. Defined.

(** The fields of [MibIPforwardRow2] the code reads; [NextHop] holds what
    [r.NextHop.Addr()] returns. *)
Record MibIPforwardRow2 : Type := {
  InterfaceLUID : LUID;
  InterfaceIndex : Z;
  PrefixLength : Z;
  NextHop : Addr;
  Metric : Z
}.

(** [MibIfRow2] as returned by [LUID.Interface()]. *)
Record MibIfRow2 : Type := {
  OperStatus : IfOperStatus;
  MTU : Z
}.

(** [MibIPInterfaceRow] as returned by [LUID.IPInterface(family)]. *)
Record MibIPInterfaceRow : Type := {
  IfMetric : Z;
  NLMTU : Z
}.

Definition setNLMTU (row : MibIPInterfaceRow) (v : Z) : MibIPInterfaceRow :=
  {| IfMetric := IfMetric row; NLMTU := v |}.

(** Result of a call that returns a value and an [error]. *)
Inductive result (A : Type) : Type :=
| Ok (a : A)
| Err (e : Errno).
Arguments Ok {A} a.
Arguments Err {A} e.

(** The key of [ourRoutes] and [newRoutes] in [monitorProxyRoutes]. *)
Record luidRouteData : Type := {
  luid : LUID;
  destination : Prefix;
  nextHop : Addr
}.

#[global] Instance luidRouteData_eq_dec : EqDecision luidRouteData.
Proof. solve_decision. Defined.

#[global] Instance luidRouteData_countable : Countable luidRouteData.
Proof.
  by apply (inj_countable'
              (λ k, (luid k, destination k, nextHop k))
              (λ t, {| luid := t.1.1; destination := t.1.2; nextHop := t.2 |}));
    intros [].
Defined.

(** What the code reads from the operating system during one pass: the
    forwarding table of a family, the row of an interface, and the
    per-family row of an interface.  A pass reads it as one snapshot: the
    calls the pass itself makes do not change what the reads answer, and
    two reads of the same row within a pass answer the same. *)
Record Topology : Type := {
  GetIPForwardTable2 : AddressFamily → result (list MibIPforwardRow2);
  Interface : LUID → result MibIfRow2;
  IPInterface : LUID → AddressFamily → result MibIPInterfaceRow
}.

Definition Handle : Type := Z.

Inductive LogLine : Type :=
| LogAddFailed (dst : Prefix) (via : Addr) (e : Errno)
| LogDeleteFailed (dst : Prefix) (via : Addr) (e : Errno).

(** One entry per call that changes the system or reaches the logger; the
    reads leave none. *)
Inductive Event : Type :=
| EvAddRoute (k : luidRouteData) (metric : Z) (err : error)
| EvDeleteRoute (k : luidRouteData) (err : error)
| EvSetIPInterface (l : LUID) (family : AddressFamily) (row : MibIPInterfaceRow) (err : error)
| EvRegisterRouteChange (r : result Handle)
| EvRegisterInterfaceChange (r : result Handle)
| EvUnregister (h : Handle) (err : error)
| EvLog (line : LogLine).

(** When [ChangeCallback.Unregister] runs the cleanup function given at
    registration.  That is decided in [winipcfg], outside the two files
    embedded here, so it is a parameter with its three possibilities. *)
Inductive CleanupPolicy : Type :=
| CleanupIgnored
| CleanupBeforeUnregister
| CleanupAfterUnregister.

(** The mutating [winipcfg] calls, as transitions of a world [W]. *)
Class Winipcfg (W : Type) : Type := {
  osAddRoute : LUID → Prefix → Addr → Z → W → error * W;
  osDeleteRoute : LUID → Prefix → Addr → W → error * W;
  osSetIPInterface : LUID → AddressFamily → MibIPInterfaceRow → W → error * W;
  osRegisterRouteChangeCallback : W → result Handle * W;
  osRegisterInterfaceChangeCallback : W → result Handle * W;
  osUnregister : Handle → W → error * W;
  cleanupPolicy : CleanupPolicy
}.

(** The order in which [range] visits the keys of a map: some enumeration
    of the keys, each exactly once.  Nothing else is known of it, and what
    is proved of a trace is stated up to that order. *)
Class GoRange : Type := {
  rangeKeys : ∀ (K : Type) `{Countable K}, gset K → list K;
  rangeKeys_perm : ∀ (K : Type) `{Countable K} (s : gset K),
      rangeKeys K s ≡ₚ elements s
}.
Arguments rangeKeys {_ _ _ _} s.

(** ** The monad of the embedding: world passing, with the events emitted *)

Definition M (W A : Type) : Type := W → A * W * list Event.

Definition ret {W A} (a : A) : M W A := λ w, (a, w, []).

Definition bind {W A B} (m : M W A) (f : A → M W B) : M W B :=
  λ w, match m w with
       | (a, w1, e1) => match f a w1 with
                        | (b, w2, e2) => (b, w2, e1 ++ e2)
                        end
       end.

Notation "'let!' x ':=' m 'in' k" := (bind m (λ x, k))
  (at level 10, x name, m at level 100, k at level 200, only parsing).
Notation "'let!' ' pat ':=' m 'in' k" :=
  (bind m (λ x, match x with pat => k end))
  (at level 10, pat pattern, m at level 100, k at level 200, only parsing).

(** Left fold in the monad: the body of a [for] loop over a slice. *)
Fixpoint forEach {W A S} (body : S → A → M W S) (l : list A) (s : S) : M W S :=
  match l with
  | [] => ret s
  | x :: l' => let! s' := body s x in forEach body l' s'
  end.

Section Calls.
Context {W : Type} `{!Winipcfg W}.

Definition AddRoute (l : LUID) (dst : Prefix) (via : Addr) (metric : Z) : M W error :=
  λ w, match osAddRoute l dst via metric w with
       | (err, w') =>
           (err, w', [EvAddRoute {| luid := l; destination := dst; nextHop := via |} metric err])
       end.

Definition DeleteRoute (l : LUID) (dst : Prefix) (via : Addr) : M W error :=
  λ w, match osDeleteRoute l dst via w with
       | (err, w') =>
           (err, w', [EvDeleteRoute {| luid := l; destination := dst; nextHop := via |} err])
       end.

Definition SetIPInterface (l : LUID) (family : AddressFamily) (row : MibIPInterfaceRow) : M W error :=
  λ w, match osSetIPInterface l family row w with
       | (err, w') => (err, w', [EvSetIPInterface l family row err])
       end.

Definition logPrintf (line : LogLine) : M W unit :=
  λ w, (tt, w, [EvLog line]).

Definition RegisterRouteChangeCallback : M W (result Handle) :=
  λ w, match osRegisterRouteChangeCallback w with
       | (r, w') => (r, w', [EvRegisterRouteChange r])
       end.

Definition RegisterInterfaceChangeCallback : M W (result Handle) :=
  λ w, match osRegisterInterfaceChangeCallback w with
       | (r, w') => (r, w', [EvRegisterInterfaceChange r])
       end.

(** [cb.Unregister()] for a callback registered with the cleanup function
    [cleanup] ([None] for a [nil] cleanup), on closure state [s]. *)
Definition Unregister {S} (h : Handle) (cleanup : option (S → M W S)) (s : S) : M W S :=
  let os : M W error :=
    λ w, match osUnregister h w with
         | (err, w') => (err, w', [EvUnregister h err])
         end in
  match cleanup, cleanupPolicy with
  | Some c, CleanupBeforeUnregister => let! s' := c s in let! _ := os in ret s'
  | Some c, CleanupAfterUnregister => let! _ := os in c s
  | _, _ => let! _ := os in ret s
  end.

(** *** mtumonitor.go: iterateForeignDefaultRoutes *)

(** The two tests of the loop body that decide whether the callback runs
    on a row. *)
Definition foreignDefaultUp (topo : Topology) (ourLUID : LUID) (r : MibIPforwardRow2) : bool :=
  if negb (PrefixLength r =? 0) || (InterfaceLUID r =? ourLUID) then false
  else match Interface topo (InterfaceLUID r) with
       | Err _ => false
       | Ok ifrow => bool_decide (OperStatus ifrow = IfOperStatusUp)
       end.

Fixpoint iterateRows {S} (topo : Topology) (ourLUID : LUID)
    (callback : MibIPforwardRow2 → S → M W (error * S))
    (rows : list MibIPforwardRow2) (s : S) : M W (error * S) :=
  match rows with
  | [] => ret (None, s)
  | r :: rows' =>
      if foreignDefaultUp topo ourLUID r then
        let! '(err, s') := callback r s in
        match err with
        | Some e => ret (Some e, s')
        | None => iterateRows topo ourLUID callback rows' s'
        end
      else iterateRows topo ourLUID callback rows' s
  end.

Definition iterateForeignDefaultRoutes {S} (topo : Topology)
    (family : AddressFamily) (ourLUID : LUID)
    (callback : MibIPforwardRow2 → S → M W (error * S)) (s : S) : M W (error * S) :=
  match GetIPForwardTable2 topo family with
  | Err e => ret (Some e, s)
  | Ok rows => iterateRows topo ourLUID callback rows s
  end.

End Calls.

(** ** mtumonitor.go *)

Module MTUMonitor.
Section MTUMonitor.
Context {W : Type} `{!Winipcfg W}.

(** The three locals of [findDefaultLUID] that its callback updates. *)
Record best : Type := {
  lowestMetric : Z;
  index : Z;
  bestLUID : LUID
}.

Definition best0 : best :=
  {| lowestMetric := uint32_max; index := 0; bestLUID := 0 |}.

(** The callback [findDefaultLUID] gives to the iteration. *)
Definition consider (topo : Topology) (family : AddressFamily)
    (r : MibIPforwardRow2) (b : best) : M W (error * best) :=
  match IPInterface topo (InterfaceLUID r) family with
  | Err _ => ret (None, b)
  | Ok iface =>
      if wrap32 (Metric r + IfMetric iface) <? lowestMetric b then
        ret (None, {| lowestMetric := wrap32 (Metric r + IfMetric iface);
                      index := InterfaceIndex r;
                      bestLUID := InterfaceLUID r |})
      else ret (None, b)
  end.

(** [findDefaultLUID]; the two pointers are passed in and handed back. *)
Definition findDefaultLUID (topo : Topology) (family : AddressFamily)
    (ourLUID : LUID) (lastLUID : LUID) (lastIndex : Z) : M W (error * (LUID * Z)) :=
  let! '(err, b) :=
    iterateForeignDefaultRoutes topo family ourLUID (consider topo family) best0 in
  match err with
  | Some e => ret (Some e, (lastLUID, lastIndex))
  | None =>
      if (bestLUID b =? lastLUID) && (index b =? lastIndex)
      then ret (None, (lastLUID, lastIndex))
      else ret (None, (bestLUID b, index b))
  end.

Definition minMTU (family : AddressFamily) : Z :=
  if family =? AF_INET then 576
  else if family =? AF_INET6 then 1280
  else 0.

(** The value stored in [iface.NLMTU] before [iface.Set()]. *)
Definition tunnelMTU (family : AddressFamily) (mtu : Z) : Z :=
  let nlmtu := wrap32 (mtu - 80) in
  if nlmtu <? minMTU family then minMTU family else nlmtu.

(** The variables [doIt] closes over. *)
Record state : Type := {
  lastLUID : LUID;
  lastIndex : Z;
  lastMTU : Z
}.

Definition state0 : state :=
  {| lastLUID := 0; lastIndex := uint32_max; lastMTU := 0 |}.

(** The first half of [doIt]: the physical MTU of the selected interface,
    [0] when none is selected or the interface reports none. *)
Definition physicalMTU (topo : Topology) (l : LUID) : result Z :=
  if l =? 0 then Ok 0
  else match Interface topo l with
       | Err e => Err e
       | Ok iface => Ok (if 0 <? MTU iface then MTU iface else 0)
       end.

Definition doIt (topo : Topology) (family : AddressFamily) (ourLUID : LUID)
    (st : state) : M W (error * state) :=
  let! '(err, (l, i)) :=
    findDefaultLUID topo family ourLUID (lastLUID st) (lastIndex st) in
  let st1 := {| lastLUID := l; lastIndex := i; lastMTU := lastMTU st |} in
  match err with
  | Some e => ret (Some e, st1)
  | None =>
      match physicalMTU topo l with
      | Err e => ret (Some e, st1)
      | Ok mtu =>
          if (0 <? mtu) && negb (lastMTU st =? mtu) then
            match IPInterface topo ourLUID family with
            | Err e => ret (Some e, st1)
            | Ok iface =>
                let! err := SetIPInterface ourLUID family
                              (setNLMTU iface (tunnelMTU family mtu)) in
                match err with
                | Some e => ret (Some e, st1)
                | None =>
                    ret (None, {| lastLUID := l; lastIndex := i; lastMTU := mtu |})
                end
            end
          else ret (None, st1)
      end
  end.

(** The route-change callback: [route] is [None] for a [nil] pointer.
    The value [doIt] returns is dropped. *)
Definition onRouteChange (topo : Topology) (family : AddressFamily) (ourLUID : LUID)
    (notificationType : MibNotificationType) (route : option MibIPforwardRow2)
    (st : state) : M W state :=
  match route with
  | Some r =>
      if PrefixLength r =? 0 then
        let! '(_, st') := doIt topo family ourLUID st in ret st'
      else ret st
  | None => ret st
  end.

(** The interface-change callback. *)
Definition onInterfaceChange (topo : Topology) (family : AddressFamily) (ourLUID : LUID)
    (notificationType : MibNotificationType) (st : state) : M W state :=
  if bool_decide (notificationType = MibParameterNotification) then
    let! '(_, st') := doIt topo family ourLUID st in ret st'
  else ret st.

(** [monitorMTU]: the first pass, then the two registrations (with a
    [nil] cleanup).  The closure state is returned next to the result. *)
Definition monitorMTU (topo : Topology) (family : AddressFamily) (ourLUID : LUID)
    : M W (result (list Handle) * state) :=
  let! '(err, st) := doIt topo family ourLUID state0 in
  match err with
  | Some e => ret (Err e, st)
  | None =>
      let! r := RegisterRouteChangeCallback in
      match r with
      | Err e => ret (Err e, st)
      | Ok cbr =>
          let! r := RegisterInterfaceChangeCallback in
          match r with
          | Err e =>
              let! st' := Unregister cbr None st in
              ret (Err e, st')
          | Ok cbi => ret (Ok [cbr; cbi], st)
          end
      end
  end.

End MTUMonitor.
End MTUMonitor.

(** ** proxy.go: monitorProxyRoutes *)

Module ProxyRoutes.

(** [proxy]: of the embedded [proxyguard.Client] only [Listen] is kept. *)
Record proxy : Type := {
  Listen : string;
  Addresses : list Addr
}.

(** A [*proxy] is the position of the proxy in the [proxies] slice. *)
Definition proxyRef : Type := nat.

(** The body of the inner loop that fills [destProxy]. *)
Definition addDestination (family : AddressFamily) (p : proxyRef)
    (destProxy : gmap Prefix (list proxyRef)) (addr : Addr) : gmap Prefix (list proxyRef) :=
  if (family =? AF_INET) && negb (Is4 addr) then destProxy
  else if (family =? AF_INET6) && negb (Is6 addr) then destProxy
  else
    let destination := PrefixFrom addr (BitLen addr) in
    <[destination := default [] (destProxy !! destination) ++ [p]]> destProxy.

Definition buildDestProxy (family : AddressFamily) (proxies : list proxy)
    : gmap Prefix (list proxyRef) :=
  foldl (λ m ip, foldl (addDestination family ip.1) m (Addresses ip.2))
        ∅ (imap pair proxies).

(** The two maps a pass builds. *)
Record scratch : Type := {
  newRoutes : gset luidRouteData;
  proxiesToRestart : gset proxyRef
}.

Definition scratch0 : scratch := {| newRoutes := ∅; proxiesToRestart := ∅ |}.

Definition markRestart (ps : list proxyRef) (restart : gset proxyRef) : gset proxyRef :=
  list_to_set ps ∪ restart.

Definition routeOf (r : MibIPforwardRow2) (dst : Prefix) : luidRouteData :=
  {| luid := InterfaceLUID r; destination := dst; nextHop := NextHop r |}.

Section ProxyRoutes.
Context {W : Type} `{!Winipcfg W} `{!GoRange}.

(** One turn of [for destination := range destProxy]. *)
Definition addOne (destProxy : gmap Prefix (list proxyRef)) (r : MibIPforwardRow2)
    (sc : scratch) (dst : Prefix) : M W scratch :=
  let via := NextHop r in
  let! err := AddRoute (InterfaceLUID r) dst via 0 in
  match err with
  | None =>
      ret {| newRoutes := {[routeOf r dst]} ∪ newRoutes sc;
             proxiesToRestart :=
               markRestart (default [] (destProxy !! dst)) (proxiesToRestart sc) |}
  | Some e =>
      if e =? ERROR_OBJECT_ALREADY_EXISTS then
        ret {| newRoutes := {[routeOf r dst]} ∪ newRoutes sc;
               proxiesToRestart := proxiesToRestart sc |}
      else
        let! _ := logPrintf (LogAddFailed dst via e) in
        ret sc
  end.

(** The callback [doIt] gives to the iteration; it always returns [nil]. *)
Definition addRoutes (destProxy : gmap Prefix (list proxyRef)) (r : MibIPforwardRow2)
    (sc : scratch) : M W (error * scratch) :=
  let! sc' := forEach (addOne destProxy r) (rangeKeys (dom destProxy)) sc in
  ret (None, sc').

(** One turn of [for r := range ourRoutes] in [doIt]. *)
Definition dropStale (destProxy : gmap Prefix (list proxyRef))
    (new : gset luidRouteData) (restart : gset proxyRef) (r : luidRouteData)
    : M W (gset proxyRef) :=
  if bool_decide (r ∈ new) then ret restart
  else
    let! err := DeleteRoute (luid r) (destination r) (nextHop r) in
    match err with
    | None => ret (markRestart (default [] (destProxy !! destination r)) restart)
    | Some e =>
        if e =? ERROR_NOT_FOUND then ret restart
        else
          let! _ := logPrintf (LogDeleteFailed (destination r) (nextHop r) e) in
          ret restart
    end.

(** [doIt]: [restartProxies] is only read by the code that is commented
    out, and [proxiesToRestart] is dropped at the end of the pass. *)
Definition doIt (topo : Topology) (family : AddressFamily) (ourLUID : LUID)
    (destProxy : gmap Prefix (list proxyRef)) (restartProxies : bool)
    (ourRoutes : gset luidRouteData) : M W (error * gset luidRouteData) :=
  let! '(err, sc) :=
    iterateForeignDefaultRoutes topo family ourLUID (addRoutes destProxy) scratch0 in
  match err with
  | Some e => ret (Some e, ourRoutes)
  | None =>
      let! _ := forEach (dropStale destProxy (newRoutes sc))
                        (rangeKeys ourRoutes) (proxiesToRestart sc) in
      ret (None, newRoutes sc)
  end.

(** One turn of [for r := range ourRoutes] in [cleanIt]. *)
Definition cleanOne (_ : unit) (r : luidRouteData) : M W unit :=
  let! err := DeleteRoute (luid r) (destination r) (nextHop r) in
  match err with
  | None => ret tt
  | Some e =>
      if e =? ERROR_NOT_FOUND then ret tt
      else logPrintf (LogDeleteFailed (destination r) (nextHop r) e)
  end.

Definition cleanIt (ourRoutes : gset luidRouteData) : M W (gset luidRouteData) :=
  let! _ := forEach cleanOne (rangeKeys ourRoutes) tt in
  ret ∅.

(** The route-change callback; the value [doIt] returns is dropped. *)
Definition onRouteChange (topo : Topology) (family : AddressFamily) (ourLUID : LUID)
    (destProxy : gmap Prefix (list proxyRef))
    (notificationType : MibNotificationType) (route : option MibIPforwardRow2)
    (ourRoutes : gset luidRouteData) : M W (gset luidRouteData) :=
  match route with
  | Some r =>
      if PrefixLength r =? 0 then
        let! '(_, ourRoutes') := doIt topo family ourLUID destProxy true ourRoutes in
        ret ourRoutes'
      else ret ourRoutes
  | None => ret ourRoutes
  end.

(** The interface-change callback. *)
Definition onInterfaceChange (topo : Topology) (family : AddressFamily) (ourLUID : LUID)
    (destProxy : gmap Prefix (list proxyRef))
    (notificationType : MibNotificationType)
    (ourRoutes : gset luidRouteData) : M W (gset luidRouteData) :=
  if bool_decide (notificationType = MibParameterNotification) then
    let! '(_, ourRoutes') := doIt topo family ourLUID destProxy true ourRoutes in
    ret ourRoutes'
  else ret ourRoutes.

(** [monitorProxyRoutes]; [ourRoutes] as it is when the function returns
    is handed back next to the result. *)
Definition monitorProxyRoutes (topo : Topology) (family : AddressFamily)
    (ourLUID : LUID) (proxies : list proxy)
    : M W (result (list Handle) * gset luidRouteData) :=
  let destProxy := buildDestProxy family proxies in
  let! '(err, ourRoutes) := doIt topo family ourLUID destProxy false ∅ in
  match err with
  | Some e => ret (Err e, ourRoutes)
  | None =>
      let! r := RegisterRouteChangeCallback in
      match r with
      | Err e =>
          let! ourRoutes := cleanIt ourRoutes in
          ret (Err e, ourRoutes)
      | Ok cbr =>
          let! r := RegisterInterfaceChangeCallback in
          match r with
          | Err e =>
              let! ourRoutes := Unregister cbr (Some cleanIt) ourRoutes in
              let! ourRoutes := cleanIt ourRoutes in
              ret (Err e, ourRoutes)
          | Ok cbi => ret (Ok [cbr; cbi], ourRoutes)
          end
      end
  end.

End ProxyRoutes.
End ProxyRoutes.

(** ** spawnProxies, the variant that returns the list of addresses *)

Module AddressList.

(** The fields of [conf.Peer] that [spawnProxies] reads; [Endpoint] holds
    [peer.Endpoint.String()]. *)
Record Peer : Type := {
  ProxyEndpoint : string;
  Endpoint : string
}.

Record Config : Type := { Peers : list Peer }.

(** What [spawnProxies] gets from outside the package: [url.Parse]
    followed by [Hostname], the resolver, [netip.ParseAddr], and the value
    received from [proxyReady] once the client is started. *)
Class Environment : Type := {
  urlHostname : string → result string;
  LookupHost : string → result (list string);
  ParseAddr : string → result Addr;
  proxyReady : Peer → list string → error
}.

Section AddressList.
Context `{!Environment} `{!GoRange}.

(** [for _, ip := range pips] with its three exits. *)
Fixpoint parseInto (pips : list string) (m : gset Addr) : result (gset Addr) :=
  match pips with
  | [] => Ok m
  | ip :: pips' =>
      match ParseAddr ip with
      | Err e => Err e
      | Ok addr =>
          if bool_decide (addr ∈ m) then parseInto pips' m
          else parseInto pips' ({[addr]} ∪ m)
      end
  end.

(** [for _, peer := range conf.Peers]. *)
Fixpoint resolvePeers (peers : list Peer) (m : gset Addr) : result (gset Addr) :=
  match peers with
  | [] => Ok m
  | peer :: peers' =>
      if (0 <? String.length (ProxyEndpoint peer))%nat then
        match urlHostname (ProxyEndpoint peer) with
        | Err e => Err e
        | Ok host =>
            match LookupHost host with
            | Err e => Err e
            | Ok pips =>
                match parseInto pips m with
                | Err e => Err e
                | Ok m' =>
                    match proxyReady peer pips with
                    | Some e => Err e
                    | None => resolvePeers peers' m'
                    end
                end
            end
        end
      else resolvePeers peers' m
  end.

(** Go's [append(s, x)]. *)
Definition append {A} (s : list A) (x : A) : list A := s ++ [x].

Definition spawnProxies (conf : Config) : result (list Addr) :=
  match resolvePeers (Peers conf) ∅ with
  | Err e => Err e
  | Ok m =>
      Ok (foldl append (replicate (size m) AddrZero) (rangeKeys m))
  end.

(** The addresses a peer's proxy endpoint resolves to: the resolver's
    answers that parse, for a peer with a proxy endpoint. *)
Definition peerAddresses (peer : Peer) : list Addr :=
  if (0 <? String.length (ProxyEndpoint peer))%nat then
    match urlHostname (ProxyEndpoint peer) with
    | Err _ => []
    | Ok host =>
        match LookupHost host with
        | Err _ => []
        | Ok pips =>
            omap (λ ip, match ParseAddr ip with Ok a => Some a | Err _ => None end) pips
        end
    end
  else [].

Definition resolvedAddresses (conf : Config) : gset Addr :=
  list_to_set (flat_map peerAddresses (Peers conf)).

End AddressList.
End AddressList.

(** ** A simulated operating system

    A route table that reports "already exists" and "not found" as the
    real one does, an MTU cell for the tunnel interface, a list of live
    registrations, and faults that can be injected into each call.  It is
    the world on which the development runs the code on concrete inputs. *)

Module Sim.

Record World : Type := {
  routes : gset luidRouteData;
  nlmtu : option Z;
  registered : list Handle;
  nextHandle : Handle;
  addFault : luidRouteData → error;
  deleteFault : luidRouteData → error;
  setFault : error;
  registerRouteFault : error;
  registerInterfaceFault : error
}.

Definition withRoutes (w : World) (rs : gset luidRouteData) : World :=
  {| routes := rs; nlmtu := nlmtu w; registered := registered w;
     nextHandle := nextHandle w; addFault := addFault w;
     deleteFault := deleteFault w; setFault := setFault w;
     registerRouteFault := registerRouteFault w;
     registerInterfaceFault := registerInterfaceFault w |}.

Definition withNLMTU (w : World) (v : Z) : World :=
  {| routes := routes w; nlmtu := Some v; registered := registered w;
     nextHandle := nextHandle w; addFault := addFault w;
     deleteFault := deleteFault w; setFault := setFault w;
     registerRouteFault := registerRouteFault w;
     registerInterfaceFault := registerInterfaceFault w |}.

Definition withRegistered (w : World) (hs : list Handle) (next : Handle) : World :=
  {| routes := routes w; nlmtu := nlmtu w; registered := hs;
     nextHandle := next; addFault := addFault w;
     deleteFault := deleteFault w; setFault := setFault w;
     registerRouteFault := registerRouteFault w;
     registerInterfaceFault := registerInterfaceFault w |}.

Definition addRoute (l : LUID) (dst : Prefix) (via : Addr) (metric : Z) (w : World)
    : error * World :=
  let k := {| luid := l; destination := dst; nextHop := via |} in
  match addFault w k with
  | Some e => (Some e, w)
  | None =>
      if bool_decide (k ∈ routes w) then (Some ERROR_OBJECT_ALREADY_EXISTS, w)
      else (None, withRoutes w ({[k]} ∪ routes w))
  end.

Definition deleteRoute (l : LUID) (dst : Prefix) (via : Addr) (w : World)
    : error * World :=
  let k := {| luid := l; destination := dst; nextHop := via |} in
  match deleteFault w k with
  | Some e => (Some e, w)
  | None =>
      if bool_decide (k ∈ routes w) then (None, withRoutes w (routes w ∖ {[k]}))
      else (Some ERROR_NOT_FOUND, w)
  end.

Definition setIPInterface (l : LUID) (family : AddressFamily)
    (row : MibIPInterfaceRow) (w : World) : error * World :=
  match setFault w with
  | Some e => (Some e, w)
  | None => (None, withNLMTU w (NLMTU row))
  end.

Definition register (fault : error) (w : World) : result Handle * World :=
  match fault with
  | Some e => (Err e, w)
  | None =>
      (Ok (nextHandle w),
       withRegistered w (nextHandle w :: registered w) (nextHandle w + 1))
  end.

Definition unregister (h : Handle) (w : World) : error * World :=
  (None, withRegistered w (filter (λ h', h' ≠ h) (registered w)) (nextHandle w)).

Definition os (policy : CleanupPolicy) : Winipcfg World :=
  {| osAddRoute := addRoute;
     osDeleteRoute := deleteRoute;
     osSetIPInterface := setIPInterface;
     osRegisterRouteChangeCallback := λ w, register (registerRouteFault w) w;
     osRegisterInterfaceChangeCallback := λ w, register (registerInterfaceFault w) w;
     osUnregister := unregister;
     cleanupPolicy := policy |}.

(** A world with no route, no registration and no fault. *)
Definition world0 : World :=
  {| routes := ∅; nlmtu := None; registered := []; nextHandle := 1;
     addFault := λ _, None; deleteFault := λ _, None; setFault := None;
     registerRouteFault := None; registerInterfaceFault := None |}.

(** [range] visiting the keys in the order of [elements]. *)
Definition range : GoRange :=
  {| rangeKeys := λ K _ _ s, elements s;
     rangeKeys_perm := λ K _ _ s, reflexivity (elements s) |}.

End Sim.

(** ** Reading a trace *)

(** The [AddRoute] calls of a trace, each with what it returned. *)
Definition addCalls (evs : list Event) : list (luidRouteData * error) :=
  omap (λ ev, match ev with EvAddRoute k _ err => Some (k, err) | _ => None end) evs.

(** The [DeleteRoute] calls of a trace, each with what it returned. *)
Definition deleteCalls (evs : list Event) : list (luidRouteData * error) :=
  omap (λ ev, match ev with EvDeleteRoute k err => Some (k, err) | _ => None end) evs.

(** The writes of the tunnel interface's row: the [NLMTU] written and what
    [Set] returned. *)
Definition setCalls (evs : list Event) : list (Z * error) :=
  omap (λ ev, match ev with
              | EvSetIPInterface _ _ row err => Some (NLMTU row, err)
              | _ => None
              end) evs.

Definition logLines (evs : list Event) : list LogLine :=
  omap (λ ev, match ev with EvLog line => Some line | _ => None end) evs.

(** The calls that change the route table. *)
Definition isMutation (ev : Event) : bool :=
  match ev with
  | EvAddRoute _ _ _ | EvDeleteRoute _ _ => true
  | _ => false
  end.

Definition mutationCalls (evs : list Event) : list Event :=
  filter (λ ev, isMutation ev = true) evs.

(** An add that succeeded or found the route in place. *)
Definition addOk (err : error) : bool :=
  match err with
  | None => true
  | Some e => e =? ERROR_OBJECT_ALREADY_EXISTS
  end.

(** A delete that succeeded or found the route gone. *)
Definition deleteOk (err : error) : bool :=
  match err with
  | None => true
  | Some e => e =? ERROR_NOT_FOUND
  end.

(** The keys of the adds that were [addOk]. *)
Definition kept (calls : list (luidRouteData * error)) : gset luidRouteData :=
  list_to_set (omap (λ c, if addOk c.2 then Some c.1 else None) calls).

Definition addFailures (calls : list (luidRouteData * error)) : list LogLine :=
  omap (λ c, match c.2 with
             | Some e => if addOk (Some e) then None
                         else Some (LogAddFailed (destination c.1) (nextHop c.1) e)
             | None => None
             end) calls.

Definition deleteFailures (calls : list (luidRouteData * error)) : list LogLine :=
  omap (λ c, match c.2 with
             | Some e => if deleteOk (Some e) then None
                         else Some (LogDeleteFailed (destination c.1) (nextHop c.1) e)
             | None => None
             end) calls.

(** Events a pass over the routes may emit. *)
Definition isRouteEvent (ev : Event) : bool :=
  match ev with
  | EvAddRoute _ _ _ | EvDeleteRoute _ _ | EvLog _ => true
  | _ => false
  end.

(** The keys [doIt] tries to add, in the order it tries them: every
    destination for every row the iteration lets through. *)
Definition desiredRoutes (topo : Topology) (ourLUID : LUID) (dsts : list Prefix)
    (rows : list MibIPforwardRow2) : list luidRouteData :=
  flat_map (λ r, ProxyRoutes.routeOf r <$> dsts)
           (filter (λ r, foreignDefaultUp topo ourLUID r = true) rows).

(** ** What the claims speak of *)

(** An address passes the two family tests of [monitorProxyRoutes]. *)
Definition familyAccepts (family : AddressFamily) (addr : Addr) : bool :=
  negb ((family =? AF_INET) && negb (Is4 addr)) &&
  negb ((family =? AF_INET6) && negb (Is6 addr)).

(** An address of the monitor's family. *)
Definition inFamily (family : AddressFamily) (addr : Addr) : Prop :=
  (family = AF_INET ∧ Is4 addr = true) ∨ (family = AF_INET6 ∧ Is6 addr = true).

(** The host prefix of an address: the address itself, without its zone,
    at full length. *)
Definition hostPrefix (addr : Addr) : Prefix :=
  {| PrefixAddr := withoutZone addr; Bits := BitLen addr |}.

(** An address one of the proxies resolved to. *)
Definition resolved (proxies : list ProxyRoutes.proxy) (addr : Addr) : Prop :=
  ∃ p, p ∈ proxies ∧ addr ∈ ProxyRoutes.Addresses p.

(** A default route of the snapshot over an interface that is not the
    tunnel's and is operationally up. *)
Definition upForeignDefault (topo : Topology) (ourLUID : LUID)
    (r : MibIPforwardRow2) : Prop :=
  PrefixLength r = 0 ∧ InterfaceLUID r ≠ ourLUID ∧
  ∃ ifrow, Interface topo (InterfaceLUID r) = Ok ifrow ∧
           OperStatus ifrow = IfOperStatusUp.

(** ** A small network, to run the code on *)

Module Lan.
Import ProxyRoutes.

(** The tunnel's own interface. *)
Definition tunnel : LUID := 1.

(** A default route over interface 5, via 192.168.1.1. *)
Definition uplink : MibIPforwardRow2 :=
  {| InterfaceLUID := 5; InterfaceIndex := 7; PrefixLength := 0;
     NextHop := Addr4 3232235777; Metric := 10 |}.

(** The tunnel's own default route. *)
Definition own : MibIPforwardRow2 :=
  {| InterfaceLUID := 1; InterfaceIndex := 2; PrefixLength := 0;
     NextHop := Addr4 0; Metric := 0 |}.

(** The network with an uplink of the given physical MTU. *)
Definition net (mtu : Z) : Topology :=
  {| GetIPForwardTable2 := λ _, Ok [own; uplink];
     Interface := λ _, Ok {| OperStatus := IfOperStatusUp; MTU := mtu |};
     IPInterface := λ _ _, Ok {| IfMetric := 25; NLMTU := 1500 |} |}.

(** A network whose forwarding table cannot be read. *)
Definition unreadable : Topology :=
  {| GetIPForwardTable2 := λ _, Err 5;
     Interface := λ _, Err 5;
     IPInterface := λ _ _, Err 5 |}.

(** One proxy, resolved to 203.0.113.9 and to an IPv6 address. *)
Definition proxies : list proxy :=
  [ {| Listen := "127.0.0.1:51820";
       Addresses := [Addr4 3405803785; Addr6 42540766411282592856903984951653826561 EmptyString] |} ].

Definition os : Winipcfg Sim.World := Sim.os CleanupAfterUnregister.

End Lan.

(** The second of two passes over the same snapshot and the same proxies
    makes no call that changes the route table, the first having run from
    an empty [ourRoutes] with every add accepted. *)
Definition secondPassSilent {W : Type} `{!Winipcfg W} `{!GoRange}
    (topo : Topology) (family : AddressFamily) (ourLUID : LUID)
    (proxies : list ProxyRoutes.proxy) (w : W) : Prop :=
  let destProxy := ProxyRoutes.buildDestProxy family proxies in
  let first := ProxyRoutes.doIt topo family ourLUID destProxy false ∅ w in
  let second :=
    ProxyRoutes.doIt topo family ourLUID destProxy true first.1.1.2 first.1.2 in
  first.1.1.1 = None →
  Forall (λ c, addOk c.2 = true) (addCalls first.2) →
  mutationCalls second.2 = [].

(** ** A world where every route call is refused *)

Module Faulty.

(** [ERROR_ACCESS_DENIED] *)
Definition denied : Errno := 5.

Definition world : Sim.World :=
  {| Sim.routes := ∅; Sim.nlmtu := None; Sim.registered := [];
     Sim.nextHandle := 1;
     Sim.addFault := λ _, Some denied;
     Sim.deleteFault := λ _, Some denied;
     Sim.setFault := Some denied;
     Sim.registerRouteFault := None;
     Sim.registerInterfaceFault := Some denied |}.

(** A route left from a time when interface 9 had a default route. *)
Definition stale : luidRouteData :=
  {| luid := 9;
     destination := hostPrefix (Addr4 3405803785);
     nextHop := Addr4 167772161 |}.

End Faulty.

(** The values [ourRoutes] can take in [monitorProxyRoutes family ourLUID
    proxies]: it starts empty, and is then only written by [doIt] (called
    directly or from either callback) and by [cleanIt], on whatever
    snapshot and in whatever world they run. *)
Inductive tracked {W : Type} `{!Winipcfg W} `{!GoRange}
    (family : AddressFamily) (ourLUID : LUID) (proxies : list ProxyRoutes.proxy)
    : gset luidRouteData → Prop :=
| tracked_init :
    tracked family ourLUID proxies ∅
| tracked_doIt topo restart ours (w : W) err ours' w' evs :
    tracked family ourLUID proxies ours →
    ProxyRoutes.doIt topo family ourLUID
      (ProxyRoutes.buildDestProxy family proxies) restart ours w
      = (err, ours', w', evs) →
    tracked family ourLUID proxies ours'
| tracked_onRouteChange topo notificationType route ours (w : W) ours' w' evs :
    tracked family ourLUID proxies ours →
    ProxyRoutes.onRouteChange topo family ourLUID
      (ProxyRoutes.buildDestProxy family proxies) notificationType route ours w
      = (ours', w', evs) →
    tracked family ourLUID proxies ours'
| tracked_onInterfaceChange topo notificationType ours (w : W) ours' w' evs :
    tracked family ourLUID proxies ours →
    ProxyRoutes.onInterfaceChange topo family ourLUID
      (ProxyRoutes.buildDestProxy family proxies) notificationType ours w
      = (ours', w', evs) →
    tracked family ourLUID proxies ours'
| tracked_cleanIt ours (w : W) ours' w' evs :
    tracked family ourLUID proxies ours →
    ProxyRoutes.cleanIt ours w = (ours', w', evs) →
    tracked family ourLUID proxies ours'.

(** The registrations asked for in a trace, with what they returned. *)
Definition isRegistration (ev : Event) : bool :=
  match ev with
  | EvRegisterRouteChange _ | EvRegisterInterfaceChange _ => true
  | _ => false
  end.

Definition registerCalls (evs : list Event) : list Event :=
  filter (λ ev, isRegistration ev = true) evs.

(** ** A world where the second registration is refused *)

Module SecondFails.

Definition world : Sim.World :=
  {| Sim.routes := ∅; Sim.nlmtu := None; Sim.registered := [];
     Sim.nextHandle := 1;
     Sim.addFault := λ _, None;
     Sim.deleteFault := λ _, None;
     Sim.setFault := None;
     Sim.registerRouteFault := None;
     Sim.registerInterfaceFault := Some 5 |}.

End SecondFails.

(** ** Selection of the default route *)

(** The candidates of [findDefaultLUID], in table order: the rows the
    iteration lets through whose per-family interface row can be read, each
    with that row. *)
Definition candidates (topo : Topology) (family : AddressFamily) (ourLUID : LUID)
    (rows : list MibIPforwardRow2) : list (MibIPforwardRow2 * MibIPInterfaceRow) :=
  omap (λ r, if foreignDefaultUp topo ourLUID r then
               match IPInterface topo (InterfaceLUID r) family with
               | Ok iface => Some (r, iface)
               | Err _ => None
               end
             else None) rows.

(** Route metric plus interface metric, as a number. *)
Definition combinedMetric (c : MibIPforwardRow2 * MibIPInterfaceRow) : Z :=
  Metric c.1 + IfMetric c.2.

(** Route metric plus interface metric, as the sum of two [uint32]. *)
Definition combinedMetric32 (c : MibIPforwardRow2 * MibIPInterfaceRow) : Z :=
  wrap32 (Metric c.1 + IfMetric c.2).

(** [c] is the first element of [cands] whose metric is the least. *)
Definition firstMinimum {C : Type} (metric : C → Z) (cands : list C) (c : C) : Prop :=
  ∃ before after,
    cands = before ++ c :: after ∧
    (∀ x, x ∈ before → metric c < metric x) ∧
    (∀ x, x ∈ after → metric c ≤ metric x).

(** The selection (interface and index) is that of the first candidate of
    least metric, and is [(0, 0)] when there is no candidate. *)
Definition selectsFirstMinimum (metric : MibIPforwardRow2 * MibIPInterfaceRow → Z)
    (cands : list (MibIPforwardRow2 * MibIPInterfaceRow)) (sel : LUID * Z) : Prop :=
  (cands = [] ∧ sel = (0, 0)) ∨
  (∃ c, firstMinimum metric cands c ∧
        sel = (InterfaceLUID c.1, InterfaceIndex c.1)).

(** The claim C7 for one call of [findDefaultLUID]. *)
Definition selectorReturnsFirstMinimum {W : Type}
    (topo : Topology) (family : AddressFamily) (ourLUID : LUID)
    (lastLUID : LUID) (lastIndex : Z) (w : W) : Prop :=
  ∀ rows, GetIPForwardTable2 topo family = Ok rows →
    let run := MTUMonitor.findDefaultLUID topo family ourLUID lastLUID lastIndex w in
    run.1.1.1 = None ∧
    selectsFirstMinimum combinedMetric (candidates topo family ourLUID rows) run.1.1.2.

(** One step of the selection: what the callback of [findDefaultLUID] does
    with a candidate. *)
Definition pick (b : MTUMonitor.best) (c : MibIPforwardRow2 * MibIPInterfaceRow)
    : MTUMonitor.best :=
  if combinedMetric32 c <? MTUMonitor.lowestMetric b then
    {| MTUMonitor.lowestMetric := combinedMetric32 c;
       MTUMonitor.index := InterfaceIndex c.1;
       MTUMonitor.bestLUID := InterfaceLUID c.1 |}
  else b.

(** A network whose only default route has the largest metric a [uint32]
    can hold, over an interface of metric 0. *)
Module Saturated.

Definition route : MibIPforwardRow2 :=
  {| InterfaceLUID := 5; InterfaceIndex := 7; PrefixLength := 0;
     NextHop := Addr4 3232235777; Metric := 4294967295 |}.

Definition net : Topology :=
  {| GetIPForwardTable2 := λ _, Ok [route];
     Interface := λ _, Ok {| OperStatus := IfOperStatusUp; MTU := 1500 |};
     IPInterface := λ _ _, Ok {| IfMetric := 0; NLMTU := 1500 |} |}.

End Saturated.

(** A network with two default routes over interfaces of metric 2: the
    first of route metric [2^32 - 1], the second of route metric 10. *)
Module Wrapping.

Definition far : MibIPforwardRow2 :=
  {| InterfaceLUID := 5; InterfaceIndex := 7; PrefixLength := 0;
     NextHop := Addr4 3232235777; Metric := 4294967295 |}.

Definition near : MibIPforwardRow2 :=
  {| InterfaceLUID := 6; InterfaceIndex := 8; PrefixLength := 0;
     NextHop := Addr4 3232236033; Metric := 10 |}.

Definition net : Topology :=
  {| GetIPForwardTable2 := λ _, Ok [far; near];
     Interface := λ _, Ok {| OperStatus := IfOperStatusUp; MTU := 1500 |};
     IPInterface := λ _ _, Ok {| IfMetric := 2; NLMTU := 1500 |} |}.

End Wrapping.

(** Three uplinks A, B and C with combined metrics 30, 10 and 20, and a
    fourth, D, of combined metric 5 whose interface is down. *)
Module Uplinks.

Definition A : MibIPforwardRow2 :=
  {| InterfaceLUID := 11; InterfaceIndex := 1; PrefixLength := 0;
     NextHop := Addr4 167772161; Metric := 25 |}.
Definition B : MibIPforwardRow2 :=
  {| InterfaceLUID := 12; InterfaceIndex := 2; PrefixLength := 0;
     NextHop := Addr4 167772417; Metric := 5 |}.
Definition C : MibIPforwardRow2 :=
  {| InterfaceLUID := 13; InterfaceIndex := 3; PrefixLength := 0;
     NextHop := Addr4 167772673; Metric := 15 |}.
Definition D : MibIPforwardRow2 :=
  {| InterfaceLUID := 14; InterfaceIndex := 4; PrefixLength := 0;
     NextHop := Addr4 167772929; Metric := 0 |}.

Definition net : Topology :=
  {| GetIPForwardTable2 := λ _, Ok [A; D; B; C];
     Interface := λ l,
       Ok {| OperStatus := if l =? 14 then IfOperStatusDown else IfOperStatusUp;
             MTU := 1500 |};
     IPInterface := λ _ _, Ok {| IfMetric := 5; NLMTU := 1500 |} |}.

End Uplinks.

(** ** The MTU of the tunnel *)

(** The value last written with success to the tunnel interface in a
    trace. *)
Definition lastWritten (history : list Event) : option Z :=
  last (omap (λ c, match c.2 with None => Some c.1 | Some _ => None end)
             (setCalls history)).

(** The claim C3 for one pass, [history] being the trace of the passes
    before it. *)
Definition writtenIffResultDiffers {W : Type} `{!Winipcfg W}
    (topo : Topology) (family : AddressFamily) (ourLUID : LUID)
    (st : MTUMonitor.state) (history : list Event) (w : W) : Prop :=
  let run := MTUMonitor.doIt topo family ourLUID st w in
  ∀ ifrow,
    MTUMonitor.lastLUID run.1.1.2 ≠ 0 →
    Interface topo (MTUMonitor.lastLUID run.1.1.2) = Ok ifrow →
    0 < MTU ifrow →
    (setCalls run.2 ≠ [] ↔
     lastWritten history ≠ Some (MTUMonitor.tunnelMTU family (MTU ifrow))).

(** ** A configuration with one proxied peer *)

Module Resolved.
Import AddressList.

(** The resolver answers with one IPv4 and one IPv6 address, twice the
    first; every proxy reports that it is ready. *)
Definition env : Environment :=
  {| urlHostname := λ _, Ok "vpn.example.org"%string;
     LookupHost := λ _, Ok ["203.0.113.9"; "2001:db8::1"; "203.0.113.9"]%string;
     ParseAddr := λ ip,
       if String.eqb ip "203.0.113.9" then Ok (Addr4 3405803785)
       else if String.eqb ip "2001:db8::1"
            then Ok (Addr6 42540766411282592856903984951653826561 EmptyString)
            else Err 87;
     proxyReady := λ _ _, None |}.

Definition conf : Config :=
  {| Peers :=
       [ {| ProxyEndpoint := "https://vpn.example.org/";
            Endpoint := "127.0.0.1:51820" |};
         {| ProxyEndpoint := EmptyString; Endpoint := "198.51.100.7:51820" |} ] |}.

End Resolved.

(** ** proxy.go: spawnProxies *)

Module Spawn.
Import AddressList ProxyRoutes.

Section Spawn.
Context `{!Environment}.

(** [for _, ip := range pips], filling [addresses]. *)
Fixpoint parseAll (pips : list string) (addresses : list Addr) : result (list Addr) :=
  match pips with
  | [] => Ok addresses
  | ip :: pips' =>
      match ParseAddr ip with
      | Err e => Err e
      | Ok addr => parseAll pips' (append addresses addr)
      end
  end.

(** [for _, peer := range conf.Peers]; the proxy is appended before its
    readiness is awaited. *)
Fixpoint spawnEach (peers : list Peer) (proxies : list proxy) : result (list proxy) :=
  match peers with
  | [] => Ok proxies
  | peer :: peers' =>
      if (0 <? String.length (ProxyEndpoint peer))%nat then
        match urlHostname (ProxyEndpoint peer) with
        | Err e => Err e
        | Ok host =>
            match LookupHost host with
            | Err e => Err e
            | Ok pips =>
                match parseAll pips [] with
                | Err e => Err e
                | Ok addresses =>
                    let p := {| Listen := Endpoint peer; Addresses := addresses |} in
                    let proxies := append proxies p in
                    match proxyReady peer pips with
                    | Some e => Err e
                    | None => spawnEach peers' proxies
                    end
                end
            end
        end
      else spawnEach peers' proxies
  end.

Definition spawnProxies (conf : Config) : result (list proxy) :=
  spawnEach (Peers conf) [].

End Spawn.
End Spawn.

(** ** monitorProxyRoutes, the variant that takes the list of addresses *)

Module AddressRoutes.

(** The body of the loop that fills [destinations]. *)
Definition addDestination (family : AddressFamily) (destinations : list Prefix)
    (addr : Addr) : list Prefix :=
  if (family =? AF_INET) && negb (Is4 addr) then destinations
  else if (family =? AF_INET6) && negb (Is6 addr) then destinations
  else AddressList.append destinations (PrefixFrom addr (BitLen addr)).

Definition buildDestinations (family : AddressFamily) (proxies : list Addr)
    : list Prefix :=
  foldl (addDestination family) [] proxies.

Section AddressRoutes.
Context {W : Type} `{!Winipcfg W} `{!GoRange}.

(** One turn of [for j := range destinations]. *)
Definition addOne (r : MibIPforwardRow2) (newRoutes : gset luidRouteData)
    (dst : Prefix) : M W (gset luidRouteData) :=
  let via := NextHop r in
  let! err := AddRoute (InterfaceLUID r) dst via 0 in
  match err with
  | Some e =>
      if negb (e =? ERROR_OBJECT_ALREADY_EXISTS) then
        let! _ := logPrintf (LogAddFailed dst via e) in
        ret newRoutes
      else ret ({[ProxyRoutes.routeOf r dst]} ∪ newRoutes)
  | None => ret ({[ProxyRoutes.routeOf r dst]} ∪ newRoutes)
  end.

(** The callback [doIt] gives to the iteration; it always returns [nil]. *)
Definition addRoutes (destinations : list Prefix) (r : MibIPforwardRow2)
    (newRoutes : gset luidRouteData) : M W (error * gset luidRouteData) :=
  let! newRoutes' := forEach (addOne r) destinations newRoutes in
  ret (None, newRoutes').

(** One turn of [for r := range ourRoutes] in [doIt]. *)
Definition dropStale (newRoutes : gset luidRouteData) (_ : unit) (r : luidRouteData)
    : M W unit :=
  if bool_decide (r ∈ newRoutes) then ret tt
  else
    let! err := DeleteRoute (luid r) (destination r) (nextHop r) in
    match err with
    | Some e =>
        if negb (e =? ERROR_NOT_FOUND) then
          logPrintf (LogDeleteFailed (destination r) (nextHop r) e)
        else ret tt
    | None => ret tt
    end.

Definition doIt (topo : Topology) (family : AddressFamily) (ourLUID : LUID)
    (destinations : list Prefix) (ourRoutes : gset luidRouteData)
    : M W (error * gset luidRouteData) :=
  let! '(err, newRoutes) :=
    iterateForeignDefaultRoutes topo family ourLUID (addRoutes destinations) ∅ in
  match err with
  | Some e => ret (Some e, ourRoutes)
  | None =>
      let! _ := forEach (dropStale newRoutes) (rangeKeys ourRoutes) tt in
      ret (None, newRoutes)
  end.

(** One turn of [for r := range ourRoutes] in [cleanIt]. *)
Definition cleanOne (_ : unit) (r : luidRouteData) : M W unit :=
  let! err := DeleteRoute (luid r) (destination r) (nextHop r) in
  match err with
  | Some e =>
      if negb (e =? ERROR_NOT_FOUND) then
        logPrintf (LogDeleteFailed (destination r) (nextHop r) e)
      else ret tt
  | None => ret tt
  end.

Definition cleanIt (ourRoutes : gset luidRouteData) : M W (gset luidRouteData) :=
  let! _ := forEach cleanOne (rangeKeys ourRoutes) tt in
  ret ∅.

(** [monitorProxyRoutes]: neither failure of a registration calls
    [cleanIt] here; [ourRoutes] as it is when the function returns is
    handed back next to the result. *)
Definition monitorProxyRoutes (topo : Topology) (family : AddressFamily)
    (ourLUID : LUID) (proxies : list Addr)
    : M W (result (list Handle) * gset luidRouteData) :=
  let destinations := buildDestinations family proxies in
  let! '(err, ourRoutes) := doIt topo family ourLUID destinations ∅ in
  match err with
  | Some e => ret (Err e, ourRoutes)
  | None =>
      let! r := RegisterRouteChangeCallback in
      match r with
      | Err e => ret (Err e, ourRoutes)
      | Ok cbr =>
          let! r := RegisterInterfaceChangeCallback in
          match r with
          | Err e =>
              let! ourRoutes := Unregister cbr (Some cleanIt) ourRoutes in
              ret (Err e, ourRoutes)
          | Ok cbi => ret (Ok [cbr; cbi], ourRoutes)
          end
      end
  end.

End AddressRoutes.
End AddressRoutes.

(** ** The states of the MTU monitor *)

(** The values the variables of [monitorMTU family ourLUID] can take: they
    start as [state0] and are then only written by [doIt], called directly
    or from either callback, on whatever snapshot and in whatever world. *)
Inductive mtuStates {W : Type} `{!Winipcfg W}
    (family : AddressFamily) (ourLUID : LUID) : MTUMonitor.state → Prop :=
| mtuStates_init :
    mtuStates family ourLUID MTUMonitor.state0
| mtuStates_doIt topo st (w : W) err st' w' evs :
    mtuStates family ourLUID st →
    MTUMonitor.doIt topo family ourLUID st w = (err, st', w', evs) →
    mtuStates family ourLUID st'
| mtuStates_onRouteChange topo notificationType route st (w : W) st' w' evs :
    mtuStates family ourLUID st →
    MTUMonitor.onRouteChange topo family ourLUID notificationType route st w
      = (st', w', evs) →
    mtuStates family ourLUID st'
| mtuStates_onInterfaceChange topo notificationType st (w : W) st' w' evs :
    mtuStates family ourLUID st →
    MTUMonitor.onInterfaceChange topo family ourLUID notificationType st w
      = (st', w', evs) →
    mtuStates family ourLUID st'.

(** ** A world where the first registration is refused *)

Module FirstFails.

Definition world : Sim.World :=
  {| Sim.routes := ∅; Sim.nlmtu := None; Sim.registered := [];
     Sim.nextHandle := 1;
     Sim.addFault := λ _, None;
     Sim.deleteFault := λ _, None;
     Sim.setFault := None;
     Sim.registerRouteFault := Some 5;
     Sim.registerInterfaceFault := None |}.

End FirstFails.

(** ** The traces of the entry points of each monitor *)

(** What the route monitor can be entered by: its start, either callback,
    and [cleanIt] as the cleanup of a registration. *)
Inductive routeMonitorTrace {W : Type} `{!Winipcfg W} `{!GoRange} : list Event → Prop :=
| routeTrace_start topo family ourLUID proxies (w : W) res ours w' evs :
    ProxyRoutes.monitorProxyRoutes topo family ourLUID proxies w = (res, ours, w', evs) →
    routeMonitorTrace evs
| routeTrace_onRouteChange topo family ourLUID dp notificationType route ours
    (w : W) ours' w' evs :
    ProxyRoutes.onRouteChange topo family ourLUID dp notificationType route ours w
      = (ours', w', evs) →
    routeMonitorTrace evs
| routeTrace_onInterfaceChange topo family ourLUID dp notificationType ours
    (w : W) ours' w' evs :
    ProxyRoutes.onInterfaceChange topo family ourLUID dp notificationType ours w
      = (ours', w', evs) →
    routeMonitorTrace evs
| routeTrace_cleanIt ours (w : W) ours' w' evs :
    ProxyRoutes.cleanIt ours w = (ours', w', evs) →
    routeMonitorTrace evs.

(** What the MTU monitor can be entered by: its start and either callback. *)
Inductive mtuMonitorTrace {W : Type} `{!Winipcfg W} : list Event → Prop :=
| mtuTrace_start topo family ourLUID (w : W) res st w' evs :
    MTUMonitor.monitorMTU topo family ourLUID w = (res, st, w', evs) →
    mtuMonitorTrace evs
| mtuTrace_onRouteChange topo family ourLUID notificationType route st
    (w : W) st' w' evs :
    MTUMonitor.onRouteChange topo family ourLUID notificationType route st w
      = (st', w', evs) →
    mtuMonitorTrace evs
| mtuTrace_onInterfaceChange topo family ourLUID notificationType st
    (w : W) st' w' evs :
    MTUMonitor.onInterfaceChange topo family ourLUID notificationType st w
      = (st', w', evs) →
    mtuMonitorTrace evs.

(** ** What spawnProxies and the map of destinations are to hold *)

(** A peer with a proxy endpoint. *)
Definition proxied (peer : AddressList.Peer) : bool :=
  (0 <? String.length (AddressList.ProxyEndpoint peer))%nat.

(** The proxy of a peer: it listens on the peer's endpoint and has the
    addresses the peer's proxy endpoint resolves to. *)
Definition proxyOf `{!AddressList.Environment} (peer : AddressList.Peer)
    : ProxyRoutes.proxy :=
  {| ProxyRoutes.Listen := AddressList.Endpoint peer;
     ProxyRoutes.Addresses := AddressList.peerAddresses peer |}.

(** The answers of the resolver that parse. *)
Definition parsed `{!AddressList.Environment} (pips : list string) : list Addr :=
  omap (λ ip, match AddressList.ParseAddr ip with
              | Ok a => Some a
              | Err _ => None
              end) pips.

(** A peer whose proxy endpoint resolves, every answer parsing, and whose
    proxy reports that it is ready. *)
Definition comesUp `{!AddressList.Environment} (peer : AddressList.Peer) : Prop :=
  ∃ host pips,
    AddressList.urlHostname (AddressList.ProxyEndpoint peer) = Ok host ∧
    AddressList.LookupHost host = Ok pips ∧
    Forall2 (λ ip addr, AddressList.ParseAddr ip = Ok addr) pips
            (AddressList.peerAddresses peer) ∧
    AddressList.proxyReady peer pips = None.

(** The entries proxy [ip.1] leaves under destination [d]: one for each of
    its addresses that passes the family tests and has [d] as prefix. *)
Definition servedBy (family : AddressFamily) (d : Prefix)
    (ip : nat * ProxyRoutes.proxy) : list ProxyRoutes.proxyRef :=
  (λ _, ip.1) <$>
    filter (λ a, familyAccepts family a = true ∧ PrefixFrom a (BitLen a) = d)
           (ProxyRoutes.Addresses ip.2).

(** ** Comparing the two variants of monitorProxyRoutes *)

(** A computation with its result seen through [f]: same world, same
    events. *)
Definition onResult {W A B : Type} (f : A → B) (m : M W A) : M W B :=
  λ w, match m w with (a, w', evs) => (f a, w', evs) end.

(** The prefix the family tests let through for an address. *)
Definition destinationOf (addr : Addr) : Prefix := PrefixFrom addr (BitLen addr).

(** ** What the claims assume of the system *)

(** A system that reports the routes that are there.  [settled w k] says
    that in [w] an add of [k] reports that the route exists and changes
    nothing.  An add that succeeded or reported that the route exists
    leaves its route settled, and a settled route stays so under the adds
    and under the deletes of other routes. *)
Record ReportsInstalledRoutes {W : Type} `{!Winipcfg W}
    (settled : W → luidRouteData → Prop) : Prop := {
  add_of_settled : ∀ l dst via metric (w : W),
    settled w {| luid := l; destination := dst; nextHop := via |} →
    osAddRoute l dst via metric w = (Some ERROR_OBJECT_ALREADY_EXISTS, w);
  add_settles : ∀ l dst via metric (w : W) err w',
    osAddRoute l dst via metric w = (err, w') →
    addOk err = true →
    settled w' {| luid := l; destination := dst; nextHop := via |};
  add_keeps_settled : ∀ l dst via metric (w : W) err w' k,
    osAddRoute l dst via metric w = (err, w') →
    settled w k → settled w' k;
  delete_keeps_settled : ∀ l dst via (w : W) err w' k,
    osDeleteRoute l dst via w = (err, w') →
    k ≠ {| luid := l; destination := dst; nextHop := via |} →
    settled w k → settled w' k
}.

(** A system that forgets what it removes.  [installed w k] says that the
    route [k] is in the route table of [w], [registered w h] that the
    callback [h] is registered.  A delete that returns [nil] leaves its
    route out of the table, an [Unregister] that returns [nil] leaves its
    callback unregistered, and neither call installs a route; a delete
    registers nothing. *)
Record ForgetsWhatItRemoves {W : Type} `{!Winipcfg W}
    (installed : W → luidRouteData → Prop)
    (registered : W → Handle → Prop) : Prop := {
  delete_removes : ∀ l dst via (w w' : W),
    osDeleteRoute l dst via w = (None, w') →
    ¬ installed w' {| luid := l; destination := dst; nextHop := via |};
  delete_installs_nothing : ∀ l dst via (w : W) err w' k,
    osDeleteRoute l dst via w = (err, w') →
    installed w' k → installed w k;
  delete_registers_nothing : ∀ l dst via (w : W) err w' h,
    osDeleteRoute l dst via w = (err, w') →
    registered w' h → registered w h;
  unregister_removes : ∀ h (w w' : W),
    osUnregister h w = (None, w') →
    ¬ registered w' h;
  unregister_installs_nothing : ∀ h (w : W) err w' k,
    osUnregister h w = (err, w') →
    installed w' k → installed w k
}.

(** What [settled], [installed] and [registered] are on the simulated
    system: an add of [k] reports that the route exists when the system
    answers so for [k] in any case, or does not refuse the add of [k] and
    has [k] in its route table. *)
Definition simSettled (w : Sim.World) (k : luidRouteData) : Prop :=
  Sim.addFault w k = Some ERROR_OBJECT_ALREADY_EXISTS ∨
  (Sim.addFault w k = None ∧ k ∈ Sim.routes w).

Definition simInstalled (w : Sim.World) (k : luidRouteData) : Prop :=
  k ∈ Sim.routes w.

Definition simRegistered (w : Sim.World) (h : Handle) : Prop :=
  h ∈ Sim.registered w.

(** The claim C5 for one start of the route monitor on a simulated
    system [os]: when the first registration succeeded and the second failed,
    the error is returned with [ourRoutes] empty, the first callback is
    not registered any more, and no route the start was tracking is left
    in the route table. *)
Definition rollbackLeavesNoOrphan (os : Winipcfg Sim.World) `{!GoRange}
    (topo : Topology) (family : AddressFamily) (ourLUID : LUID)
    (proxies : list ProxyRoutes.proxy) (w : Sim.World) : Prop :=
  let run :=
    @ProxyRoutes.monitorProxyRoutes Sim.World os _
      topo family ourLUID proxies w in
  ∀ cbr e,
    EvRegisterRouteChange (Ok cbr) ∈ run.2 →
    EvRegisterInterfaceChange (Err e) ∈ run.2 →
    run.1.1.1 = Err e ∧ run.1.1.2 = ∅ ∧
    ¬ simRegistered run.1.2 cbr ∧
    ∀ k, k ∈ kept (addCalls run.2) → ¬ simInstalled run.1.2 k.

(** ** A world where the second registration and every delete are refused *)

Module Orphaned.

Definition world : Sim.World :=
  {| Sim.routes := ∅; Sim.nlmtu := None; Sim.registered := [];
     Sim.nextHandle := 1;
     Sim.addFault := λ _, None;
     Sim.deleteFault := λ _, Some 5;
     Sim.setFault := None;
     Sim.registerRouteFault := None;
     Sim.registerInterfaceFault := Some 5 |}.

End Orphaned.

(** ** A system that refuses to unregister *)

Module Stubborn.

(** The simulated system, except that [Unregister] fails and leaves the
    callback registered. *)
Definition os : Winipcfg Sim.World :=
  {| osAddRoute := Sim.addRoute;
     osDeleteRoute := Sim.deleteRoute;
     osSetIPInterface := Sim.setIPInterface;
     osRegisterRouteChangeCallback := λ w, Sim.register (Sim.registerRouteFault w) w;
     osRegisterInterfaceChangeCallback :=
       λ w, Sim.register (Sim.registerInterfaceFault w) w;
     osUnregister := λ _ w, (Some 5, w);
     cleanupPolicy := CleanupAfterUnregister |}.

End Stubborn.

(** * Properties *)

(** ** The monad *)

Section MonadFacts.
Context {W : Type}.

Lemma bind_run {A B} (m : M W A) (f : A → M W B) w b w2 evs :
  bind m f w = (b, w2, evs) ↔
  ∃ a w1 e1 e2, m w = (a, w1, e1) ∧ f a w1 = (b, w2, e2) ∧ evs = e1 ++ e2.
Proof.
  unfold bind. split.
  - destruct (m w) as [[a w1] e1]. destruct (f a w1) as [[b' w2'] e2] eqn:Hf.
    intros [= <- <- <-]. by exists a, w1, e1, e2.
  - intros (a & w1 & e1 & e2 & -> & -> & ->). done.
Qed.

Lemma ret_run {A} (a : A) (w : W) b w' evs :
  ret a w = (b, w', evs :> list Event) ↔ b = a ∧ w' = w ∧ evs = [].
Proof. unfold ret. split; [by intros [= <- <- <-] | by intros (-> & -> & ->)]. Qed.

End MonadFacts.

(** Take a run of a monadic term apart, down to the calls. *)
Ltac run_inv H :=
  lazymatch type of H with
  | bind _ _ _ = _ =>
      let a := fresh "a" in let w := fresh "w" in
      let e1 := fresh "evs" in let e2 := fresh "evs" in
      let H1 := fresh "Hrun" in let H2 := fresh "Hrun" in
      apply bind_run in H as (a & w & e1 & e2 & H1 & H2 & ->);
      try run_inv H1; try run_inv H2
  | ret _ _ = _ =>
      apply ret_run in H as (-> & -> & ->)
  end.

Section TraceFacts.

Lemma addCalls_app e1 e2 : addCalls (e1 ++ e2) = addCalls e1 ++ addCalls e2.
Proof. apply omap_app. Qed.

Lemma deleteCalls_app e1 e2 : deleteCalls (e1 ++ e2) = deleteCalls e1 ++ deleteCalls e2.
Proof. apply omap_app. Qed.

Lemma setCalls_app e1 e2 : setCalls (e1 ++ e2) = setCalls e1 ++ setCalls e2.
Proof. apply omap_app. Qed.

Lemma logLines_app e1 e2 : logLines (e1 ++ e2) = logLines e1 ++ logLines e2.
Proof. apply omap_app. Qed.

Lemma kept_app c1 c2 : kept (c1 ++ c2) = kept c1 ∪ kept c2.
Proof. unfold kept. by rewrite omap_app, list_to_set_app_L. Qed.

Lemma addFailures_app c1 c2 : addFailures (c1 ++ c2) = addFailures c1 ++ addFailures c2.
Proof. apply omap_app. Qed.

Lemma deleteFailures_app c1 c2 :
  deleteFailures (c1 ++ c2) = deleteFailures c1 ++ deleteFailures c2.
Proof. apply omap_app. Qed.

Lemma elem_of_kept k calls :
  k ∈ kept calls ↔ ∃ err, (k, err) ∈ calls ∧ addOk err = true.
Proof.
  unfold kept. rewrite elem_of_list_to_set, list_elem_of_omap. split.
  - intros ([k' err] & Hin & Hk). simpl in Hk.
    destruct (addOk err) eqn:Hok; simplify_eq. eauto.
  - intros (err & Hin & Hok). exists (k, err). simpl. by rewrite Hok.
Qed.

(** When every add is [addOk], the kept keys are the keys added. *)
Lemma kept_all_ok calls :
  Forall (λ c, addOk c.2 = true) calls → kept calls = list_to_set calls.*1.
Proof.
  induction 1 as [|[k err] calls Hok _ IH]; [done|].
  change ((k, err) :: calls) with ([(k, err)] ++ calls).
  rewrite kept_app, IH. unfold kept. simpl in *. rewrite Hok. simpl.
  by rewrite (right_id_L ∅ (∪)).

Qed.

End TraceFacts.

(** ** The reconciliation pass of [monitorProxyRoutes] *)

Section PassFacts.
Context {W : Type} `{!Winipcfg W} `{!GoRange}.
Import ProxyRoutes.

Lemma AddRoute_run l dst via metric (w : W) err w' evs :
  AddRoute l dst via metric w = (err, w', evs) →
  evs = [EvAddRoute {| luid := l; destination := dst; nextHop := via |} metric err].
Proof.
  unfold AddRoute. destruct (osAddRoute l dst via metric w). by intros [= <- <- <-].
Qed.

Lemma DeleteRoute_run l dst via (w : W) err w' evs :
  DeleteRoute l dst via w = (err, w', evs) →
  evs = [EvDeleteRoute {| luid := l; destination := dst; nextHop := via |} err].
Proof.
  unfold DeleteRoute. destruct (osDeleteRoute l dst via w). by intros [= <- <- <-].
Qed.

Lemma addOne_run dp r sc dst (w : W) sc' w' evs :
  addOne dp r sc dst w = (sc', w', evs) →
  ∃ err,
    addCalls evs = [(routeOf r dst, err)] ∧
    deleteCalls evs = [] ∧
    newRoutes sc' = kept [(routeOf r dst, err)] ∪ newRoutes sc ∧
    logLines evs = addFailures [(routeOf r dst, err)] ∧
    Forall (λ ev, isRouteEvent ev = true) evs.
Proof.
  unfold addOne. intros Hrun.
  apply bind_run in Hrun as (err & w1 & e1 & e2 & Hadd & Hk & ->).
  apply AddRoute_run in Hadd as ->. exists err.
  destruct err as [e|]; cbv beta iota in Hk.
  - unfold kept, addFailures; simpl.
    destruct (e =? ERROR_OBJECT_ALREADY_EXISTS) eqn:He.
    + apply ret_run in Hk as (-> & -> & ->). simpl.
      rewrite (right_id_L ∅ (∪)). repeat split; try done. repeat constructor.
    + apply bind_run in Hk as (? & ? & ? & ? & Hlog & Hk & ->).
      apply ret_run in Hk as (-> & -> & ->).
      unfold logPrintf in Hlog. injection Hlog as <- <- <-. simpl.
      rewrite (left_id_L ∅ (∪)). repeat split; try done. repeat constructor.
  - apply ret_run in Hk as (-> & -> & ->). unfold kept; simpl.
    rewrite (right_id_L ∅ (∪)). repeat split; try done. repeat constructor.
Qed.

Lemma addOne_loop dp r dsts : ∀ sc (w : W) sc' w' evs,
  forEach (addOne dp r) dsts sc w = (sc', w', evs) →
  (addCalls evs).*1 = routeOf r <$> dsts ∧
  deleteCalls evs = [] ∧
  newRoutes sc' = kept (addCalls evs) ∪ newRoutes sc ∧
  logLines evs = addFailures (addCalls evs) ∧
  Forall (λ ev, isRouteEvent ev = true) evs.
Proof.
  induction dsts as [|dst dsts IH]; intros sc w sc' w' evs Hrun; simpl in Hrun.
  - apply ret_run in Hrun as (-> & -> & ->). unfold kept. simpl.
    by rewrite (left_id_L ∅ (∪)).
  - apply bind_run in Hrun as (sc1 & w1 & e1 & e2 & Hone & Hrest & ->).
    apply addOne_run in Hone as (err & Ha1 & Hd1 & Hn1 & Hl1 & Hr1).
    apply IH in Hrest as (Ha2 & Hd2 & Hn2 & Hl2 & Hr2).
    rewrite addCalls_app, deleteCalls_app, logLines_app, kept_app,
      addFailures_app, fmap_app, Ha2, Hd1, Hd2, Hn2, Hn1, Hl1, Hl2, Ha1.
    repeat split; try done.
    + rewrite (assoc_L (∪)). f_equal. apply (comm_L (∪)).
    + by apply Forall_app.
Qed.

Lemma addRoutes_run dp r sc (w : W) err sc' w' evs :
  addRoutes dp r sc w = (err, sc', w', evs) →
  err = None ∧
  (addCalls evs).*1 = routeOf r <$> rangeKeys (dom dp) ∧
  deleteCalls evs = [] ∧
  newRoutes sc' = kept (addCalls evs) ∪ newRoutes sc ∧
  logLines evs = addFailures (addCalls evs) ∧
  Forall (λ ev, isRouteEvent ev = true) evs.
Proof.
  unfold addRoutes. intros Hrun.
  apply bind_run in Hrun as (sc1 & w1 & e1 & e2 & Hloop & Hret & ->).
  apply ret_run in Hret as ([= <- <-] & -> & ->).
  rewrite app_nil_r. split; [done|]. by apply addOne_loop in Hloop.
Qed.

Lemma iterateRows_addRoutes topo ourLUID dp rows : ∀ sc (w : W) err sc' w' evs,
  iterateRows topo ourLUID (addRoutes dp) rows sc w = (err, sc', w', evs) →
  err = None ∧
  (addCalls evs).*1 = desiredRoutes topo ourLUID (rangeKeys (dom dp)) rows ∧
  deleteCalls evs = [] ∧
  newRoutes sc' = kept (addCalls evs) ∪ newRoutes sc ∧
  logLines evs = addFailures (addCalls evs) ∧
  Forall (λ ev, isRouteEvent ev = true) evs.
Proof.
  unfold desiredRoutes.
  induction rows as [|r rows IH]; intros sc w err sc' w' evs Hrun;
    cbn [iterateRows] in Hrun.
  - apply ret_run in Hrun as ([= <- <-] & -> & ->). unfold kept. simpl.
    by rewrite (left_id_L ∅ (∪)).
  - rewrite filter_cons. destruct (foreignDefaultUp topo ourLUID r) eqn:Hup.
    + rewrite decide_True by done. cbn [flat_map].
      apply bind_run in Hrun as ([err1 sc1] & w1 & e1 & e2 & Hcb & Hrest & ->).
      apply addRoutes_run in Hcb as (-> & Ha1 & Hd1 & Hn1 & Hl1 & Hr1).
      apply IH in Hrest as (-> & Ha2 & Hd2 & Hn2 & Hl2 & Hr2).
      rewrite addCalls_app, deleteCalls_app, logLines_app, kept_app,
        addFailures_app, fmap_app, Ha1, Ha2, Hd1, Hd2, Hn2, Hn1, Hl1, Hl2.
      repeat split; try done.
      * rewrite (assoc_L (∪)). f_equal. apply (comm_L (∪)).
      * by apply Forall_app.
    + rewrite decide_False by done. by apply IH in Hrun.
Qed.

Lemma dropStale_loop dp new ks : ∀ restart (w : W) restart' w' evs,
  forEach (dropStale dp new) ks restart w = (restart', w', evs) →
  addCalls evs = [] ∧
  (deleteCalls evs).*1 = filter (λ k, k ∉ new) ks ∧
  logLines evs = deleteFailures (deleteCalls evs) ∧
  Forall (λ ev, isRouteEvent ev = true) evs.
Proof.
  induction ks as [|k ks IH]; intros restart w restart' w' evs Hrun; simpl in Hrun.
  - by apply ret_run in Hrun as (-> & -> & ->).
  - apply bind_run in Hrun as (restart1 & w1 & e1 & e2 & Hone & Hrest & ->).
    apply IH in Hrest as (Ha2 & Hd2 & Hl2 & Hr2).
    rewrite addCalls_app, deleteCalls_app, logLines_app, deleteFailures_app,
      fmap_app, Ha2, Hd2, Hl2, filter_cons.
    unfold dropStale in Hone. case_bool_decide as Hin.
    + apply ret_run in Hone as (-> & -> & ->).
      rewrite decide_False by (by intros ?). done.
    + rewrite decide_True by done.
      apply bind_run in Hone as (err & w2 & e3 & e4 & Hdel & Hk & ->).
      apply DeleteRoute_run in Hdel as ->.
      assert (routeEq : {| luid := luid k; destination := destination k;
                           nextHop := nextHop k |} = k) by by destruct k.
      rewrite routeEq.
      destruct err as [e|]; cbv beta iota in Hk.
      * destruct (e =? ERROR_NOT_FOUND) eqn:He.
        -- apply ret_run in Hk as (-> & -> & ->).
           unfold deleteFailures at 1. simpl. rewrite He.
           repeat split; try done. by constructor.
        -- apply bind_run in Hk as (? & ? & ? & ? & Hlog & Hk & ->).
           apply ret_run in Hk as (-> & -> & ->).
           unfold logPrintf in Hlog. injection Hlog as <- <- <-.
           unfold deleteFailures at 1. simpl. rewrite He.
           repeat split; try done. by repeat constructor.
      * apply ret_run in Hk as (-> & -> & ->).
        repeat split; try done. by constructor.
Qed.

(** What a pass does once the forwarding table has been read. *)
Lemma doIt_run topo family ourLUID dp restart ours rows (w : W) err ours' w' evs :
  GetIPForwardTable2 topo family = Ok rows →
  doIt topo family ourLUID dp restart ours w = (err, ours', w', evs) →
  err = None ∧
  (addCalls evs).*1 = desiredRoutes topo ourLUID (rangeKeys (dom dp)) rows ∧
  ours' = kept (addCalls evs) ∧
  (deleteCalls evs).*1 = filter (λ k, k ∉ ours') (rangeKeys ours) ∧
  logLines evs = addFailures (addCalls evs) ++ deleteFailures (deleteCalls evs) ∧
  Forall (λ ev, isRouteEvent ev = true) evs.
Proof.
  intros Htable Hrun. unfold doIt, iterateForeignDefaultRoutes in Hrun.
  rewrite Htable in Hrun.
  apply bind_run in Hrun as ([err1 sc] & w1 & e1 & e2 & Hadd & Hk & ->).
  apply iterateRows_addRoutes in Hadd as (-> & Ha1 & Hd1 & Hn1 & Hl1 & Hr1).
  apply bind_run in Hk as (restart' & w2 & e3 & e4 & Hdel & Hret & ->).
  apply ret_run in Hret as ([= -> ->] & -> & ->).
  apply dropStale_loop in Hdel as (Ha2 & Hd2 & Hl2 & Hr2).
  rewrite app_nil_r, addCalls_app, deleteCalls_app, logLines_app, Ha2, Hd1,
    app_nil_r, Ha1, Hl1, Hl2.
  simpl. unfold scratch0 in Hn1. simpl in Hn1.
  rewrite (right_id_L ∅ (∪)) in Hn1. rewrite <- Hn1.
  repeat split; try done. by apply Forall_app.
Qed.

(** A pass that cannot read the forwarding table does nothing. *)
Lemma doIt_fail topo family ourLUID dp restart ours e (w : W) :
  GetIPForwardTable2 topo family = Err e →
  doIt topo family ourLUID dp restart ours w = (Some e, ours, w, []).
Proof.
  intros Htable. unfold doIt, iterateForeignDefaultRoutes. by rewrite Htable.
Qed.

Lemma cleanOne_loop ks : ∀ u (w : W) u' w' evs,
  forEach cleanOne ks u w = (u', w', evs) →
  addCalls evs = [] ∧
  (deleteCalls evs).*1 = ks ∧
  logLines evs = deleteFailures (deleteCalls evs) ∧
  Forall (λ ev, isRouteEvent ev = true) evs.
Proof.
  induction ks as [|k ks IH]; intros u w u' w' evs Hrun; simpl in Hrun.
  - by apply ret_run in Hrun as (-> & -> & ->).
  - apply bind_run in Hrun as (u1 & w1 & e1 & e2 & Hone & Hrest & ->).
    apply IH in Hrest as (Ha2 & Hd2 & Hl2 & Hr2).
    rewrite addCalls_app, deleteCalls_app, logLines_app, deleteFailures_app,
      fmap_app, Ha2, Hd2, Hl2.
    unfold cleanOne in Hone.
    apply bind_run in Hone as (err & w2 & e3 & e4 & Hdel & Hk & ->).
    apply DeleteRoute_run in Hdel as ->.
    assert (routeEq : {| luid := luid k; destination := destination k;
                         nextHop := nextHop k |} = k) by by destruct k.
    rewrite routeEq.
    destruct err as [e|]; cbv beta iota in Hk.
    + destruct (e =? ERROR_NOT_FOUND) eqn:He.
      * apply ret_run in Hk as (-> & -> & ->).
        unfold deleteFailures at 1. simpl. rewrite He.
        repeat split; try done. by constructor.
      * unfold logPrintf in Hk. injection Hk as <- <- <-.
        unfold deleteFailures at 1. simpl. rewrite He.
        repeat split; try done. by repeat constructor.
    + apply ret_run in Hk as (-> & -> & ->).
      repeat split; try done. by constructor.
Qed.

(** [cleanIt] asks for the deletion of every tracked route and forgets
    them all, whatever the deletions return. *)
Lemma cleanIt_run ours (w : W) ours' w' evs :
  cleanIt ours w = (ours', w', evs) →
  ours' = ∅ ∧
  addCalls evs = [] ∧
  (deleteCalls evs).*1 = rangeKeys ours ∧
  logLines evs = deleteFailures (deleteCalls evs) ∧
  Forall (λ ev, isRouteEvent ev = true) evs.
Proof.
  unfold cleanIt. intros Hrun.
  apply bind_run in Hrun as (u & w1 & e1 & e2 & Hloop & Hret & ->).
  apply ret_run in Hret as (-> & -> & ->). rewrite app_nil_r.
  split; [done|]. by apply cleanOne_loop in Hloop.
Qed.

Lemma elem_of_rangeKeys `{Countable K} (s : gset K) (k : K) :
  k ∈ rangeKeys s ↔ k ∈ s.
Proof. by rewrite rangeKeys_perm, elem_of_elements. Qed.

Lemma NoDup_rangeKeys `{Countable K} (s : gset K) : NoDup (rangeKeys s).
Proof. rewrite rangeKeys_perm. apply NoDup_elements. Qed.

End PassFacts.

(** ** The destinations of [monitorProxyRoutes] *)

Section Destinations.
Import ProxyRoutes.

Lemma familyAccepts_inFamily family addr :
  family = AF_INET ∨ family = AF_INET6 →
  familyAccepts family addr = true ↔ inFamily family addr.
Proof.
  unfold familyAccepts, inFamily, AF_INET, AF_INET6.
  intros [-> | ->]; simpl; destruct (Is4 addr), (Is6 addr); simpl;
    split; intros Hx; try done; try (left; by split); try (right; by split);
    destruct Hx as [[? ?]|[? ?]]; done.
Qed.

Lemma hostPrefix_PrefixFrom family addr :
  inFamily family addr → PrefixFrom addr (BitLen addr) = hostPrefix addr.
Proof.
  unfold inFamily, PrefixFrom, hostPrefix.
  intros [[_ Hx]|[_ Hx]]; destruct addr; simplify_eq/=; done.
Qed.

Lemma foreignDefaultUp_spec topo ourLUID r :
  foreignDefaultUp topo ourLUID r = true ↔ upForeignDefault topo ourLUID r.
Proof.
  unfold foreignDefaultUp, upForeignDefault.
  destruct (Z.eqb_spec (PrefixLength r) 0) as [Hp|Hp]; simpl.
  - destruct (Z.eqb_spec (InterfaceLUID r) ourLUID) as [Hl|Hl]; simpl.
    + split; [done | intros (_ & Hne & _); done].
    + destruct (Interface topo (InterfaceLUID r)) as [ifrow|e].
      * rewrite bool_decide_eq_true. split.
        -- intros Hup. repeat split; try done. by exists ifrow.
        -- intros (_ & _ & ifrow' & [= <-] & Hup). done.
      * split; [done | intros (_ & _ & ifrow' & [=] & _)].
  - split; [done | intros (Hp' & _); done].
Qed.

Lemma addDestination_dom family i m addr d :
  d ∈ dom (addDestination family i m addr) ↔
  d ∈ dom m ∨ (familyAccepts family addr = true ∧ d = PrefixFrom addr (BitLen addr)).
Proof.
  unfold addDestination, familyAccepts.
  destruct ((family =? AF_INET) && negb (Is4 addr)); simpl.
  { split; [by left | intros [?|[? ?]]; done]. }
  destruct ((family =? AF_INET6) && negb (Is6 addr)); simpl.
  { split; [by left | intros [?|[? ?]]; done]. }
  rewrite dom_insert_L, elem_of_union, elem_of_singleton.
  naive_solver.
Qed.

Lemma addDestinations_dom family i addrs : ∀ m d,
  d ∈ dom (foldl (addDestination family i) m addrs) ↔
  d ∈ dom m ∨ ∃ addr, addr ∈ addrs ∧ familyAccepts family addr = true ∧
                      d = PrefixFrom addr (BitLen addr).
Proof.
  induction addrs as [|a addrs IH]; intros m d; simpl.
  - split; [by left | intros [?|(? & Hin & _)]; [done | by inversion Hin]].
  - rewrite IH, addDestination_dom. split.
    + intros [[?|[? ?]]|(addr & ? & ? & ?)]; auto.
      * right. exists a. split; [by left | done].
      * right. exists addr. split; [by right | done].
    + intros [?|(addr & Hin & ? & ?)]; auto.
      apply elem_of_cons in Hin as [->|Hin]; [left; by right|].
      right. by exists addr.
Qed.

Lemma buildDestProxy_dom_fold family (l : list (proxyRef * proxy)) : ∀ m d,
  d ∈ dom (foldl (λ m ip, foldl (addDestination family ip.1) m (Addresses ip.2)) m l) ↔
  d ∈ dom m ∨ ∃ ip addr, ip ∈ l ∧ addr ∈ Addresses ip.2 ∧
                         familyAccepts family addr = true ∧
                         d = PrefixFrom addr (BitLen addr).
Proof.
  induction l as [|ip l IH]; intros m d; simpl.
  - split; [by left | intros [?|(? & ? & Hin & _)]; [done | by inversion Hin]].
  - rewrite IH, addDestinations_dom. split.
    + intros [[?|(addr & ? & ? & ?)]|(ip' & addr & ? & ? & ? & ?)]; auto.
      * right. exists ip, addr. split; [by left | done].
      * right. exists ip', addr. split; [by right | done].
    + intros [?|(ip' & addr & Hin & ? & ? & ?)]; auto.
      apply elem_of_cons in Hin as [->|Hin].
      * left. right. by exists addr.
      * right. by exists ip', addr.
Qed.

(** The keys of [destProxy]: one prefix for every address that passes the
    family tests. *)
Lemma buildDestProxy_dom family proxies d :
  d ∈ dom (buildDestProxy family proxies) ↔
  ∃ addr, resolved proxies addr ∧ familyAccepts family addr = true ∧
          d = PrefixFrom addr (BitLen addr).
Proof.
  unfold buildDestProxy, resolved. rewrite buildDestProxy_dom_fold. split.
  - intros [Hin|(ip & addr & Hin & Ha & Hf & ->)]; [by rewrite dom_empty_L in Hin|].
    apply elem_of_lookup_imap in Hin as (i & p & -> & Hp).
    exists addr. repeat split; try done. exists p. split; [|done].
    by apply list_elem_of_lookup_2 in Hp.
  - intros (addr & (p & Hp & Ha) & Hf & ->).
    apply list_elem_of_lookup_1 in Hp as [i Hp]. right.
    exists (i, p), addr. repeat split; try done.
    by apply (elem_of_lookup_imap_2 pair).
Qed.

End Destinations.

(** ** Convergence of the reconciliation pass *)

Lemma eta4 {A B C D} (x : A * B * C * D) : x = (x.1.1.1, x.1.1.2, x.1.2, x.2).
Proof. by destruct x as [[[? ?] ?] ?]. Qed.

Lemma elem_of_desiredRoutes topo ourLUID dsts rows k :
  k ∈ desiredRoutes topo ourLUID dsts rows ↔
  ∃ r d, r ∈ rows ∧ foreignDefaultUp topo ourLUID r = true ∧ d ∈ dsts ∧
         k = ProxyRoutes.routeOf r d.
Proof.
  unfold desiredRoutes. rewrite list_elem_of_In, in_flat_map. split.
  - intros (r & Hr & Hk). apply list_elem_of_In in Hr, Hk.
    apply list_elem_of_filter in Hr as [Hup Hr].
    apply list_elem_of_fmap in Hk as (d & -> & Hd). by exists r, d.
  - intros (r & d & Hr & Hup & Hd & ->). exists r.
    rewrite <- !list_elem_of_In. split.
    + by apply list_elem_of_filter.
    + by apply list_elem_of_fmap_2.
Qed.

(** The keys a pass tries to add do not depend on the order in which the
    destinations are visited, up to their own order. *)
Lemma desiredRoutes_perm `{!GoRange} topo ourLUID (s : gset Prefix) rows :
  desiredRoutes topo ourLUID (rangeKeys s) rows ≡ₚ
  desiredRoutes topo ourLUID (elements s) rows.
Proof.
  unfold desiredRoutes.
  induction (filter (λ r, foreignDefaultUp topo ourLUID r = true) rows)
    as [|r l IH]; [done|].
  simpl. by rewrite IH, rangeKeys_perm.
Qed.

(** C1. After a pass over a snapshot in which every add succeeded or
    reported that the route exists, [ourRoutes] holds exactly the keys
    (interface, host prefix of the address, next hop) for every up foreign
    default route of the snapshot and every resolved address of the
    monitor's family. *)
Theorem pass_tracks_exactly_the_bypass_routes
    {W : Type} `{!Winipcfg W} `{!GoRange}
    (topo : Topology) (family : AddressFamily) (ourLUID : LUID)
    (proxies : list ProxyRoutes.proxy) (restart : bool)
    (ourRoutes : gset luidRouteData) (rows : list MibIPforwardRow2)
    (w : W) err ourRoutes' w' evs :
  family = AF_INET ∨ family = AF_INET6 →
  GetIPForwardTable2 topo family = Ok rows →
  ProxyRoutes.doIt topo family ourLUID (ProxyRoutes.buildDestProxy family proxies)
    restart ourRoutes w = (err, ourRoutes', w', evs) →
  Forall (λ c, addOk c.2 = true) (addCalls evs) →
  err = None ∧
  ∀ k, k ∈ ourRoutes' ↔
       ∃ r addr, r ∈ rows ∧ upForeignDefault topo ourLUID r ∧
                 resolved proxies addr ∧ inFamily family addr ∧
                 k = {| luid := InterfaceLUID r;
                        destination := hostPrefix addr;
                        nextHop := NextHop r |}.
Proof.
  intros Hfam Htable Hrun Hok.
  apply (doIt_run _ _ _ _ _ _ rows) in Hrun as (-> & Hadds & -> & _); [|done].
  split; [done|]. intros k.
  rewrite (kept_all_ok _ Hok), elem_of_list_to_set, Hadds, elem_of_desiredRoutes.
  split.
  - intros (r & d & Hr & Hup & Hd & ->).
    apply elem_of_rangeKeys, buildDestProxy_dom in Hd as (addr & Hres & Hacc & ->).
    apply familyAccepts_inFamily in Hacc; [|done].
    exists r, addr. split; [done|]. split; [by apply foreignDefaultUp_spec|].
    split; [done|]. split; [done|].
    unfold ProxyRoutes.routeOf. by rewrite (hostPrefix_PrefixFrom family).
  - intros (r & addr & Hr & Hup & Hres & Hin & ->).
    exists r, (hostPrefix addr). split; [done|].
    split; [by apply foreignDefaultUp_spec|]. split; [|done].
    apply elem_of_rangeKeys, buildDestProxy_dom. exists addr.
    split; [done|]. split; [by apply familyAccepts_inFamily|].
    by rewrite (hostPrefix_PrefixFrom family).
Qed.

Lemma pass_tracks_exactly_the_bypass_routes_witness :
  let run :=
    @ProxyRoutes.doIt Sim.World Lan.os Sim.range (Lan.net 1500) AF_INET
      Lan.tunnel (ProxyRoutes.buildDestProxy AF_INET Lan.proxies)
      false ∅ Sim.world0 in
  (AF_INET = AF_INET ∨ AF_INET = AF_INET6) ∧
  GetIPForwardTable2 (Lan.net 1500) AF_INET = Ok [Lan.own; Lan.uplink] ∧
  Forall (λ c, addOk c.2 = true) (addCalls run.2) ∧
  run.1.1.1 = None ∧
  ∀ k, k ∈ run.1.1.2 ↔
       ∃ r addr, r ∈ [Lan.own; Lan.uplink] ∧
                 upForeignDefault (Lan.net 1500) Lan.tunnel r ∧
                 resolved Lan.proxies addr ∧ inFamily AF_INET addr ∧
                 k = {| luid := InterfaceLUID r;
                        destination := hostPrefix addr;
                        nextHop := NextHop r |}.
Proof.
  intros run.
  assert (Hfam : AF_INET = AF_INET ∨ AF_INET = AF_INET6) by (left; reflexivity).
  assert (Hok : Forall (λ c, addOk c.2 = true) (addCalls run.2))
    by (vm_compute; repeat constructor).
  split; [exact Hfam|]. split; [reflexivity|]. split; [exact Hok|].
  exact (pass_tracks_exactly_the_bypass_routes
           (Lan.net 1500) AF_INET Lan.tunnel Lan.proxies false ∅
           [Lan.own; Lan.uplink] Sim.world0 _ _ _ _
           Hfam eq_refl (eta4 run) Hok).
Defined.

(** ** Running the pass twice *)

Lemma addFailures_all_ok calls :
  Forall (λ c, addOk c.2 = true) calls → addFailures calls = [].
Proof.
  induction 1 as [|[k err] calls Hok _ IH]; [done|].
  change ((k, err) :: calls) with ([(k, err)] ++ calls).
  rewrite addFailures_app, IH. unfold addFailures. simpl in *.
  destruct err as [e|]; [|done]. simpl in Hok. by rewrite Hok.
Qed.

Lemma filter_none {A} (P : A → Prop) `{∀ x, Decision (P x)} (l : list A) :
  Forall (λ x, ¬ P x) l → filter P l = [].
Proof.
  induction 1 as [|x l Hx _ IH]; [done|].
  by rewrite filter_cons, decide_False, IH.
Qed.

(** The claim C2 as it is written fails: the second pass calls [AddRoute]
    again for the route it already tracks. *)
Lemma second_pass_repeats_the_adds :
  ¬ @secondPassSilent Sim.World Lan.os Sim.range
      (Lan.net 1500) AF_INET Lan.tunnel Lan.proxies Sim.world0.
Proof.
  unfold secondPassSilent. intros Hsilent.
  assert (Hcalls : mutationCalls
            (@ProxyRoutes.doIt Sim.World Lan.os Sim.range (Lan.net 1500)
               AF_INET Lan.tunnel
               (ProxyRoutes.buildDestProxy AF_INET Lan.proxies) true
               (@ProxyRoutes.doIt Sim.World Lan.os Sim.range (Lan.net 1500)
                  AF_INET Lan.tunnel
                  (ProxyRoutes.buildDestProxy AF_INET Lan.proxies) false ∅
                  Sim.world0).1.1.2
               (@ProxyRoutes.doIt Sim.World Lan.os Sim.range (Lan.net 1500)
                  AF_INET Lan.tunnel
                  (ProxyRoutes.buildDestProxy AF_INET Lan.proxies) false ∅
                  Sim.world0).1.2).2 = []).
  { apply Hsilent; [by vm_compute | vm_compute; repeat constructor]. }
  vm_compute in Hcalls. discriminate Hcalls.
Qed.

(** The calls of the second of two passes over the same snapshot and the
    same destinations, on any system: it calls [AddRoute] once for every
    wanted key, as the first did; when every add of both passes succeeds or
    reports that the route exists, it calls [DeleteRoute] for no route, logs
    nothing and leaves [ourRoutes] as the first pass set it. *)
Lemma second_pass_calls
    {W : Type} `{!Winipcfg W} `{!GoRange}
    (topo : Topology) (family : AddressFamily) (ourLUID : LUID)
    (destProxy : gmap Prefix (list ProxyRoutes.proxyRef)) (restart1 restart2 : bool)
    (ourRoutes : gset luidRouteData) (rows : list MibIPforwardRow2)
    (w : W) err1 ourRoutes1 w1 evs1 err2 ourRoutes2 w2 evs2 :
  GetIPForwardTable2 topo family = Ok rows →
  ProxyRoutes.doIt topo family ourLUID destProxy restart1 ourRoutes w
    = (err1, ourRoutes1, w1, evs1) →
  ProxyRoutes.doIt topo family ourLUID destProxy restart2 ourRoutes1 w1
    = (err2, ourRoutes2, w2, evs2) →
  err2 = None ∧
  (addCalls evs1).*1 ≡ₚ desiredRoutes topo ourLUID (elements (dom destProxy)) rows ∧
  (addCalls evs2).*1 ≡ₚ desiredRoutes topo ourLUID (elements (dom destProxy)) rows ∧
  (Forall (λ c, addOk c.2 = true) (addCalls evs1) →
   Forall (λ c, addOk c.2 = true) (addCalls evs2) →
   deleteCalls evs2 = [] ∧ logLines evs2 = [] ∧ ourRoutes2 = ourRoutes1).
Proof.
  intros Htable Hrun1 Hrun2.
  apply (doIt_run _ _ _ _ _ _ rows) in Hrun1 as (_ & Hadds1 & -> & _); [|done].
  apply (doIt_run _ _ _ _ _ _ rows) in Hrun2
    as (-> & Hadds2 & -> & Hdels & Hlog & _); [|done].
  split; [done|].
  split; [rewrite Hadds1; apply desiredRoutes_perm|].
  split; [rewrite Hadds2; apply desiredRoutes_perm|].
  intros Hok1 Hok2.
  assert (Hsame : kept (addCalls evs2) = kept (addCalls evs1)).
  { by rewrite (kept_all_ok _ Hok1), (kept_all_ok _ Hok2), Hadds1, Hadds2. }
  assert (Hnodel : deleteCalls evs2 = []).
  { apply fmap_nil_inv with (f := fst). rewrite Hdels, Hsame.
    apply filter_none, Forall_forall. intros k Hk Hnot. apply Hnot.
    by apply elem_of_rangeKeys in Hk. }
  split; [done|]. split; [|done].
  by rewrite Hlog, Hnodel, (addFailures_all_ok _ Hok2).
Qed.

(** ** Failures of single routes *)

(** C6. A pass that could read the forwarding table returns [nil] whatever
    the adds and deletes returned.  It tries every wanted key, whatever was
    tracked before; a key is tracked afterwards exactly when one of its adds
    succeeded or reported that the route exists; [DeleteRoute] is called for
    the routes that were tracked and are not tracked any more, and for no
    other, and they are dropped whatever the call returned; and the lines
    logged are those of the adds that failed otherwise than by "already
    exists" and of the deletes that failed otherwise than by "not found". *)
Theorem route_failures_do_not_fail_the_pass
    {W : Type} `{!Winipcfg W} `{!GoRange}
    (topo : Topology) (family : AddressFamily) (ourLUID : LUID)
    (destProxy : gmap Prefix (list ProxyRoutes.proxyRef)) (restart : bool)
    (ourRoutes : gset luidRouteData) (rows : list MibIPforwardRow2)
    (w : W) err ourRoutes' w' evs :
  GetIPForwardTable2 topo family = Ok rows →
  ProxyRoutes.doIt topo family ourLUID destProxy restart ourRoutes w
    = (err, ourRoutes', w', evs) →
  err = None ∧
  (addCalls evs).*1 ≡ₚ desiredRoutes topo ourLUID (elements (dom destProxy)) rows ∧
  (∀ k, k ∈ ourRoutes' ↔ ∃ e, (k, e) ∈ addCalls evs ∧ addOk e = true) ∧
  (∀ k e, (k, e) ∈ deleteCalls evs → k ∈ ourRoutes ∧ k ∉ ourRoutes') ∧
  (∀ k, k ∈ ourRoutes → k ∉ ourRoutes' → ∃ e, (k, e) ∈ deleteCalls evs) ∧
  logLines evs = addFailures (addCalls evs) ++ deleteFailures (deleteCalls evs).
Proof.
  intros Htable Hrun.
  apply (doIt_run _ _ _ _ _ _ rows) in Hrun
    as (-> & Hadds & -> & Hdels & Hlog & _); [|done].
  split; [done|]. split; [rewrite Hadds; apply desiredRoutes_perm|].
  split; [intros k; apply elem_of_kept|].
  split; [|split; [|done]].
  - intros k e Hin.
    assert (Hk : k ∈ (deleteCalls evs).*1).
    { apply list_elem_of_fmap. by exists (k, e). }
    rewrite Hdels in Hk. apply list_elem_of_filter in Hk as [Hnot Hk].
    by apply elem_of_rangeKeys in Hk.
  - intros k Hin Hnot.
    assert (Hk : k ∈ (deleteCalls evs).*1).
    { rewrite Hdels. apply list_elem_of_filter. split; [done|].
      by apply elem_of_rangeKeys. }
    apply list_elem_of_fmap in Hk as ([k' e] & -> & Hk). by exists e.
Qed.

Lemma route_failures_do_not_fail_the_pass_witness :
  let run :=
    @ProxyRoutes.doIt Sim.World Lan.os Sim.range (Lan.net 1500) AF_INET
      Lan.tunnel (ProxyRoutes.buildDestProxy AF_INET Lan.proxies)
      true {[Faulty.stale]} Faulty.world in
  GetIPForwardTable2 (Lan.net 1500) AF_INET = Ok [Lan.own; Lan.uplink] ∧
  run.1.1.1 = None ∧
  (addCalls run.2).*1 ≡ₚ
    desiredRoutes (Lan.net 1500) Lan.tunnel
      (elements (dom (ProxyRoutes.buildDestProxy AF_INET Lan.proxies)))
      [Lan.own; Lan.uplink] ∧
  (∀ k, k ∈ run.1.1.2 ↔ ∃ e, (k, e) ∈ addCalls run.2 ∧ addOk e = true) ∧
  (∀ k e, (k, e) ∈ deleteCalls run.2 → k ∈ ({[Faulty.stale]} : gset _) ∧ k ∉ run.1.1.2) ∧
  (∀ k, k ∈ ({[Faulty.stale]} : gset _) → k ∉ run.1.1.2 →
        ∃ e, (k, e) ∈ deleteCalls run.2) ∧
  logLines run.2 = addFailures (addCalls run.2) ++ deleteFailures (deleteCalls run.2).
Proof.
  intros run. split; [reflexivity|].
  exact (route_failures_do_not_fail_the_pass
           (Lan.net 1500) AF_INET Lan.tunnel
           (ProxyRoutes.buildDestProxy AF_INET Lan.proxies) true
           {[Faulty.stale]} [Lan.own; Lan.uplink] Faulty.world _ _ _ _
           eq_refl (eta4 run)).
Defined.

(** On that run both calls are refused: nothing is tracked afterwards and
    both refusals are logged. *)
Example refused_routes_run :
  let run :=
    @ProxyRoutes.doIt Sim.World Lan.os Sim.range (Lan.net 1500) AF_INET
      Lan.tunnel (ProxyRoutes.buildDestProxy AF_INET Lan.proxies)
      true {[Faulty.stale]} Faulty.world in
  run.1.1.1 = None ∧ elements run.1.1.2 = [] ∧
  addCalls run.2 =
    [({| luid := 5; destination := hostPrefix (Addr4 3405803785);
         nextHop := Addr4 3232235777 |}, Some Faulty.denied)] ∧
  deleteCalls run.2 = [(Faulty.stale, Some Faulty.denied)] ∧
  length (logLines run.2) = 2%nat.
Proof. vm_compute. repeat split. Qed.

(** ** The destinations of the tracked routes *)

Section TrackedFacts.
Context {W : Type} `{!Winipcfg W} `{!GoRange}.

(** A pass only tracks routes it had before or routes to a key of
    [destProxy]. *)
Lemma doIt_destinations topo family ourLUID dp restart ours (w : W)
    err ours' w' evs k :
  ProxyRoutes.doIt topo family ourLUID dp restart ours w = (err, ours', w', evs) →
  k ∈ ours' → k ∈ ours ∨ destination k ∈ dom dp.
Proof.
  intros Hrun Hk.
  destruct (GetIPForwardTable2 topo family) as [rows|e] eqn:Htable.
  - apply (doIt_run _ _ _ _ _ _ rows) in Hrun as (_ & Hadds & -> & _); [|done].
    apply elem_of_kept in Hk as (e & Hin & _). right.
    assert (Hd : k ∈ (addCalls evs).*1).
    { apply list_elem_of_fmap. by exists (k, e). }
    rewrite Hadds in Hd.
    apply elem_of_desiredRoutes in Hd as (r & d & _ & _ & Hd & ->).
    by apply elem_of_rangeKeys in Hd.
  - rewrite (doIt_fail _ _ _ _ _ _ e) in Hrun by done.
    injection Hrun as <- <- <- <-. by left.
Qed.

Lemma tracked_destinations family ourLUID proxies ours :
  tracked family ourLUID proxies ours →
  ∀ k, k ∈ ours → destination k ∈ dom (ProxyRoutes.buildDestProxy family proxies).
Proof.
  induction 1 as [ | topo restart ours w err ours' w' evs _ IH Hrun
                   | topo nt route ours w ours' w' evs _ IH Hrun
                   | topo nt ours w ours' w' evs _ IH Hrun
                   | ours w ours' w' evs _ IH Hrun ]; intros k Hk.
  - by apply not_elem_of_empty in Hk.
  - eapply doIt_destinations in Hrun as [?|?]; eauto.
  - unfold ProxyRoutes.onRouteChange in Hrun.
    destruct route as [r|]; [destruct (PrefixLength r =? 0)|].
    + apply bind_run in Hrun as ([err ours1] & w1 & e1 & e2 & Hpass & Hret & ->).
      apply ret_run in Hret as (-> & -> & ->).
      eapply doIt_destinations in Hpass as [?|?]; eauto.
    + apply ret_run in Hrun as (-> & -> & ->). auto.
    + apply ret_run in Hrun as (-> & -> & ->). auto.
  - unfold ProxyRoutes.onInterfaceChange in Hrun. case_bool_decide.
    + apply bind_run in Hrun as ([err ours1] & w1 & e1 & e2 & Hpass & Hret & ->).
      apply ret_run in Hret as (-> & -> & ->).
      eapply doIt_destinations in Hpass as [?|?]; eauto.
    + apply ret_run in Hrun as (-> & -> & ->). auto.
  - apply cleanIt_run in Hrun as (-> & _). by apply not_elem_of_empty in Hk.
Qed.

End TrackedFacts.

(** C8. Whatever passes and teardowns have run, every tracked route leads
    to the host prefix (full length, zone dropped) of an address that one
    of the proxies resolved to and that is of the monitor's family. *)
Theorem tracked_routes_lead_to_proxy_addresses
    {W : Type} `{!Winipcfg W} `{!GoRange}
    (family : AddressFamily) (ourLUID : LUID)
    (proxies : list ProxyRoutes.proxy) (ourRoutes : gset luidRouteData) :
  family = AF_INET ∨ family = AF_INET6 →
  tracked family ourLUID proxies ourRoutes →
  ∀ k, k ∈ ourRoutes →
       ∃ addr, resolved proxies addr ∧ inFamily family addr ∧
               destination k = hostPrefix addr ∧
               Bits (destination k) = BitLen addr.
Proof.
  intros Hfam Htracked k Hk.
  apply (tracked_destinations _ _ _ _ Htracked), buildDestProxy_dom in Hk
    as (addr & Hres & Hacc & Hdst).
  apply familyAccepts_inFamily in Hacc; [|done].
  rewrite (hostPrefix_PrefixFrom family) in Hdst by done.
  exists addr. by rewrite Hdst.
Qed.

Lemma tracked_routes_lead_to_proxy_addresses_witness :
  let run :=
    @ProxyRoutes.doIt Sim.World Lan.os Sim.range (Lan.net 1500) AF_INET6
      Lan.tunnel (ProxyRoutes.buildDestProxy AF_INET6 Lan.proxies)
      false ∅ Sim.world0 in
  (AF_INET6 = AF_INET ∨ AF_INET6 = AF_INET6) ∧
  @tracked Sim.World Lan.os Sim.range AF_INET6 Lan.tunnel
    Lan.proxies run.1.1.2 ∧
  ∀ k, k ∈ run.1.1.2 →
       ∃ addr, resolved Lan.proxies addr ∧ inFamily AF_INET6 addr ∧
               destination k = hostPrefix addr ∧
               Bits (destination k) = BitLen addr.
Proof.
  intros run.
  assert (Hfam : AF_INET6 = AF_INET ∨ AF_INET6 = AF_INET6) by (right; reflexivity).
  assert (Htracked : @tracked Sim.World Lan.os Sim.range AF_INET6
                       Lan.tunnel Lan.proxies run.1.1.2).
  { eapply tracked_doIt; [apply tracked_init | apply (eta4 run)]. }
  split; [exact Hfam|]. split; [exact Htracked|].
  exact (tracked_routes_lead_to_proxy_addresses AF_INET6 Lan.tunnel
           Lan.proxies run.1.1.2 Hfam Htracked).
Defined.

(** ** Registration of the callbacks and its failure *)

Section RegistrationFacts.
Context {W : Type} `{!Winipcfg W} `{!GoRange}.

Lemma registerCalls_app e1 e2 :
  registerCalls (e1 ++ e2) = registerCalls e1 ++ registerCalls e2.
Proof. apply filter_app. Qed.

Lemma registerCalls_route evs :
  Forall (λ ev, isRouteEvent ev = true) evs → registerCalls evs = [].
Proof.
  intros Hall. apply filter_none. eapply Forall_impl; [exact Hall|].
  intros ev Hev. by destruct ev.
Qed.

Lemma elem_of_registerCalls ev evs :
  ev ∈ registerCalls evs ↔ isRegistration ev = true ∧ ev ∈ evs.
Proof. unfold registerCalls. by rewrite list_elem_of_filter. Qed.

Lemma elem_of_deleteCalls k e evs :
  (k, e) ∈ deleteCalls evs ↔ EvDeleteRoute k e ∈ evs.
Proof.
  unfold deleteCalls. rewrite list_elem_of_omap. split.
  - intros (ev & Hin & Hev). destruct ev; simplify_eq. done.
  - intros Hin. by exists (EvDeleteRoute k e).
Qed.

(** [cbr.Unregister()] for a callback registered with [cleanIt]: the
    registration is released, and whether or not the cleanup runs, what
    stays tracked afterwards is what has not been asked to be deleted. *)
Lemma Unregister_cleanIt_run h ours (w : W) ours' w' evs :
  Unregister h (Some ProxyRoutes.cleanIt) ours w = (ours', w', evs) →
  (∃ uerr, EvUnregister h uerr ∈ evs) ∧
  registerCalls evs = [] ∧
  addCalls evs = [] ∧
  (∀ k, k ∈ ours → k ∈ ours' ∨ k ∈ (deleteCalls evs).*1) ∧
  (∀ k, k ∈ ours' → k ∈ ours).
Proof.
  unfold Unregister. intros Hrun.
  destruct cleanupPolicy.
  - apply bind_run in Hrun as (uerr & w1 & e1 & e2 & Hos & Hret & ->).
    apply ret_run in Hret as (-> & -> & ->).
    destruct (osUnregister h w) as [uerr' w1'] eqn:Hun.
    injection Hos as <- <- <-. split; [exists uerr'; by left|].
    split; [done|]. split; [done|]. split; [|done].
    intros k Hk. by left.
  - apply bind_run in Hrun as (ours1 & w1 & e1 & e2 & Hclean & Hk & ->).
    apply bind_run in Hk as (uerr & w2 & e3 & e4 & Hos & Hret & ->).
    apply ret_run in Hret as (-> & -> & ->).
    destruct (osUnregister h w1) as [uerr' w1'] eqn:Hun.
    injection Hos as <- <- <-.
    apply cleanIt_run in Hclean as (-> & Ha & Hd & _ & Hr).
    split; [exists uerr'; apply elem_of_app; right; by left|].
    rewrite registerCalls_app, addCalls_app, deleteCalls_app, Ha,
      (registerCalls_route _ Hr), fmap_app, Hd.
    split; [done|]. split; [done|]. split.
    + intros k Hk. right. apply elem_of_app. left.
      by apply elem_of_rangeKeys.
    + intros k Hk. by apply not_elem_of_empty in Hk.
  - apply bind_run in Hrun as (uerr & w1 & e1 & e2 & Hos & Hclean & ->).
    destruct (osUnregister h w) as [uerr' w1'] eqn:Hun.
    injection Hos as <- <- <-.
    apply cleanIt_run in Hclean as (-> & Ha & Hd & _ & Hr).
    split; [exists uerr'; by left|].
    rewrite registerCalls_app, addCalls_app, deleteCalls_app, Ha,
      (registerCalls_route _ Hr), fmap_app, Hd.
    split; [done|]. split; [done|]. split.
    + intros k Hk. right. apply elem_of_app. right.
      by apply elem_of_rangeKeys.
    + intros k Hk. by apply not_elem_of_empty in Hk.
Qed.

End RegistrationFacts.

(** The calls of a start whose first registration succeeds and whose
    second fails, on any system: the error of the second is returned with
    [ourRoutes] empty, after a rollback in which the first callback is
    unregistered and [DeleteRoute] is called for every route the first
    pass left in [ourRoutes]; the rollback adds no route and registers
    nothing. *)
Lemma rolled_back_calls
    {W : Type} `{!Winipcfg W} `{!GoRange}
    (topo : Topology) (family : AddressFamily) (ourLUID : LUID)
    (proxies : list ProxyRoutes.proxy) (w : W) res ourRoutes w' evs cbr e :
  ProxyRoutes.monitorProxyRoutes topo family ourLUID proxies w
    = (res, ourRoutes, w', evs) →
  EvRegisterRouteChange (Ok cbr) ∈ evs →
  EvRegisterInterfaceChange (Err e) ∈ evs →
  res = Err e ∧ ourRoutes = ∅ ∧
  ∃ installed w1 pass rollback,
    ProxyRoutes.doIt topo family ourLUID
      (ProxyRoutes.buildDestProxy family proxies) false ∅ w
      = (None, installed, w1, pass) ∧
    evs = pass ++ [EvRegisterRouteChange (Ok cbr);
                   EvRegisterInterfaceChange (Err e)] ++ rollback ∧
    (∃ uerr, EvUnregister cbr uerr ∈ rollback) ∧
    (∀ k, k ∈ installed → ∃ derr, EvDeleteRoute k derr ∈ rollback) ∧
    addCalls rollback = [] ∧
    registerCalls rollback = [].
Proof.
  intros Hrun Hfirst Hsecond. unfold ProxyRoutes.monitorProxyRoutes in Hrun.
  assert (Hreg1 : EvRegisterRouteChange (Ok cbr) ∈ registerCalls evs)
    by by apply elem_of_registerCalls.
  assert (Hreg2 : EvRegisterInterfaceChange (Err e) ∈ registerCalls evs)
    by by apply elem_of_registerCalls.
  clear Hfirst Hsecond.
  destruct (GetIPForwardTable2 topo family) as [rows|e0] eqn:Htable.
  2:{ rewrite bind_run in Hrun. destruct Hrun as (a & w1 & e1 & e2 & Hpass & Hk & ->).
      rewrite (doIt_fail _ _ _ _ _ _ e0) in Hpass by done.
      injection Hpass as <- <- <-. apply ret_run in Hk as (_ & _ & ->).
      by apply elem_of_nil in Hreg1. }
  apply bind_run in Hrun as ([err ours1] & w1 & pass & e2 & Hpass & Hk & ->).
  pose proof (doIt_run _ _ _ _ _ _ rows _ _ _ _ _ Htable Hpass)
    as (-> & _ & _ & _ & _ & Hroute).
  pose proof (registerCalls_route _ Hroute) as Hnone.
  apply bind_run in Hk as (r1 & w2 & e3 & e4 & Hr1 & Hk & ->).
  unfold RegisterRouteChangeCallback in Hr1.
  destruct (osRegisterRouteChangeCallback w1) as [r1' w2'].
  injection Hr1 as <- <- <-.
  destruct r1' as [cbr'|e1].
  - apply bind_run in Hk as (r2 & w3 & e5 & e6 & Hr2 & Hk & ->).
    unfold RegisterInterfaceChangeCallback in Hr2.
    destruct (osRegisterInterfaceChangeCallback w2') as [r2' w3'].
    injection Hr2 as <- <- <-.
    destruct r2' as [cbi|e2].
    + apply ret_run in Hk as (_ & _ & ->).
      rewrite !registerCalls_app, Hnone in Hreg2. simpl in Hreg2.
      unfold registerCalls in Hreg2. simpl in Hreg2.
      set_solver.
    + apply bind_run in Hk as (ours2 & w4 & e7 & e8 & Hun & Hk & ->).
      apply bind_run in Hk as (ours3 & w5 & e9 & e10 & Hclean & Hret & ->).
      apply ret_run in Hret as ([= -> ->] & -> & ->).
      apply Unregister_cleanIt_run in Hun as (Hu & Hru & Hau & Hdu & Hsub).
      apply cleanIt_run in Hclean as (-> & Hac & Hdc & _ & Hrc).
      pose proof (registerCalls_route _ Hrc) as Hnone'.
      rewrite !registerCalls_app, Hnone, Hru, Hnone', !app_nil_r in Hreg1, Hreg2.
      unfold registerCalls in Hreg1, Hreg2. simpl in Hreg1, Hreg2.
      assert (cbr' = cbr) as -> by set_solver.
      assert (e2 = e) as -> by set_solver.
      split; [done|]. split; [done|].
      exists ours1, w1, pass, (e7 ++ e9). rewrite app_nil_r.
      split; [done|]. split; [done|].
      split; [destruct Hu as [uerr Hu]; exists uerr; apply elem_of_app; by left|].
      split; [|split].
      * intros k Hk.
        assert (Hdel : k ∈ (deleteCalls (e7 ++ e9)).*1).
        { rewrite deleteCalls_app, fmap_app, Hdc. apply elem_of_app.
          destruct (Hdu k Hk) as [Hin|Hin]; [right|by left].
          by apply elem_of_rangeKeys. }
        apply list_elem_of_fmap in Hdel as ([k' derr] & -> & Hdel).
        exists derr. by apply elem_of_deleteCalls.
      * by rewrite addCalls_app, Hau, Hac.
      * by rewrite registerCalls_app, Hru, Hnone'.
  - apply bind_run in Hk as (ours2 & w3 & e5 & e6 & Hclean & Hret & ->).
    apply ret_run in Hret as (_ & _ & ->).
    apply cleanIt_run in Hclean as (_ & _ & _ & _ & Hrc).
    rewrite !registerCalls_app, Hnone, (registerCalls_route _ Hrc) in Hreg1.
    unfold registerCalls in Hreg1. simpl in Hreg1. set_solver.
Qed.


(** On that run the route installed by the first pass is deleted again,
    and no registration and no route is left in the simulated system. *)
Example rolled_back_run :
  let run :=
    @ProxyRoutes.monitorProxyRoutes Sim.World Lan.os Sim.range
      (Lan.net 1500) AF_INET Lan.tunnel Lan.proxies
      SecondFails.world in
  (addCalls run.2).*1 = (deleteCalls run.2).*1 ∧
  length (addCalls run.2) = 1%nat ∧
  Sim.registered run.1.2 = [] ∧
  elements (Sim.routes run.1.2) = [].
Proof. vm_compute. repeat split. Qed.

(** ** Selection of the default route *)

Section SelectionFacts.
Context {W : Type}.
Import MTUMonitor.

Lemma iterateRows_consider topo family ourLUID rows : ∀ b (w : W),
  iterateRows topo ourLUID (consider topo family) rows b w =
  (None, foldl pick b (candidates topo family ourLUID rows), w, []).
Proof.
  induction rows as [|r rows IH]; intros b w; [done|].
  cbn [iterateRows]. unfold candidates. cbn [omap list_omap].
  fold (candidates topo family ourLUID rows).
  destruct (foreignDefaultUp topo ourLUID r); [|apply IH].
  unfold bind, consider.
  destruct (IPInterface topo (InterfaceLUID r) family) as [iface|e]; simpl.
  - unfold pick, combinedMetric32. simpl.
    destruct (wrap32 (Metric r + IfMetric iface) <? lowestMetric b);
      simpl; by rewrite IH.
  - by rewrite IH.
Qed.

(** [findDefaultLUID] over a readable table: no call reaches the system,
    and the two pointers receive the selection. *)
Lemma findDefaultLUID_run topo family ourLUID lastLUID lastIndex rows (w : W) :
  GetIPForwardTable2 topo family = Ok rows →
  findDefaultLUID topo family ourLUID lastLUID lastIndex w =
  (None,
   (bestLUID (foldl pick best0 (candidates topo family ourLUID rows)),
    index (foldl pick best0 (candidates topo family ourLUID rows))),
   w, []).
Proof.
  intros Htable. unfold findDefaultLUID, iterateForeignDefaultRoutes, bind.
  rewrite Htable, iterateRows_consider.
  set (b := foldl pick best0 _).
  destruct (Z.eqb_spec (bestLUID b) lastLUID) as [<-|Hl]; simpl; [|done].
  destruct (Z.eqb_spec (index b) lastIndex) as [<-|Hi]; simpl; done.
Qed.

Lemma findDefaultLUID_fail topo family ourLUID lastLUID lastIndex e (w : W) :
  GetIPForwardTable2 topo family = Err e →
  findDefaultLUID topo family ourLUID lastLUID lastIndex w =
  (Some e, (lastLUID, lastIndex), w, []).
Proof.
  intros Htable. unfold findDefaultLUID, iterateForeignDefaultRoutes, bind.
  by rewrite Htable.
Qed.

End SelectionFacts.

Lemma combinedMetric32_bound c : 0 ≤ combinedMetric32 c ≤ uint32_max.
Proof.
  unfold combinedMetric32, wrap32, uint32_max.
  pose proof (Z.mod_pos_bound (Metric c.1 + IfMetric c.2) 4294967296). lia.
Qed.

(** The fold of [pick]: either no candidate is below the bound it starts
    from, or the result is the first candidate of least metric. *)
Lemma foldl_pick cands : ∀ b,
  (Forall (λ c, MTUMonitor.lowestMetric b ≤ combinedMetric32 c) cands ∧
   foldl pick b cands = b) ∨
  (∃ c, firstMinimum combinedMetric32 cands c ∧
        combinedMetric32 c < MTUMonitor.lowestMetric b ∧
        foldl pick b cands =
          {| MTUMonitor.lowestMetric := combinedMetric32 c;
             MTUMonitor.index := InterfaceIndex c.1;
             MTUMonitor.bestLUID := InterfaceLUID c.1 |}).
Proof.
  induction cands as [|c0 cands IH]; intros b; simpl.
  - left. by split.
  - unfold pick at 2 4. destruct (Z.ltb_spec (combinedMetric32 c0) (MTUMonitor.lowestMetric b)) as [Hlt|Hge].
    + right.
      destruct (IH {| MTUMonitor.lowestMetric := combinedMetric32 c0;
                      MTUMonitor.index := InterfaceIndex c0.1;
                      MTUMonitor.bestLUID := InterfaceLUID c0.1 |})
        as [[Hall ->]|(c & (before & after & -> & Hb & Ha) & Hc & ->)]; simpl in *.
      * exists c0. split; [|done]. exists [], cands. split; [done|]. split.
        -- intros x Hx. by apply elem_of_nil in Hx.
        -- intros x Hx. by apply (proj1 (Forall_forall _ _) Hall).
      * exists c. split; [|split; [lia|done]].
        exists (c0 :: before), after. split; [done|]. split; [|done].
        intros x [->|Hx]%elem_of_cons; [done|by apply Hb].
    + destruct (IH b) as [[Hall ->]|(c & (before & after & -> & Hb & Ha) & Hc & ->)].
      * left. split; [|done]. by constructor.
      * right. exists c. split; [|done].
        exists (c0 :: before), after. split; [done|]. split; [|done].
        intros x [->|Hx]%elem_of_cons; [lia|by apply Hb].
Qed.

(** A default route whose combined metric is [2^32 - 1] is a candidate,
    the only one here, and the selection is none: not the first candidate
    of least combined metric. *)
Lemma saturated_metric_is_never_selected :
  ¬ @selectorReturnsFirstMinimum Sim.World
      Saturated.net AF_INET Lan.tunnel 0 uint32_max Sim.world0.
Proof.
  intros Hclaim. destruct (Hclaim [Saturated.route] eq_refl) as [_ Hsel].
  vm_compute in Hsel.
  destruct Hsel as [[Hnil _]|(c & (before & after & Hsplit & _) & Hsel)].
  - discriminate Hnil.
  - destruct before as [|c1 before]; simpl in Hsplit.
    + injection Hsplit as <- _. simpl in Hsel. discriminate Hsel.
    + injection Hsplit as _ Hrest. by destruct before.
Qed.

(** What the selector computes.  Over a readable table [findDefaultLUID]
    returns [nil] and leaves in the two pointers the interface and index of the first
    candidate, in table order, whose combined metric is the least, the
    combined metric being the sum of the two metrics modulo [2^32] and that
    least value being below [2^32 - 1]; when every candidate has the
    combined metric [2^32 - 1], or there is no candidate, it leaves
    [(0, 0)].  The candidates are the rows of prefix length 0 whose
    interface is not the tunnel's, is up, and has a readable per-family
    row. *)
Theorem selector_returns_first_minimum_mod_2_32
    {W : Type}
    (topo : Topology) (family : AddressFamily) (ourLUID : LUID)
    (lastLUID : LUID) (lastIndex : Z) (rows : list MibIPforwardRow2)
    (w : W) err sel w' evs :
  GetIPForwardTable2 topo family = Ok rows →
  MTUMonitor.findDefaultLUID topo family ourLUID lastLUID lastIndex w
    = (err, sel, w', evs) →
  err = None ∧ w' = w ∧ evs = [] ∧
  ((Forall (λ c, combinedMetric32 c = uint32_max)
           (candidates topo family ourLUID rows) ∧ sel = (0, 0)) ∨
   (∃ c, firstMinimum combinedMetric32 (candidates topo family ourLUID rows) c ∧
         combinedMetric32 c < uint32_max ∧
         sel = (InterfaceLUID c.1, InterfaceIndex c.1))) ∧
  (∀ r iface, (r, iface) ∈ candidates topo family ourLUID rows ↔
              r ∈ rows ∧ upForeignDefault topo ourLUID r ∧
              IPInterface topo (InterfaceLUID r) family = Ok iface).
Proof.
  intros Htable Hrun.
  rewrite (findDefaultLUID_run _ _ _ _ _ rows) in Hrun by done.
  injection Hrun as <- <- <- <-.
  split; [done|]. split; [done|]. split; [done|]. split.
  - destruct (foldl_pick (candidates topo family ourLUID rows) MTUMonitor.best0)
      as [[Hall ->]|(c & Hmin & Hc & ->)].
    + left. split; [|done]. eapply Forall_impl; [exact Hall|].
      intros c Hc. simpl in Hc. pose proof (combinedMetric32_bound c). lia.
    + right. by exists c.
  - intros r iface. unfold candidates. rewrite list_elem_of_omap. split.
    + intros (r' & Hr & Hsome).
      destruct (foreignDefaultUp topo ourLUID r') eqn:Hup; [|done].
      destruct (IPInterface topo (InterfaceLUID r') family) eqn:Hif; [|done].
      injection Hsome as -> ->. by apply foreignDefaultUp_spec in Hup.
    + intros (Hr & Hup & Hif). exists r. split; [done|].
      apply foreignDefaultUp_spec in Hup. by rewrite Hup, Hif.
Qed.

Lemma selector_returns_first_minimum_mod_2_32_witness :
  let run :=
    @MTUMonitor.findDefaultLUID Sim.World Uplinks.net AF_INET
      Lan.tunnel 0 uint32_max Sim.world0 in
  let rows := [Uplinks.A; Uplinks.D; Uplinks.B; Uplinks.C] in
  GetIPForwardTable2 Uplinks.net AF_INET = Ok rows ∧
  run.1.1.1 = None ∧ run.1.2 = Sim.world0 ∧ run.2 = [] ∧
  ((Forall (λ c, combinedMetric32 c = uint32_max)
           (candidates Uplinks.net AF_INET Lan.tunnel rows) ∧
    run.1.1.2 = (0, 0)) ∨
   (∃ c, firstMinimum combinedMetric32
           (candidates Uplinks.net AF_INET Lan.tunnel rows) c ∧
         combinedMetric32 c < uint32_max ∧
         run.1.1.2 = (InterfaceLUID c.1, InterfaceIndex c.1))) ∧
  (∀ r iface, (r, iface) ∈ candidates Uplinks.net AF_INET Lan.tunnel rows ↔
              r ∈ rows ∧ upForeignDefault Uplinks.net Lan.tunnel r ∧
              IPInterface Uplinks.net (InterfaceLUID r) AF_INET = Ok iface).
Proof.
  intros run rows. split; [reflexivity|].
  exact (selector_returns_first_minimum_mod_2_32
           Uplinks.net AF_INET Lan.tunnel 0 uint32_max rows Sim.world0
           _ _ _ _ eq_refl (eta4 run)).
Defined.

(** C7 on the code.  The selector looks for the least combined metric
    and misses it in two places.  It starts from [lowestMetric = 2^32 - 1]
    and replaces it only by a smaller value: the only candidate of
    [Saturated.net], of combined metric [2^32 - 1], is not selected and the
    selection is none.  And it adds the two metrics on [uint32]: of the two
    candidates of [Wrapping.net], of combined metrics [2^32 + 1] and 12, it
    selects the first, whose sum wraps to 1. *)
Theorem selector_misses_the_minimum :
  let lone :=
    @MTUMonitor.findDefaultLUID Sim.World Saturated.net AF_INET Lan.tunnel
      0 uint32_max Sim.world0 in
  let two :=
    @MTUMonitor.findDefaultLUID Sim.World Wrapping.net AF_INET Lan.tunnel
      0 uint32_max Sim.world0 in
  candidates Saturated.net AF_INET Lan.tunnel [Saturated.route]
    = [(Saturated.route, {| IfMetric := 0; NLMTU := 1500 |})] ∧
  lone.1.1 = (None, (0, 0)) ∧
  combinedMetric <$>
    candidates Wrapping.net AF_INET Lan.tunnel [Wrapping.far; Wrapping.near]
    = [4294967297; 12] ∧
  two.1.1 = (None, (InterfaceLUID Wrapping.far, InterfaceIndex Wrapping.far)).
Proof. vm_compute. repeat split. Qed.

(** Of uplinks with combined metrics 30, 10 and 20 the second is selected,
    and an uplink that is down is not, however low its metric. *)
Example best_of_three_uplinks :
  (@MTUMonitor.findDefaultLUID Sim.World Uplinks.net AF_INET
     Lan.tunnel 0 uint32_max Sim.world0).1.1
  = (None, (InterfaceLUID Uplinks.B, InterfaceIndex Uplinks.B)).
Proof. reflexivity. Qed.

(** ** The MTU pass *)

Section MTUFacts.
Context {W : Type} `{!Winipcfg W}.
Import MTUMonitor.

(** What a pass does once the forwarding table has been read. *)
Lemma mtu_doIt_run topo family ourLUID st rows (w : W) err st' w' evs :
  GetIPForwardTable2 topo family = Ok rows →
  doIt topo family ourLUID st w = (err, st', w', evs) →
  lastLUID st' = bestLUID (foldl pick best0 (candidates topo family ourLUID rows)) ∧
  lastIndex st' = index (foldl pick best0 (candidates topo family ourLUID rows)) ∧
  match physicalMTU topo (lastLUID st') with
  | Err e => err = Some e ∧ evs = [] ∧ lastMTU st' = lastMTU st
  | Ok mtu =>
      if (0 <? mtu) && negb (lastMTU st =? mtu) then
        match IPInterface topo ourLUID family with
        | Err e => err = Some e ∧ evs = [] ∧ lastMTU st' = lastMTU st
        | Ok iface =>
            evs = [EvSetIPInterface ourLUID family
                     (setNLMTU iface (tunnelMTU family mtu)) err] ∧
            lastMTU st' = match err with None => mtu | Some _ => lastMTU st end
        end
      else err = None ∧ evs = [] ∧ lastMTU st' = lastMTU st
  end.
Proof.
  intros Htable Hrun. unfold doIt in Hrun.
  apply bind_run in Hrun as ([err1 [l i]] & w1 & e1 & e2 & Hfind & Hk & ->).
  rewrite (findDefaultLUID_run _ _ _ _ _ rows) in Hfind by done.
  injection Hfind as <- <- <- <- <-.
  set (b := foldl pick best0 _) in *.
  destruct (physicalMTU topo (bestLUID b)) as [mtu|e] eqn:Hphys.
  2:{ apply ret_run in Hk as ([= -> ->] & -> & ->). simpl. by rewrite Hphys. }
  destruct ((0 <? mtu) && negb (lastMTU st =? mtu)) eqn:Hcond.
  2:{ apply ret_run in Hk as ([= -> ->] & -> & ->). simpl.
      by rewrite Hphys, Hcond. }
  destruct (IPInterface topo ourLUID family) as [iface|e] eqn:Hown.
  2:{ apply ret_run in Hk as ([= -> ->] & -> & ->). simpl.
      by rewrite Hphys, Hcond. }
  apply bind_run in Hk as (serr & w2 & e3 & e4 & Hset & Hk & ->).
  unfold SetIPInterface in Hset.
  destruct (osSetIPInterface _ _ _ _) as [serr' w2'].
  injection Hset as <- <- <-.
  destruct serr' as [e|];
    apply ret_run in Hk as ([= -> ->] & -> & ->); simpl;
    by rewrite Hphys, Hcond.
Qed.

End MTUFacts.

(** The claim C3 as it is written fails: with a physical MTU of 500 and
    then of 600 the tunnel MTU is 576 both times, and it is written both
    times. *)
Lemma same_tunnel_mtu_is_written_again :
  let first :=
    @MTUMonitor.doIt Sim.World Lan.os (Lan.net 500) AF_INET
      Lan.tunnel MTUMonitor.state0 Sim.world0 in
  ¬ @writtenIffResultDiffers Sim.World Lan.os (Lan.net 600) AF_INET
      Lan.tunnel first.1.1.2 first.2 first.1.2.
Proof.
  intros first Hclaim.
  destruct (Hclaim {| OperStatus := IfOperStatusUp; MTU := 600 |})
    as [Hwritten _]; [by vm_compute | reflexivity | reflexivity |].
  apply Hwritten; [by vm_compute | by vm_compute].
Qed.

(** The writes of a pass that selects a default route whose interface has
    a positive physical MTU. *)
Lemma mtu_pass_write
    {W : Type} `{!Winipcfg W}
    (topo : Topology) (family : AddressFamily) (ourLUID : LUID)
    (st : MTUMonitor.state) (rows : list MibIPforwardRow2) (ifrow : MibIfRow2)
    (w : W) err st' w' evs :
  GetIPForwardTable2 topo family = Ok rows →
  MTUMonitor.doIt topo family ourLUID st w = (err, st', w', evs) →
  MTUMonitor.lastLUID st' ≠ 0 →
  Interface topo (MTUMonitor.lastLUID st') = Ok ifrow →
  0 < MTU ifrow →
  (setCalls evs ≠ [] ↔
   MTU ifrow ≠ MTUMonitor.lastMTU st ∧
   ∃ row, IPInterface topo ourLUID family = Ok row) ∧
  (setCalls evs = [] ∨
   setCalls evs = [(MTUMonitor.tunnelMTU family (MTU ifrow), err)]) ∧
  (err = None → MTUMonitor.lastMTU st' = MTU ifrow) ∧
  (err ≠ None → MTUMonitor.lastMTU st' = MTUMonitor.lastMTU st).
Proof.
  intros Htable Hrun Hsel Hif Hpos.
  apply (mtu_doIt_run _ _ _ _ rows) in Hrun as (_ & _ & Hrun); [|done].
  unfold MTUMonitor.physicalMTU in Hrun.
  destruct (Z.eqb_spec (MTUMonitor.lastLUID st') 0) as [?|_]; [done|].
  rewrite Hif in Hrun.
  assert (Hp : (0 <? MTU ifrow) = true) by by apply Z.ltb_lt.
  rewrite Hp in Hrun. cbv beta iota in Hrun. rewrite Hp in Hrun.
  destruct (Z.eqb_spec (MTUMonitor.lastMTU st) (MTU ifrow)) as [Heq|Hne];
    simpl in Hrun.
  - destruct Hrun as (-> & -> & Hlast). rewrite Hlast.
    split; [|split; [by left|split; [done|done]]].
    split; [done|]. intros [Hne _]. by rewrite Heq in Hne.
  - destruct (IPInterface topo ourLUID family) as [row|e].
    + destruct Hrun as (-> & Hlast). simpl.
      split; [|split; [by right|split]].
      * split; [intros _|done]. split; [by intros Heq|by exists row].
      * intros ->. done.
      * intros Herr. destruct err; done.
    + destruct Hrun as (-> & -> & Hlast).
      split; [|split; [by left|split; [done|done]]].
      split; [done|]. by intros [_ [row [=]]].
Qed.

(** ** The value written to the tunnel interface *)

(** From a physical MTU of 80 up the value written is the physical MTU
    less 80, floored to the minimum of the family. *)
Lemma tunnelMTU_floor family p :
  80 ≤ p ≤ uint32_max →
  MTUMonitor.tunnelMTU family p = Z.max (p - 80) (MTUMonitor.minMTU family).
Proof.
  unfold MTUMonitor.tunnelMTU, wrap32, uint32_max. intros Hp.
  rewrite Z.mod_small by lia.
  destruct (Z.ltb_spec (p - 80) (MTUMonitor.minMTU family)); lia.
Qed.

(** The two values the specification gives as examples. *)
Example tunnelMTU_500_inet : MTUMonitor.tunnelMTU AF_INET 500 = 576.
Proof. reflexivity. Qed.

Example tunnelMTU_1400_inet6 : MTUMonitor.tunnelMTU AF_INET6 1400 = 1320.
Proof. reflexivity. Qed.

(** Below 80 the subtraction wraps around and the floor never applies. *)
Lemma tunnelMTU_wraps family p :
  family = AF_INET ∨ family = AF_INET6 →
  0 < p < 80 →
  MTUMonitor.tunnelMTU family p = p + 4294967216.
Proof.
  unfold MTUMonitor.tunnelMTU, MTUMonitor.minMTU, wrap32. intros Hfam Hp.
  replace ((p - 80) mod 4294967296) with (p + 4294967216).
  - destruct Hfam as [-> | ->]; simpl.
    + destruct (Z.ltb_spec (p + 4294967216) 576); [lia|done].
    + destruct (Z.ltb_spec (p + 4294967216) 1280); [lia|done].
  - apply (Z.mod_unique_pos _ _ (-1)); lia.
Qed.

(** C3, amended.  In a pass that selects a default route whose interface
    has a positive physical MTU, the tunnel interface's row is written
    exactly when that physical MTU differs from [lastMTU], the physical MTU
    of the last pass whose write succeeded (0 at the start), and the
    tunnel's per-family row can be read.  There is at most one write; when
    the physical MTU is at least 80, the value written is the physical MTU
    less 80, floored to the minimum of the family.  [lastMTU] becomes the
    physical MTU when the pass returns [nil] and is unchanged otherwise. *)
Theorem mtu_written_iff_physical_mtu_changed
    {W : Type} `{!Winipcfg W}
    (topo : Topology) (family : AddressFamily) (ourLUID : LUID)
    (st : MTUMonitor.state) (rows : list MibIPforwardRow2) (ifrow : MibIfRow2)
    (w : W) err st' w' evs :
  GetIPForwardTable2 topo family = Ok rows →
  MTUMonitor.doIt topo family ourLUID st w = (err, st', w', evs) →
  MTUMonitor.lastLUID st' ≠ 0 →
  Interface topo (MTUMonitor.lastLUID st') = Ok ifrow →
  0 < MTU ifrow →
  (setCalls evs ≠ [] ↔
   MTU ifrow ≠ MTUMonitor.lastMTU st ∧
   ∃ row, IPInterface topo ourLUID family = Ok row) ∧
  (length (setCalls evs) ≤ 1)%nat ∧
  (80 ≤ MTU ifrow ≤ uint32_max →
   ∀ v e, (v, e) ∈ setCalls evs →
     v = Z.max (MTU ifrow - 80) (MTUMonitor.minMTU family) ∧ e = err) ∧
  (err = None → MTUMonitor.lastMTU st' = MTU ifrow) ∧
  (err ≠ None → MTUMonitor.lastMTU st' = MTUMonitor.lastMTU st).
Proof.
  intros Htable Hrun Hsel Hif Hpos.
  destruct (mtu_pass_write _ _ _ _ _ _ _ _ _ _ _ Htable Hrun Hsel Hif Hpos)
    as (Hiff & Hone & Hnil & Herr).
  split; [done|]. split; [|split; [|done]].
  - destruct Hone as [-> | ->]; simpl; lia.
  - intros Hp v e Hin. destruct Hone as [Hone | Hone]; rewrite Hone in Hin.
    + by apply elem_of_nil in Hin.
    + apply list_elem_of_singleton in Hin. injection Hin as -> ->.
      split; [|done]. by apply tunnelMTU_floor.
Qed.

Lemma mtu_written_iff_physical_mtu_changed_witness :
  let first :=
    @MTUMonitor.doIt Sim.World Lan.os (Lan.net 500) AF_INET
      Lan.tunnel MTUMonitor.state0 Sim.world0 in
  let run :=
    @MTUMonitor.doIt Sim.World Lan.os (Lan.net 600) AF_INET
      Lan.tunnel first.1.1.2 first.1.2 in
  let ifrow := {| OperStatus := IfOperStatusUp; MTU := 600 |} in
  GetIPForwardTable2 (Lan.net 600) AF_INET = Ok [Lan.own; Lan.uplink] ∧
  MTUMonitor.lastLUID run.1.1.2 ≠ 0 ∧
  Interface (Lan.net 600) (MTUMonitor.lastLUID run.1.1.2) = Ok ifrow ∧
  0 < MTU ifrow ∧
  (setCalls run.2 ≠ [] ↔
   MTU ifrow ≠ MTUMonitor.lastMTU first.1.1.2 ∧
   ∃ row, IPInterface (Lan.net 600) Lan.tunnel AF_INET = Ok row) ∧
  (length (setCalls run.2) ≤ 1)%nat ∧
  (80 ≤ MTU ifrow ≤ uint32_max →
   ∀ v e, (v, e) ∈ setCalls run.2 →
     v = Z.max (MTU ifrow - 80) (MTUMonitor.minMTU AF_INET) ∧ e = run.1.1.1) ∧
  (run.1.1.1 = None → MTUMonitor.lastMTU run.1.1.2 = MTU ifrow) ∧
  (run.1.1.1 ≠ None → MTUMonitor.lastMTU run.1.1.2 = MTUMonitor.lastMTU first.1.1.2).
Proof.
  intros first run ifrow.
  assert (Hsel : MTUMonitor.lastLUID run.1.1.2 ≠ 0) by (by vm_compute).
  assert (Hpos : 0 < MTU ifrow) by (by vm_compute).
  split; [reflexivity|]. split; [exact Hsel|]. split; [reflexivity|].
  split; [exact Hpos|].
  exact (mtu_written_iff_physical_mtu_changed
           (Lan.net 600) AF_INET Lan.tunnel first.1.1.2
           [Lan.own; Lan.uplink] ifrow first.1.2 _ _ _ _
           eq_refl (eta4 run) Hsel eq_refl Hpos).
Defined.

(** C4 on the code.  With a physical MTU of 68 on IPv4 the pass writes
    4294967284 to the tunnel interface, where flooring 68 - 80 to 576 gives
    576: the subtraction is done on [uint32] before the comparison with the
    minimum. *)
Theorem mtu_below_80_is_written_unfloored :
  let run :=
    @MTUMonitor.doIt Sim.World Lan.os (Lan.net 68) AF_INET
      Lan.tunnel MTUMonitor.state0 Sim.world0 in
  run.1.1.1 = None ∧
  setCalls run.2 = [(4294967284, None)] ∧
  Sim.nlmtu run.1.2 = Some 4294967284 ∧
  MTUMonitor.tunnelMTU AF_INET 68 = 4294967284 ∧
  Z.max (68 - 80) 576 = 576.
Proof. vm_compute. repeat split. Qed.

(** ** Errors of the passes run from the callbacks *)

Section CallbackFacts.
Context {W : Type} `{!Winipcfg W}.
Import MTUMonitor.

Lemma mtu_doIt_fail topo family ourLUID st e (w : W) :
  GetIPForwardTable2 topo family = Err e →
  doIt topo family ourLUID st w = (Some e, st, w, []).
Proof.
  intros Htable. unfold doIt, bind.
  rewrite (findDefaultLUID_fail _ _ _ _ _ e) by done. by destruct st.
Qed.

(** The MTU pass logs nothing and registers nothing. *)
Lemma mtu_doIt_quiet topo family ourLUID st (w : W) err st' w' evs :
  doIt topo family ourLUID st w = (err, st', w', evs) →
  logLines evs = [] ∧ registerCalls evs = [] ∧
  addCalls evs = [] ∧ deleteCalls evs = [].
Proof.
  intros Hrun.
  destruct (GetIPForwardTable2 topo family) as [rows|e] eqn:Htable.
  - pose proof (mtu_doIt_run _ _ _ _ rows _ _ _ _ _ Htable Hrun)
      as (_ & _ & Hk).
    destruct (physicalMTU topo (lastLUID st')) as [mtu|e0];
      [|by destruct Hk as (_ & -> & _)].
    destruct ((0 <? mtu) && negb (lastMTU st =? mtu));
      [|by destruct Hk as (_ & -> & _)].
    destruct (IPInterface topo ourLUID family) as [iface|e0];
      [|by destruct Hk as (_ & -> & _)].
    by destruct Hk as (-> & _).
  - rewrite (mtu_doIt_fail _ _ _ _ e) in Hrun by done.
    by injection Hrun as <- <- <- <-.
Qed.

End CallbackFacts.

(** C9. When a pass run from a callback returns an error, the callback
    ends in the state, the world and the trace the pass left, the error
    being dropped: the callbacks return nothing, and the trace of the pass
    holds no log line.  This is so for both callbacks of both monitors.
    The first pass, run by [monitorMTU] and by [monitorProxyRoutes]
    themselves, is the one whose error is returned to the caller. *)
Theorem callback_pass_errors_are_dropped {W : Type} `{!Winipcfg W} `{!GoRange} :
  (∀ topo family ourLUID st (w : W) e st' w' evs,
     MTUMonitor.doIt topo family ourLUID st w = (Some e, st', w', evs) →
     logLines evs = [] ∧
     (∀ notificationType r, PrefixLength r = 0 →
        MTUMonitor.onRouteChange topo family ourLUID notificationType (Some r) st w
        = (st', w', evs)) ∧
     MTUMonitor.onInterfaceChange topo family ourLUID MibParameterNotification st w
     = (st', w', evs)) ∧
  (∀ topo family ourLUID (w : W) e st' w' evs,
     MTUMonitor.doIt topo family ourLUID MTUMonitor.state0 w = (Some e, st', w', evs) →
     MTUMonitor.monitorMTU topo family ourLUID w = (Err e, st', w', evs)) ∧
  (∀ topo family ourLUID destProxy ourRoutes (w : W) e ourRoutes' w' evs,
     ProxyRoutes.doIt topo family ourLUID destProxy true ourRoutes w
     = (Some e, ourRoutes', w', evs) →
     logLines evs = [] ∧
     (∀ notificationType r, PrefixLength r = 0 →
        ProxyRoutes.onRouteChange topo family ourLUID destProxy notificationType
          (Some r) ourRoutes w = (ourRoutes', w', evs)) ∧
     ProxyRoutes.onInterfaceChange topo family ourLUID destProxy
       MibParameterNotification ourRoutes w = (ourRoutes', w', evs)) ∧
  (∀ topo family ourLUID proxies (w : W) e ourRoutes' w' evs,
     ProxyRoutes.doIt topo family ourLUID
       (ProxyRoutes.buildDestProxy family proxies) false ∅ w
     = (Some e, ourRoutes', w', evs) →
     ProxyRoutes.monitorProxyRoutes topo family ourLUID proxies w
     = (Err e, ourRoutes', w', evs)).
Proof.
  split; [|split; [|split]].
  - intros topo family ourLUID st w e st' w' evs Hrun.
    split; [by apply mtu_doIt_quiet in Hrun as (? & _)|]. split.
    + intros nt r Hr. unfold MTUMonitor.onRouteChange, bind.
      rewrite Hr. change (0 =? 0) with true. cbv beta iota.
      rewrite Hrun. unfold ret. simpl. by rewrite app_nil_r.
    + unfold MTUMonitor.onInterfaceChange, bind.
      rewrite bool_decide_eq_true_2 by done. cbv beta iota.
      rewrite Hrun. unfold ret. simpl. by rewrite app_nil_r.
  - intros topo family ourLUID w e st' w' evs Hrun.
    unfold MTUMonitor.monitorMTU, bind. rewrite Hrun. unfold ret. simpl.
    by rewrite app_nil_r.
  - intros topo family ourLUID dp ours w e ours' w' evs Hrun.
    split.
    + destruct (GetIPForwardTable2 topo family) as [rows|e0] eqn:Htable.
      * by apply (doIt_run _ _ _ _ _ _ rows) in Hrun as ([=] & _).
      * rewrite (doIt_fail _ _ _ _ _ _ e0) in Hrun by done.
        by injection Hrun as <- <- <- <-.
    + split.
      * intros nt r Hr. unfold ProxyRoutes.onRouteChange, bind.
        rewrite Hr. change (0 =? 0) with true. cbv beta iota.
        rewrite Hrun. unfold ret. simpl. by rewrite app_nil_r.
      * unfold ProxyRoutes.onInterfaceChange, bind.
        rewrite bool_decide_eq_true_2 by done. cbv beta iota.
        rewrite Hrun. unfold ret. simpl. by rewrite app_nil_r.
  - intros topo family ourLUID proxies w e ours' w' evs Hrun.
    unfold ProxyRoutes.monitorProxyRoutes, bind. rewrite Hrun. unfold ret. simpl.
    by rewrite app_nil_r.
Qed.

Lemma callback_pass_errors_are_dropped_witness :
  let mtu :=
    @MTUMonitor.doIt Sim.World Lan.os Lan.unreadable AF_INET
      Lan.tunnel MTUMonitor.state0 Sim.world0 in
  let routes :=
    @ProxyRoutes.doIt Sim.World Lan.os Sim.range Lan.unreadable AF_INET
      Lan.tunnel (ProxyRoutes.buildDestProxy AF_INET Lan.proxies)
      false ∅ Sim.world0 in
  mtu = (Some 5, mtu.1.1.2, mtu.1.2, mtu.2) ∧
  routes = (Some 5, routes.1.1.2, routes.1.2, routes.2) ∧
  @MTUMonitor.onInterfaceChange Sim.World Lan.os Lan.unreadable AF_INET
    Lan.tunnel MibParameterNotification MTUMonitor.state0 Sim.world0
  = (mtu.1.1.2, mtu.1.2, mtu.2) ∧
  @MTUMonitor.monitorMTU Sim.World Lan.os Lan.unreadable AF_INET
    Lan.tunnel Sim.world0
  = (Err 5, mtu.1.1.2, mtu.1.2, mtu.2) ∧
  @ProxyRoutes.monitorProxyRoutes Sim.World Lan.os Sim.range
    Lan.unreadable AF_INET Lan.tunnel Lan.proxies Sim.world0
  = (Err 5, routes.1.1.2, routes.1.2, routes.2).
Proof.
  intros mtu routes.
  assert (Hmtu : mtu = (Some 5, mtu.1.1.2, mtu.1.2, mtu.2)) by reflexivity.
  assert (Hroutes : routes = (Some 5, routes.1.1.2, routes.1.2, routes.2))
    by reflexivity.
  split; [exact Hmtu|]. split; [exact Hroutes|].
  pose proof (@callback_pass_errors_are_dropped Sim.World Lan.os Sim.range)
    as (Hcb & Hstart & _ & Hstart').
  split; [exact (proj2 (proj2 (Hcb _ _ _ _ _ _ _ _ _ Hmtu)))|].
  split; [exact (Hstart _ _ _ _ _ _ _ _ Hmtu)|].
  exact (Hstart' _ _ _ _ _ _ _ _ _ Hroutes).
Defined.

(** ** The list of addresses returned by [spawnProxies] *)

Section AddressListFacts.
Context `{!AddressList.Environment} `{!GoRange}.
Import AddressList.

Lemma foldl_append {A} (l s : list A) : foldl append s l = s ++ l.
Proof.
  revert s. induction l as [|x l IH]; intros s; simpl.
  - by rewrite app_nil_r.
  - rewrite IH. unfold append. by rewrite <- app_assoc.
Qed.

Lemma parseInto_ok pips : ∀ m m',
  parseInto pips m = Ok m' →
  m' = m ∪ list_to_set
             (omap (λ ip, match ParseAddr ip with
                          | Ok a => Some a
                          | Err _ => None
                          end) pips).
Proof.
  induction pips as [|ip pips IH]; intros m m' Hrun; simpl in *.
  - injection Hrun as <-. by rewrite (right_id_L ∅ (∪)).
  - destruct (ParseAddr ip) as [addr|e]; [|done]. simpl.
    case_bool_decide as Hin; apply IH in Hrun as ->; set_solver.
Qed.

Lemma resolvePeers_ok peers : ∀ m m',
  resolvePeers peers m = Ok m' →
  m' = m ∪ list_to_set (flat_map peerAddresses peers).
Proof.
  induction peers as [|peer peers IH]; intros m m' Hrun; simpl in *.
  - injection Hrun as <-. by rewrite (right_id_L ∅ (∪)).
  - unfold peerAddresses at 1.
    destruct (0 <? String.length (ProxyEndpoint peer))%nat.
    + destruct (urlHostname (ProxyEndpoint peer)) as [host|e]; [|done].
      destruct (LookupHost host) as [pips|e]; [|done].
      destruct (parseInto pips m) as [m1|e] eqn:Hparse; [|done].
      destruct (proxyReady peer pips); [done|].
      apply parseInto_ok in Hparse as ->. apply IH in Hrun as ->.
      rewrite list_to_set_app_L. by rewrite (assoc_L (∪)).
    + apply IH in Hrun as ->. done.
Qed.

End AddressListFacts.

(** C10. When [spawnProxies] succeeds, [n] being the number of distinct
    addresses the proxied peers resolved to, the list it returns has
    length [2 n]: [n] zero addresses followed by the [n] resolved
    addresses, each once. *)
Theorem spawnProxies_pads_with_zero_addresses
    `{!AddressList.Environment} `{!GoRange}
    (conf : AddressList.Config) (proxies : list Addr) :
  AddressList.spawnProxies conf = Ok proxies →
  length proxies = (2 * size (AddressList.resolvedAddresses conf))%nat ∧
  take (size (AddressList.resolvedAddresses conf)) proxies
    = replicate (size (AddressList.resolvedAddresses conf)) AddrZero ∧
  drop (size (AddressList.resolvedAddresses conf)) proxies
    ≡ₚ elements (AddressList.resolvedAddresses conf).
Proof.
  unfold AddressList.spawnProxies. intros Hrun.
  destruct (AddressList.resolvePeers (AddressList.Peers conf) ∅) as [m|e] eqn:Hm;
    [|done].
  injection Hrun as <-. apply resolvePeers_ok in Hm.
  rewrite (left_id_L ∅ (∪)) in Hm. fold (AddressList.resolvedAddresses conf) in Hm.
  subst m. rewrite foldl_append.
  set (n := size (AddressList.resolvedAddresses conf)).
  split; [|split].
  - rewrite length_app, length_replicate, rangeKeys_perm. fold n.
    change (length (elements (AddressList.resolvedAddresses conf))) with n. lia.
  - apply take_app_length'. by rewrite length_replicate.
  - rewrite drop_app_length' by (by rewrite length_replicate).
    apply rangeKeys_perm.
Qed.

Lemma spawnProxies_pads_with_zero_addresses_witness :
  let proxies :=
    [AddrZero; AddrZero;
     Addr6 42540766411282592856903984951653826561 EmptyString; Addr4 3405803785] in
  @AddressList.spawnProxies Resolved.env Sim.range Resolved.conf = Ok proxies ∧
  length proxies = (2 * size (@AddressList.resolvedAddresses Resolved.env Resolved.conf))%nat ∧
  take (size (@AddressList.resolvedAddresses Resolved.env Resolved.conf)) proxies
    = replicate (size (@AddressList.resolvedAddresses Resolved.env Resolved.conf)) AddrZero ∧
  drop (size (@AddressList.resolvedAddresses Resolved.env Resolved.conf)) proxies
    ≡ₚ elements (@AddressList.resolvedAddresses Resolved.env Resolved.conf).
Proof.
  intros proxies.
  assert (Hrun : @AddressList.spawnProxies Resolved.env Sim.range Resolved.conf
                 = Ok proxies) by (vm_compute; reflexivity).
  split; [exact Hrun|].
  exact (@spawnProxies_pads_with_zero_addresses Resolved.env Sim.range
           Resolved.conf proxies Hrun).
Defined.

(** ** Further properties of the passes *)

(** X1. From a physical MTU of 80 up, the value written to the tunnel
    interface is the physical MTU less 80, floored to 576 for IPv4 and to
    1280 for IPv6. *)
Theorem tunnel_mtu_is_floored_from_80_up (family : AddressFamily) (p : Z) :
  family = AF_INET ∨ family = AF_INET6 →
  80 ≤ p ≤ uint32_max →
  MTUMonitor.tunnelMTU family p =
    Z.max (p - 80) (if family =? AF_INET then 576 else 1280).
Proof.
  intros Hfam Hp. rewrite tunnelMTU_floor by done.
  by destruct Hfam as [-> | ->].
Qed.

Lemma tunnel_mtu_is_floored_from_80_up_witness :
  (AF_INET6 = AF_INET ∨ AF_INET6 = AF_INET6) ∧
  80 ≤ 1400 ≤ uint32_max ∧
  MTUMonitor.tunnelMTU AF_INET6 1400 =
    Z.max (1400 - 80) (if AF_INET6 =? AF_INET then 576 else 1280).
Proof.
  assert (Hfam : AF_INET6 = AF_INET ∨ AF_INET6 = AF_INET6) by (right; reflexivity).
  assert (Hp : 80 ≤ 1400 ≤ uint32_max) by (unfold uint32_max; lia).
  split; [exact Hfam|]. split; [exact Hp|].
  exact (tunnel_mtu_is_floored_from_80_up AF_INET6 1400 Hfam Hp).
Defined.

(** X2. A pass whose selected interface reports the physical MTU 0 writes
    nothing (its trace is empty: no row is set, nothing is registered or
    logged), returns [nil] and leaves [lastMTU] as it was. *)
Theorem unknown_mtu_changes_nothing
    {W : Type} `{!Winipcfg W}
    (topo : Topology) (family : AddressFamily) (ourLUID : LUID)
    (st : MTUMonitor.state) (rows : list MibIPforwardRow2) (ifrow : MibIfRow2)
    (w : W) err st' w' evs :
  GetIPForwardTable2 topo family = Ok rows →
  MTUMonitor.doIt topo family ourLUID st w = (err, st', w', evs) →
  Interface topo (MTUMonitor.lastLUID st') = Ok ifrow →
  MTU ifrow = 0 →
  err = None ∧ evs = [] ∧ MTUMonitor.lastMTU st' = MTUMonitor.lastMTU st.
Proof.
  intros Htable Hrun Hif Hzero.
  apply (mtu_doIt_run _ _ _ _ rows) in Hrun as (_ & _ & Hrun); [|done].
  unfold MTUMonitor.physicalMTU in Hrun. rewrite Hif, Hzero in Hrun.
  by destruct (MTUMonitor.lastLUID st' =? 0).
Qed.

Lemma unknown_mtu_changes_nothing_witness :
  let run :=
    @MTUMonitor.doIt Sim.World Lan.os (Lan.net 0) AF_INET Lan.tunnel
      MTUMonitor.state0 Sim.world0 in
  let ifrow := {| OperStatus := IfOperStatusUp; MTU := 0 |} in
  GetIPForwardTable2 (Lan.net 0) AF_INET = Ok [Lan.own; Lan.uplink] ∧
  Interface (Lan.net 0) (MTUMonitor.lastLUID run.1.1.2) = Ok ifrow ∧
  MTU ifrow = 0 ∧
  run.1.1.1 = None ∧ run.2 = [] ∧
  MTUMonitor.lastMTU run.1.1.2 = MTUMonitor.lastMTU MTUMonitor.state0.
Proof.
  intros run ifrow. split; [reflexivity|]. split; [reflexivity|].
  split; [reflexivity|].
  exact (@unknown_mtu_changes_nothing Sim.World Lan.os (Lan.net 0) AF_INET Lan.tunnel
           MTUMonitor.state0 [Lan.own; Lan.uplink] ifrow Sim.world0 _ _ _ _
           eq_refl (eta4 run) eq_refl eq_refl).
Defined.

(** X3. A route that is tracked before a pass and not after it gets exactly
    one [DeleteRoute] call in that pass. *)
Theorem stale_route_is_deleted_once
    {W : Type} `{!Winipcfg W} `{!GoRange}
    (topo : Topology) (family : AddressFamily) (ourLUID : LUID)
    (destProxy : gmap Prefix (list ProxyRoutes.proxyRef)) (restart : bool)
    (ourRoutes : gset luidRouteData) (rows : list MibIPforwardRow2)
    (w : W) err ourRoutes' w' evs (k : luidRouteData) :
  GetIPForwardTable2 topo family = Ok rows →
  ProxyRoutes.doIt topo family ourLUID destProxy restart ourRoutes w
    = (err, ourRoutes', w', evs) →
  k ∈ ourRoutes → k ∉ ourRoutes' →
  length (filter (λ k', k' = k) (deleteCalls evs).*1) = 1%nat.
Proof.
  intros Htable Hrun Hin Hout.
  apply (doIt_run _ _ _ _ _ _ rows) in Hrun as (_ & _ & -> & Hdels & _); [|done].
  rewrite Hdels.
  assert (Hnodup : NoDup (filter (λ k', k' ∉ kept (addCalls evs)) (rangeKeys ourRoutes)))
    by apply NoDup_filter, NoDup_rangeKeys.
  assert (Hk : k ∈ filter (λ k', k' ∉ kept (addCalls evs)) (rangeKeys ourRoutes)).
  { apply list_elem_of_filter. split; [done|]. by apply elem_of_rangeKeys. }
  revert Hnodup Hk.
  generalize (filter (λ k', k' ∉ kept (addCalls evs)) (rangeKeys ourRoutes)).
  intros l Hnodup Hk. induction Hnodup as [|x l Hx Hnodup IH].
  - by apply elem_of_nil in Hk.
  - rewrite filter_cons. apply elem_of_cons in Hk as [<-|Hk].
    + rewrite decide_True by done. simpl. f_equal.
      rewrite filter_none; [done|].
      apply Forall_forall. intros y Hy ->. done.
    + rewrite decide_False; [by apply IH|]. intros ->. done.
Qed.

Lemma stale_route_is_deleted_once_witness :
  let run :=
    @ProxyRoutes.doIt Sim.World Lan.os Sim.range (Lan.net 1500) AF_INET
      Lan.tunnel (ProxyRoutes.buildDestProxy AF_INET Lan.proxies)
      true {[Faulty.stale]} Sim.world0 in
  GetIPForwardTable2 (Lan.net 1500) AF_INET = Ok [Lan.own; Lan.uplink] ∧
  Faulty.stale ∈ ({[Faulty.stale]} : gset luidRouteData) ∧
  (Faulty.stale ∉ run.1.1.2) ∧
  length (filter (λ k', k' = Faulty.stale) (deleteCalls run.2).*1) = 1%nat.
Proof.
  intros run.
  assert (Hin : Faulty.stale ∈ ({[Faulty.stale]} : gset luidRouteData))
    by (by apply elem_of_singleton).
  assert (Hout : Faulty.stale ∉ run.1.1.2).
  { apply (bool_decide_unpack _). by vm_compute. }
  split; [reflexivity|]. split; [exact Hin|]. split; [exact Hout|].
  exact (@stale_route_is_deleted_once Sim.World Lan.os Sim.range
           (Lan.net 1500) AF_INET Lan.tunnel
           (ProxyRoutes.buildDestProxy AF_INET Lan.proxies) true
           {[Faulty.stale]} [Lan.own; Lan.uplink] Sim.world0 _ _ _ _
           Faulty.stale eq_refl (eta4 run) Hin Hout).
Defined.

(** X4. A pass only calls [AddRoute] over interfaces that are not the
    tunnel's and are operationally up, and only on default routes of the
    snapshot. *)
Theorem routes_are_added_only_over_up_foreign_interfaces
    {W : Type} `{!Winipcfg W} `{!GoRange}
    (topo : Topology) (family : AddressFamily) (ourLUID : LUID)
    (destProxy : gmap Prefix (list ProxyRoutes.proxyRef)) (restart : bool)
    (ourRoutes : gset luidRouteData) (rows : list MibIPforwardRow2)
    (w : W) err ourRoutes' w' evs (k : luidRouteData) (e : error) :
  GetIPForwardTable2 topo family = Ok rows →
  ProxyRoutes.doIt topo family ourLUID destProxy restart ourRoutes w
    = (err, ourRoutes', w', evs) →
  (k, e) ∈ addCalls evs →
  luid k ≠ ourLUID ∧
  (∃ ifrow, Interface topo (luid k) = Ok ifrow ∧ OperStatus ifrow = IfOperStatusUp) ∧
  (∃ r, r ∈ rows ∧ PrefixLength r = 0 ∧ InterfaceLUID r = luid k ∧
        NextHop r = nextHop k) ∧
  destination k ∈ dom destProxy.
Proof.
  intros Htable Hrun Hin.
  apply (doIt_run _ _ _ _ _ _ rows) in Hrun as (_ & Hadds & _); [|done].
  assert (Hk : k ∈ (addCalls evs).*1).
  { apply list_elem_of_fmap. by exists (k, e). }
  rewrite Hadds in Hk.
  apply elem_of_desiredRoutes in Hk as (r & d & Hr & Hup & Hd & ->).
  apply foreignDefaultUp_spec in Hup as (Hlen & Hne & Hif). simpl.
  split; [done|]. split; [done|]. split; [by exists r|].
  by apply elem_of_rangeKeys in Hd.
Qed.

Lemma routes_are_added_only_over_up_foreign_interfaces_witness :
  let run :=
    @ProxyRoutes.doIt Sim.World Lan.os Sim.range Uplinks.net AF_INET
      Lan.tunnel (ProxyRoutes.buildDestProxy AF_INET Lan.proxies)
      false ∅ Sim.world0 in
  let k := ProxyRoutes.routeOf Uplinks.A (hostPrefix (Addr4 3405803785)) in
  GetIPForwardTable2 Uplinks.net AF_INET
    = Ok [Uplinks.A; Uplinks.D; Uplinks.B; Uplinks.C] ∧
  (k, None) ∈ addCalls run.2 ∧
  luid k ≠ Lan.tunnel ∧
  (∃ ifrow, Interface Uplinks.net (luid k) = Ok ifrow ∧
            OperStatus ifrow = IfOperStatusUp) ∧
  (∃ r, r ∈ [Uplinks.A; Uplinks.D; Uplinks.B; Uplinks.C] ∧ PrefixLength r = 0 ∧
        InterfaceLUID r = luid k ∧ NextHop r = nextHop k) ∧
  destination k ∈ dom (ProxyRoutes.buildDestProxy AF_INET Lan.proxies).
Proof.
  intros run k.
  assert (Hin : (k, None) ∈ addCalls run.2) by (vm_compute; repeat constructor).
  split; [reflexivity|]. split; [exact Hin|].
  exact (@routes_are_added_only_over_up_foreign_interfaces Sim.World Lan.os
           Sim.range Uplinks.net AF_INET
           Lan.tunnel (ProxyRoutes.buildDestProxy AF_INET Lan.proxies) false ∅
           [Uplinks.A; Uplinks.D; Uplinks.B; Uplinks.C] Sim.world0 _ _ _ _
           k None eq_refl (eta4 run) Hin).
Defined.

(** The uplink that is down gets no route, the three that are up get one
    each. *)
Example down_uplink_gets_no_route :
  let run :=
    @ProxyRoutes.doIt Sim.World Lan.os Sim.range Uplinks.net AF_INET
      Lan.tunnel (ProxyRoutes.buildDestProxy AF_INET Lan.proxies)
      false ∅ Sim.world0 in
  luid <$> (addCalls run.2).*1 = [11; 12; 13].
Proof. reflexivity. Qed.

(** X5. Teardown: [cleanIt] calls [DeleteRoute] once for every tracked route
    and for nothing else, and leaves [ourRoutes] empty whatever the calls
    returned. *)
Theorem teardown_deletes_every_tracked_route
    {W : Type} `{!Winipcfg W} `{!GoRange}
    (ourRoutes : gset luidRouteData) (w : W) ourRoutes' w' evs :
  ProxyRoutes.cleanIt ourRoutes w = (ourRoutes', w', evs) →
  ourRoutes' = ∅ ∧
  (deleteCalls evs).*1 ≡ₚ elements ourRoutes ∧
  addCalls evs = [] ∧
  logLines evs = deleteFailures (deleteCalls evs).
Proof.
  intros Hrun. apply cleanIt_run in Hrun as (-> & Ha & Hd & Hl & _).
  split; [done|]. split; [|done]. rewrite Hd. apply rangeKeys_perm.
Qed.

Lemma teardown_deletes_every_tracked_route_witness :
  let run :=
    @ProxyRoutes.cleanIt Sim.World Lan.os Sim.range {[Faulty.stale]} Faulty.world in
  run = (run.1.1, run.1.2, run.2) ∧
  run.1.1 = ∅ ∧
  (deleteCalls run.2).*1 ≡ₚ elements ({[Faulty.stale]} : gset luidRouteData) ∧
  addCalls run.2 = [] ∧
  logLines run.2 = deleteFailures (deleteCalls run.2).
Proof.
  intros run.
  assert (Hrun : run = (run.1.1, run.1.2, run.2)) by reflexivity.
  split; [exact Hrun|].
  exact (@teardown_deletes_every_tracked_route Sim.World Lan.os Sim.range
           {[Faulty.stale]} Faulty.world
           _ _ _ Hrun).
Defined.

(** ** Two passes on the simulated system *)

Section SimFacts.
Context (policy : CleanupPolicy) `{!GoRange}.

#[local] Instance sim_os : Winipcfg Sim.World := Sim.os policy.

Import ProxyRoutes.

(** Adds on a system that refuses none: the route table grows by the keys
    added. *)
Lemma sim_addOne_loop dp r dsts : ∀ sc (w : Sim.World) sc' w' evs,
  (∀ k, Sim.addFault w k = None) →
  forEach (addOne dp r) dsts sc w = (sc', w', evs) →
  Sim.addFault w' = Sim.addFault w ∧
  Sim.deleteFault w' = Sim.deleteFault w ∧
  Sim.routes w' = Sim.routes w ∪ list_to_set (routeOf r <$> dsts) ∧
  Forall (λ c, addOk c.2 = true) (addCalls evs) ∧
  (list_to_set (routeOf r <$> dsts) ⊆ Sim.routes w →
   w' = w ∧
   Forall (λ c, c.2 = Some ERROR_OBJECT_ALREADY_EXISTS) (addCalls evs)).
Proof.
  induction dsts as [|dst dsts IH]; intros sc w sc' w' evs Hhonest Hrun;
    simpl in Hrun.
  - apply ret_run in Hrun as (-> & -> & ->). simpl.
    rewrite (right_id_L ∅ (∪)). repeat split; by constructor.
  - apply bind_run in Hrun as (sc1 & w1 & e1 & e2 & Hone & Hrest & ->).
    unfold addOne in Hone.
    apply bind_run in Hone as (err & w2 & e3 & e4 & Hadd & Hk & ->).
    unfold AddRoute in Hadd. simpl in Hadd. unfold Sim.addRoute in Hadd.
    rewrite Hhonest in Hadd.
    fold (routeOf r dst) in Hadd.
    case_bool_decide as Hin; injection Hadd as <- <- <-; simpl in Hk.
    + apply ret_run in Hk as (-> & -> & ->).
      apply IH in Hrest as (Hf & Hdf & Hr & Hok & Hsame); [|done].
      rewrite Hf, Hdf, Hr, !addCalls_app. simpl.
      split; [done|]. split; [done|]. split; [set_solver|].
      split; [by constructor|].
      intros Hsub. destruct Hsame as [-> Hall]; [set_solver|].
      split; [done|]. by constructor.
    + apply ret_run in Hk as (-> & -> & ->).
      apply IH in Hrest as (Hf & Hdf & Hr & Hok & Hsame); [|done].
      rewrite Hf, Hdf, Hr, !addCalls_app. simpl.
      split; [done|]. split; [done|]. split; [set_solver|].
      split; [by constructor|].
      intros Hsub. exfalso. apply Hin. set_solver.
Qed.

Lemma sim_iterateRows_addRoutes topo ourLUID dp rows : ∀ sc (w : Sim.World) err sc' w' evs,
  (∀ k, Sim.addFault w k = None) →
  iterateRows topo ourLUID (addRoutes dp) rows sc w = (err, sc', w', evs) →
  Sim.addFault w' = Sim.addFault w ∧
  Sim.deleteFault w' = Sim.deleteFault w ∧
  Sim.routes w' =
    Sim.routes w ∪ list_to_set (desiredRoutes topo ourLUID (rangeKeys (dom dp)) rows) ∧
  Forall (λ c, addOk c.2 = true) (addCalls evs) ∧
  (list_to_set (desiredRoutes topo ourLUID (rangeKeys (dom dp)) rows) ⊆ Sim.routes w →
   w' = w ∧
   Forall (λ c, c.2 = Some ERROR_OBJECT_ALREADY_EXISTS) (addCalls evs)).
Proof.
  unfold desiredRoutes.
  induction rows as [|r rows IH]; intros sc w err sc' w' evs Hhonest Hrun;
    cbn [iterateRows] in Hrun.
  - apply ret_run in Hrun as (_ & -> & ->). simpl.
    rewrite (right_id_L ∅ (∪)). repeat split; by constructor.
  - rewrite filter_cons. destruct (foreignDefaultUp topo ourLUID r) eqn:Hup.
    + rewrite decide_True by done. cbn [flat_map].
      apply bind_run in Hrun as ([err1 sc1] & w1 & e1 & e2 & Hcb & Hrest & ->).
      unfold addRoutes in Hcb.
      apply bind_run in Hcb as (sc2 & w2 & e3 & e4 & Hloop & Hret & ->).
      apply ret_run in Hret as ([= -> ->] & -> & ->).
      apply sim_addOne_loop in Hloop as (Hf1 & Hdf1 & Hr1 & Hok1 & Hsame1); [|done].
      apply IH in Hrest as (Hf2 & Hdf2 & Hr2 & Hok2 & Hsame2);
        [|intros k; by rewrite Hf1].
      rewrite Hf2, Hf1, Hdf2, Hdf1, Hr2, Hr1, app_nil_r, addCalls_app,
        list_to_set_app_L.
      split; [done|]. split; [done|]. split; [by rewrite (assoc_L (∪))|].
      split; [by apply Forall_app|].
      intros Hsub. destruct Hsame1 as [-> Hall1]; [set_solver|].
      destruct Hsame2 as [-> Hall2]; [set_solver|].
      split; [done|]. by apply Forall_app.
    + rewrite decide_False by done. by apply IH in Hrun.
Qed.

(** Deletes of the routes outside [new] leave the routes of [new] in
    place. *)
Lemma sim_dropStale_loop dp new ks : ∀ restart (w : Sim.World) restart' w' evs,
  forEach (dropStale dp new) ks restart w = (restart', w', evs) →
  Sim.addFault w' = Sim.addFault w ∧
  (∀ k, k ∈ new → k ∈ Sim.routes w → k ∈ Sim.routes w') ∧
  (Forall (λ k, k ∈ new) ks → w' = w).
Proof.
  induction ks as [|k ks IH]; intros restart w restart' w' evs Hrun; simpl in Hrun.
  - by apply ret_run in Hrun as (-> & -> & ->).
  - apply bind_run in Hrun as (restart1 & w1 & e1 & e2 & Hone & Hrest & ->).
    apply IH in Hrest as (Hf & Hkeep & Hsame).
    unfold dropStale in Hone. case_bool_decide as Hin.
    + apply ret_run in Hone as (-> & -> & ->).
      split; [done|]. split; [done|].
      intros Hall. apply Hsame. by apply Forall_cons in Hall as [_ ?].
    + apply bind_run in Hone as (err & w2 & e3 & e4 & Hdel & Hk & ->).
      assert (Hw : Sim.addFault w2 = Sim.addFault w ∧
                   ∀ k', k' ∈ new → k' ∈ Sim.routes w → k' ∈ Sim.routes w2).
      { unfold DeleteRoute in Hdel. simpl in Hdel. unfold Sim.deleteRoute in Hdel.
        destruct (Sim.deleteFault w _).
        - injection Hdel as <- <- <-. done.
        - case_bool_decide; injection Hdel as <- <- <-; [|done].
          split; [done|]. intros k' Hk' Hr. simpl.
          apply elem_of_difference. split; [done|].
          intros ->%elem_of_singleton. apply Hin.
          by destruct k. }
      destruct Hw as [Hf2 Hkeep2].
      assert (w1 = w2) as ->.
      { destruct err as [e|]; cbv beta iota in Hk.
        - destruct (e =? ERROR_NOT_FOUND).
          + by apply ret_run in Hk as (_ & -> & _).
          + apply bind_run in Hk as (? & ? & ? & ? & Hlog & Hk & ->).
            apply ret_run in Hk as (_ & -> & _).
            unfold logPrintf in Hlog. by injection Hlog as <- <- <-.
        - by apply ret_run in Hk as (_ & -> & _). }
      split; [by rewrite Hf|]. split; [by auto|].
      intros Hall. by apply Forall_cons in Hall as [? _].
Qed.

(** What the two halves of a pass do to the simulated system when it
    refuses no add. *)
Lemma sim_doIt_run topo family ourLUID dp restart ours rows (w : Sim.World)
    err ours' w' evs :
  (∀ k, Sim.addFault w k = None) →
  GetIPForwardTable2 topo family = Ok rows →
  doIt topo family ourLUID dp restart ours w = (err, ours', w', evs) →
  Sim.addFault w' = Sim.addFault w ∧
  ours' = list_to_set (desiredRoutes topo ourLUID (rangeKeys (dom dp)) rows) ∧
  ours' ⊆ Sim.routes w' ∧
  (ours' ⊆ Sim.routes w → ours = ours' →
   w' = w ∧
   Forall (λ c, c.2 = Some ERROR_OBJECT_ALREADY_EXISTS) (addCalls evs)).
Proof.
  intros Hhonest Htable Hrun.
  pose proof (doIt_run _ _ _ _ _ _ rows _ _ _ _ _ Htable Hrun)
    as (_ & Hadds & Hkept & Hdels & _).
  unfold doIt, iterateForeignDefaultRoutes in Hrun. rewrite Htable in Hrun.
  apply bind_run in Hrun as ([err1 sc] & wa & ea & eb & Hadd & Hk & ->).
  pose proof (iterateRows_addRoutes _ _ _ _ _ _ _ _ _ _ Hadd) as (-> & Ha & Hd & _).
  apply sim_iterateRows_addRoutes in Hadd as (Hf & _ & Hr & Hok & Hsame);
    [|done].
  apply bind_run in Hk as (restart' & wb & ec & ed & Hdel & Hret & ->).
  apply ret_run in Hret as ([= _ ->] & -> & ->).
  pose proof (dropStale_loop _ _ _ _ _ _ _ _ Hdel) as (Hac & _).
  apply sim_dropStale_loop in Hdel as (Hf' & Hkeep & Hsame').
  rewrite app_nil_r, addCalls_app, Hac, app_nil_r in *.
  assert (Hours : kept (addCalls ea) =
            list_to_set (desiredRoutes topo ourLUID (rangeKeys (dom dp)) rows)).
  { by rewrite (kept_all_ok _ Hok), Ha. }
  rewrite Hkept, Hours in *.
  split; [by rewrite Hf', Hf|]. split; [done|].
  split.
  - intros k Hk. apply Hkeep; [done|]. rewrite Hr. set_solver.
  - intros Hsub Heq. destruct (Hsame Hsub) as [-> Hall].
    split; [|done]. apply Hsame'. apply Forall_forall.
    intros k Hk. apply elem_of_rangeKeys in Hk. by rewrite <- Heq.
Qed.

End SimFacts.

(** X6. On a system that reports a route that is already there and refuses no
    add, the second of two passes over the same snapshot changes nothing:
    every [AddRoute] reports that the route exists, no route is deleted,
    and the system and [ourRoutes] are as the first pass left them. *)
Theorem second_pass_leaves_the_system_unchanged
    (policy : CleanupPolicy) `{!GoRange}
    (topo : Topology) (family : AddressFamily) (ourLUID : LUID)
    (destProxy : gmap Prefix (list ProxyRoutes.proxyRef)) (restart1 restart2 : bool)
    (ourRoutes : gset luidRouteData) (rows : list MibIPforwardRow2)
    (w : Sim.World) err1 ourRoutes1 w1 evs1 err2 ourRoutes2 w2 evs2 :
  (∀ k, Sim.addFault w k = None) →
  GetIPForwardTable2 topo family = Ok rows →
  @ProxyRoutes.doIt Sim.World (Sim.os policy) _ topo family ourLUID destProxy
    restart1 ourRoutes w = (err1, ourRoutes1, w1, evs1) →
  @ProxyRoutes.doIt Sim.World (Sim.os policy) _ topo family ourLUID destProxy
    restart2 ourRoutes1 w1 = (err2, ourRoutes2, w2, evs2) →
  w2 = w1 ∧ ourRoutes2 = ourRoutes1 ∧
  Forall (λ c, c.2 = Some ERROR_OBJECT_ALREADY_EXISTS) (addCalls evs2) ∧
  deleteCalls evs2 = [].
Proof.
  intros Hhonest Htable Hrun1 Hrun2.
  pose proof (doIt_run _ _ _ _ _ _ rows _ _ _ _ _ Htable Hrun2)
    as (_ & _ & _ & Hdels & _).
  apply (sim_doIt_run policy _ _ _ _ _ _ rows) in Hrun1
    as (Hf1 & Ho1 & Hin1 & _); [|done|done].
  apply (sim_doIt_run policy _ _ _ _ _ _ rows) in Hrun2
    as (_ & Ho2 & _ & Hsame); [|intros k; by rewrite Hf1|done].
  assert (Heq : ourRoutes1 = ourRoutes2) by by rewrite Ho1, Ho2.
  destruct Hsame as [-> Hall]; [by rewrite <- Heq|done|].
  split; [done|]. split; [done|]. split; [done|].
  apply fmap_nil_inv with (f := fst). rewrite Hdels, <- Heq.
  apply filter_none, Forall_forall. intros k Hk Hnot. apply Hnot.
  by apply elem_of_rangeKeys in Hk.
Qed.

Lemma second_pass_leaves_the_system_unchanged_witness :
  let first :=
    @ProxyRoutes.doIt Sim.World (Sim.os CleanupIgnored) Sim.range (Lan.net 1500)
      AF_INET Lan.tunnel (ProxyRoutes.buildDestProxy AF_INET Lan.proxies)
      false {[Faulty.stale]} Sim.world0 in
  let second :=
    @ProxyRoutes.doIt Sim.World (Sim.os CleanupIgnored) Sim.range (Lan.net 1500)
      AF_INET Lan.tunnel (ProxyRoutes.buildDestProxy AF_INET Lan.proxies)
      true first.1.1.2 first.1.2 in
  (∀ k, Sim.addFault Sim.world0 k = None) ∧
  GetIPForwardTable2 (Lan.net 1500) AF_INET = Ok [Lan.own; Lan.uplink] ∧
  second.1.2 = first.1.2 ∧ second.1.1.2 = first.1.1.2 ∧
  Forall (λ c, c.2 = Some ERROR_OBJECT_ALREADY_EXISTS) (addCalls second.2) ∧
  deleteCalls second.2 = [].
Proof.
  intros first second.
  assert (Hhonest : ∀ k, Sim.addFault Sim.world0 k = None) by reflexivity.
  split; [exact Hhonest|]. split; [reflexivity|].
  exact (second_pass_leaves_the_system_unchanged CleanupIgnored
           (Lan.net 1500) AF_INET Lan.tunnel
           (ProxyRoutes.buildDestProxy AF_INET Lan.proxies) false true
           {[Faulty.stale]} [Lan.own; Lan.uplink] Sim.world0 _ _ _ _ _ _ _ _
           Hhonest eq_refl (eta4 first) (eta4 second)).
Defined.

(** * Further properties *)

(** ** The MTU pass, case by case *)

Section MTUCases.
Context {W : Type} `{!Winipcfg W}.
Import MTUMonitor.

(** The pass over a readable table, as one equation. *)
Lemma mtu_doIt_cases topo family ourLUID st rows (w : W) :
  GetIPForwardTable2 topo family = Ok rows →
  doIt topo family ourLUID st w =
  let b := foldl pick best0 (candidates topo family ourLUID rows) in
  let st1 := {| lastLUID := bestLUID b; lastIndex := index b; lastMTU := lastMTU st |} in
  match physicalMTU topo (bestLUID b) with
  | Err e => (Some e, st1, w, [])
  | Ok mtu =>
      if (0 <? mtu) && negb (lastMTU st =? mtu) then
        match IPInterface topo ourLUID family with
        | Err e => (Some e, st1, w, [])
        | Ok iface =>
            let row := setNLMTU iface (tunnelMTU family mtu) in
            match osSetIPInterface ourLUID family row w with
            | (Some e, w') =>
                (Some e, st1, w', [EvSetIPInterface ourLUID family row (Some e)])
            | (None, w') =>
                (None,
                 {| lastLUID := bestLUID b; lastIndex := index b; lastMTU := mtu |},
                 w', [EvSetIPInterface ourLUID family row None])
            end
        end
      else (None, st1, w, [])
  end.
Proof.
  intros Htable. unfold doIt, bind.
  rewrite (findDefaultLUID_run _ _ _ _ _ rows) by done. cbv zeta.
  destruct (physicalMTU topo _) as [mtu|e]; [|done].
  destruct ((0 <? mtu) && negb (lastMTU st =? mtu)); [|done].
  destruct (IPInterface topo ourLUID family) as [iface|e]; [|done].
  unfold SetIPInterface.
  destruct (osSetIPInterface _ _ _ _) as [[e|] w']; done.
Qed.

(** The selection is none or one of the candidates. *)
Lemma selection_is_a_candidate cands :
  foldl pick best0 cands = best0 ∨
  ∃ c, c ∈ cands ∧
       bestLUID (foldl pick best0 cands) = InterfaceLUID c.1 ∧
       index (foldl pick best0 cands) = InterfaceIndex c.1.
Proof.
  destruct (foldl_pick cands best0) as [[_ ->]|(c & (before & after & -> & _) & _ & ->)].
  - by left.
  - right. exists c. split; [|done]. apply elem_of_app. right. by left.
Qed.

Lemma candidate_is_foreign topo family ourLUID rows c :
  c ∈ candidates topo family ourLUID rows →
  c.1 ∈ rows ∧ upForeignDefault topo ourLUID c.1 ∧
  IPInterface topo (InterfaceLUID c.1) family = Ok c.2.
Proof.
  unfold candidates. rewrite list_elem_of_omap. intros (r & Hr & Hsome).
  destruct (foreignDefaultUp topo ourLUID r) eqn:Hup; [|done].
  destruct (IPInterface topo (InterfaceLUID r) family) eqn:Hif; [|done].
  injection Hsome as <-. simpl. by apply foreignDefaultUp_spec in Hup.
Qed.

Lemma tunnelMTU_bounds family mtu :
  minMTU family ≤ tunnelMTU family mtu ≤ uint32_max.
Proof.
  unfold tunnelMTU, minMTU, wrap32, uint32_max.
  pose proof (Z.mod_pos_bound (mtu - 80) 4294967296).
  destruct (family =? AF_INET); [|destruct (family =? AF_INET6)];
    match goal with |- context [?a <? ?b] => destruct (Z.ltb_spec a b) end; lia.
Qed.

End MTUCases.

(** X7. The second of two MTU passes over the same snapshot, the first
    having returned [nil], writes nothing (its trace is empty: no row is
    set, nothing is registered or logged), returns [nil] and leaves the
    variables of the monitor and the system as they were. *)
Theorem second_mtu_pass_is_silent
    {W : Type} `{!Winipcfg W}
    (topo : Topology) (family : AddressFamily) (ourLUID : LUID)
    (st : MTUMonitor.state) (rows : list MibIPforwardRow2)
    (w : W) st1 w1 evs1 err2 st2 w2 evs2 :
  GetIPForwardTable2 topo family = Ok rows →
  MTUMonitor.doIt topo family ourLUID st w = (None, st1, w1, evs1) →
  MTUMonitor.doIt topo family ourLUID st1 w1 = (err2, st2, w2, evs2) →
  err2 = None ∧ st2 = st1 ∧ w2 = w1 ∧ evs2 = [].
Proof.
  intros Htable Hrun1 Hrun2.
  rewrite (mtu_doIt_cases _ _ _ _ rows) in Hrun1 by done.
  rewrite (mtu_doIt_cases _ _ _ _ rows) in Hrun2 by done. cbv zeta in *.
  destruct (MTUMonitor.physicalMTU topo _) as [mtu|e]; [|done].
  destruct ((0 <? mtu) && negb (MTUMonitor.lastMTU st =? mtu)) eqn:Hcond.
  - destruct (IPInterface topo ourLUID family) as [iface|e]; [|done].
    destruct (osSetIPInterface _ _ _ w) as [[e|] w0]; [done|].
    injection Hrun1 as <- <- <-. simpl in Hrun2.
    rewrite Z.eqb_refl, andb_false_r in Hrun2. by injection Hrun2 as <- <- <- <-.
  - injection Hrun1 as <- <- <-. simpl in Hrun2. rewrite Hcond in Hrun2.
    by injection Hrun2 as <- <- <- <-.
Qed.

Lemma second_mtu_pass_is_silent_witness :
  let first :=
    @MTUMonitor.doIt Sim.World Lan.os (Lan.net 1500) AF_INET Lan.tunnel
      MTUMonitor.state0 Sim.world0 in
  let second :=
    @MTUMonitor.doIt Sim.World Lan.os (Lan.net 1500) AF_INET Lan.tunnel
      first.1.1.2 first.1.2 in
  GetIPForwardTable2 (Lan.net 1500) AF_INET = Ok [Lan.own; Lan.uplink] ∧
  first = (None, first.1.1.2, first.1.2, first.2) ∧
  setCalls first.2 = [(1420, None)] ∧
  second.1.1.1 = None ∧ second.1.1.2 = first.1.1.2 ∧
  second.1.2 = first.1.2 ∧ second.2 = [].
Proof.
  intros first second.
  assert (Hfirst : first = (None, first.1.1.2, first.1.2, first.2)) by reflexivity.
  split; [reflexivity|]. split; [exact Hfirst|]. split; [reflexivity|].
  exact (@second_mtu_pass_is_silent Sim.World Lan.os (Lan.net 1500) AF_INET
           Lan.tunnel MTUMonitor.state0 [Lan.own; Lan.uplink] Sim.world0
           _ _ _ _ _ _ _ eq_refl Hfirst (eta4 second)).
Defined.

(** X8. When the write of a pass fails, the next pass over the same
    snapshot writes the same value again. *)
Theorem failed_mtu_write_is_retried
    {W : Type} `{!Winipcfg W}
    (topo : Topology) (family : AddressFamily) (ourLUID : LUID)
    (st : MTUMonitor.state) (rows : list MibIPforwardRow2)
    (w : W) e st1 w1 evs1 v err2 st2 w2 evs2 :
  GetIPForwardTable2 topo family = Ok rows →
  MTUMonitor.doIt topo family ourLUID st w = (Some e, st1, w1, evs1) →
  setCalls evs1 = [(v, Some e)] →
  MTUMonitor.doIt topo family ourLUID st1 w1 = (err2, st2, w2, evs2) →
  setCalls evs2 = [(v, err2)] ∧
  MTUMonitor.lastMTU st1 = MTUMonitor.lastMTU st.
Proof.
  intros Htable Hrun1 Hset Hrun2.
  rewrite (mtu_doIt_cases _ _ _ _ rows) in Hrun1 by done.
  rewrite (mtu_doIt_cases _ _ _ _ rows) in Hrun2 by done. cbv zeta in *.
  destruct (MTUMonitor.physicalMTU topo _) as [mtu|e0];
    [|by injection Hrun1 as <- <- <- <-].
  destruct ((0 <? mtu) && negb (MTUMonitor.lastMTU st =? mtu)) eqn:Hcond; [|done].
  destruct (IPInterface topo ourLUID family) as [iface|e0];
    [|by injection Hrun1 as <- <- <- <-].
  destruct (osSetIPInterface _ _ _ w) as [[e0|] w0]; [|done].
  injection Hrun1 as <- <- <- <-. simpl in Hset. injection Hset as <-.
  simpl in Hrun2. rewrite Hcond in Hrun2.
  destruct (osSetIPInterface _ _ _ w0) as [[e1|] w3];
    by injection Hrun2 as <- <- <- <-.
Qed.

Lemma failed_mtu_write_is_retried_witness :
  let first :=
    @MTUMonitor.doIt Sim.World Lan.os (Lan.net 1500) AF_INET Lan.tunnel
      MTUMonitor.state0 Faulty.world in
  let second :=
    @MTUMonitor.doIt Sim.World Lan.os (Lan.net 1500) AF_INET Lan.tunnel
      first.1.1.2 first.1.2 in
  GetIPForwardTable2 (Lan.net 1500) AF_INET = Ok [Lan.own; Lan.uplink] ∧
  first = (Some Faulty.denied, first.1.1.2, first.1.2, first.2) ∧
  setCalls first.2 = [(1420, Some Faulty.denied)] ∧
  setCalls second.2 = [(1420, second.1.1.1)] ∧
  MTUMonitor.lastMTU first.1.1.2 = MTUMonitor.lastMTU MTUMonitor.state0.
Proof.
  intros first second.
  assert (Hfirst : first = (Some Faulty.denied, first.1.1.2, first.1.2, first.2))
    by reflexivity.
  assert (Hset : setCalls first.2 = [(1420, Some Faulty.denied)]) by reflexivity.
  split; [reflexivity|]. split; [exact Hfirst|]. split; [exact Hset|].
  exact (@failed_mtu_write_is_retried Sim.World Lan.os (Lan.net 1500) AF_INET
           Lan.tunnel MTUMonitor.state0 [Lan.own; Lan.uplink] Faulty.world
           _ _ _ _ _ _ _ _ _ eq_refl Hfirst Hset (eta4 second)).
Defined.

(** X9. Whatever a pass reads, a value it writes to the tunnel interface
    is at least the minimum of the family and fits a [uint32]. *)
Theorem written_mtu_is_within_bounds
    {W : Type} `{!Winipcfg W}
    (topo : Topology) (family : AddressFamily) (ourLUID : LUID)
    (st : MTUMonitor.state) (w : W) err st' w' evs (v : Z) (e : error) :
  MTUMonitor.doIt topo family ourLUID st w = (err, st', w', evs) →
  (v, e) ∈ setCalls evs →
  MTUMonitor.minMTU family ≤ v ≤ uint32_max.
Proof.
  intros Hrun Hin.
  destruct (GetIPForwardTable2 topo family) as [rows|e0] eqn:Htable.
  - rewrite (mtu_doIt_cases _ _ _ _ rows) in Hrun by done. cbv zeta in Hrun.
    destruct (MTUMonitor.physicalMTU topo _) as [mtu|e1];
      [|injection Hrun as <- <- <- <-; by apply elem_of_nil in Hin].
    destruct ((0 <? mtu) && negb (MTUMonitor.lastMTU st =? mtu));
      [|injection Hrun as <- <- <- <-; by apply elem_of_nil in Hin].
    destruct (IPInterface topo ourLUID family) as [iface|e1];
      [|injection Hrun as <- <- <- <-; by apply elem_of_nil in Hin].
    destruct (osSetIPInterface _ _ _ w) as [[e1|] w0];
      injection Hrun as <- <- <- <-; simpl in Hin;
      apply list_elem_of_singleton in Hin; injection Hin as -> _;
      apply tunnelMTU_bounds.
  - rewrite (mtu_doIt_fail _ _ _ _ e0) in Hrun by done.
    injection Hrun as <- <- <- <-. by apply elem_of_nil in Hin.
Qed.

Lemma written_mtu_is_within_bounds_witness :
  let run :=
    @MTUMonitor.doIt Sim.World Lan.os (Lan.net 68) AF_INET Lan.tunnel
      MTUMonitor.state0 Sim.world0 in
  (4294967284, None) ∈ setCalls run.2 ∧
  MTUMonitor.minMTU AF_INET ≤ 4294967284 ≤ uint32_max.
Proof.
  intros run.
  assert (Hin : (4294967284, None) ∈ setCalls run.2) by (vm_compute; repeat constructor).
  split; [exact Hin|].
  exact (@written_mtu_is_within_bounds Sim.World Lan.os (Lan.net 68) AF_INET
           Lan.tunnel MTUMonitor.state0 Sim.world0 _ _ _ _ _ _ (eta4 run) Hin).
Defined.

Section MTUStateFacts.
Context {W : Type} `{!Winipcfg W}.

(** A pass leaves in [lastLUID] either 0 or an interface that is not the
    tunnel's, or what was there when the table cannot be read. *)
Lemma mtu_doIt_lastLUID topo family ourLUID st (w : W) err st' w' evs :
  MTUMonitor.doIt topo family ourLUID st w = (err, st', w', evs) →
  MTUMonitor.lastLUID st = 0 ∨ MTUMonitor.lastLUID st ≠ ourLUID →
  MTUMonitor.lastLUID st' = 0 ∨ MTUMonitor.lastLUID st' ≠ ourLUID.
Proof.
  intros Hrun Hst.
  destruct (GetIPForwardTable2 topo family) as [rows|e] eqn:Htable.
  - pose proof (mtu_doIt_run _ _ _ _ rows _ _ _ _ _ Htable Hrun) as (-> & _).
    destruct (selection_is_a_candidate (candidates topo family ourLUID rows))
      as [->|(c & Hc & -> & _)]; [by left|].
    right. by apply candidate_is_foreign in Hc as (_ & (_ & ? & _) & _).
  - rewrite (mtu_doIt_fail _ _ _ _ e) in Hrun by done.
    by injection Hrun as <- <- <- <-.
Qed.

End MTUStateFacts.

(** X10. The MTU monitor never takes the tunnel's own interface for the
    default route: whatever passes have run, [lastLUID] is 0 (none) or an
    interface other than the tunnel's. *)
Theorem mtu_monitor_never_selects_the_tunnel
    {W : Type} `{!Winipcfg W}
    (family : AddressFamily) (ourLUID : LUID) (st : MTUMonitor.state) :
  mtuStates family ourLUID st →
  MTUMonitor.lastLUID st = 0 ∨ MTUMonitor.lastLUID st ≠ ourLUID.
Proof.
  induction 1 as [ | topo st w err st' w' evs _ IH Hrun
                   | topo nt route st w st' w' evs _ IH Hrun
                   | topo nt st w st' w' evs _ IH Hrun ].
  - by left.
  - by eapply mtu_doIt_lastLUID.
  - unfold MTUMonitor.onRouteChange in Hrun.
    destruct route as [r|]; [destruct (PrefixLength r =? 0)|].
    + apply bind_run in Hrun as ([err st1] & w1 & e1 & e2 & Hpass & Hret & ->).
      apply ret_run in Hret as (-> & -> & ->). by eapply mtu_doIt_lastLUID.
    + by apply ret_run in Hrun as (-> & -> & ->).
    + by apply ret_run in Hrun as (-> & -> & ->).
  - unfold MTUMonitor.onInterfaceChange in Hrun. case_bool_decide.
    + apply bind_run in Hrun as ([err st1] & w1 & e1 & e2 & Hpass & Hret & ->).
      apply ret_run in Hret as (-> & -> & ->). by eapply mtu_doIt_lastLUID.
    + by apply ret_run in Hrun as (-> & -> & ->).
Qed.

Lemma mtu_monitor_never_selects_the_tunnel_witness :
  let run :=
    @MTUMonitor.doIt Sim.World Lan.os (Lan.net 1500) AF_INET Lan.tunnel
      MTUMonitor.state0 Sim.world0 in
  @mtuStates Sim.World Lan.os AF_INET Lan.tunnel run.1.1.2 ∧
  (MTUMonitor.lastLUID run.1.1.2 = 0 ∨ MTUMonitor.lastLUID run.1.1.2 ≠ Lan.tunnel).
Proof.
  intros run.
  assert (Hst : @mtuStates Sim.World Lan.os AF_INET Lan.tunnel run.1.1.2).
  { eapply mtuStates_doIt; [apply mtuStates_init | apply (eta4 run)]. }
  split; [exact Hst|].
  exact (@mtu_monitor_never_selects_the_tunnel Sim.World Lan.os AF_INET
           Lan.tunnel run.1.1.2 Hst).
Defined.

(** X11. When the first registration of [monitorMTU] succeeds and the
    second fails, the first callback is unregistered, as the last thing
    done, and the error of the second registration is returned. *)
Theorem failed_second_mtu_registration_is_rolled_back
    {W : Type} `{!Winipcfg W}
    (topo : Topology) (family : AddressFamily) (ourLUID : LUID)
    (w : W) res st w' evs cbr e :
  MTUMonitor.monitorMTU topo family ourLUID w = (res, st, w', evs) →
  EvRegisterRouteChange (Ok cbr) ∈ evs →
  EvRegisterInterfaceChange (Err e) ∈ evs →
  res = Err e ∧
  ∃ w1 pass uerr,
    MTUMonitor.doIt topo family ourLUID MTUMonitor.state0 w = (None, st, w1, pass) ∧
    evs = pass ++ [EvRegisterRouteChange (Ok cbr);
                   EvRegisterInterfaceChange (Err e);
                   EvUnregister cbr uerr].
Proof.
  intros Hrun Hfirst Hsecond. unfold MTUMonitor.monitorMTU in Hrun.
  assert (Hreg1 : EvRegisterRouteChange (Ok cbr) ∈ registerCalls evs)
    by by apply elem_of_registerCalls.
  assert (Hreg2 : EvRegisterInterfaceChange (Err e) ∈ registerCalls evs)
    by by apply elem_of_registerCalls.
  clear Hfirst Hsecond.
  apply bind_run in Hrun as ([err st1] & w1 & pass & e2 & Hpass & Hk & ->).
  pose proof (mtu_doIt_quiet _ _ _ _ _ _ _ _ _ Hpass) as (_ & Hnone & _).
  destruct err as [e0|].
  { apply ret_run in Hk as (_ & _ & ->).
    rewrite app_nil_r, Hnone in Hreg1. by apply elem_of_nil in Hreg1. }
  apply bind_run in Hk as (r1 & w2 & e3 & e4 & Hr1 & Hk & ->).
  unfold RegisterRouteChangeCallback in Hr1.
  destruct (osRegisterRouteChangeCallback w1) as [r1' w2'].
  injection Hr1 as <- <- <-.
  destruct r1' as [cbr'|e1].
  - apply bind_run in Hk as (r2 & w3 & e5 & e6 & Hr2 & Hk & ->).
    unfold RegisterInterfaceChangeCallback in Hr2.
    destruct (osRegisterInterfaceChangeCallback w2') as [r2' w3'].
    injection Hr2 as <- <- <-.
    destruct r2' as [cbi|e2].
    + apply ret_run in Hk as (_ & _ & ->).
      rewrite !registerCalls_app, Hnone in Hreg2.
      unfold registerCalls in Hreg2. simpl in Hreg2. set_solver.
    + apply bind_run in Hk as (st2 & w4 & e7 & e8 & Hun & Hret & ->).
      apply ret_run in Hret as ([= -> ->] & -> & ->).
      unfold Unregister in Hun. simpl in Hun.
      apply bind_run in Hun as (uerr & w5 & e9 & e10 & Hos & Hret & ->).
      apply ret_run in Hret as (-> & -> & ->).
      destruct (osUnregister cbr' w3') as [uerr' w5'].
      injection Hos as <- <- <-.
      rewrite !registerCalls_app, Hnone in Hreg1, Hreg2.
      unfold registerCalls in Hreg1, Hreg2. simpl in Hreg1, Hreg2.
      assert (cbr' = cbr) as -> by set_solver.
      assert (e2 = e) as -> by set_solver.
      split; [done|]. by exists w1, pass, uerr'.
  - apply ret_run in Hk as (_ & _ & ->).
    rewrite !registerCalls_app, Hnone in Hreg1.
    unfold registerCalls in Hreg1. simpl in Hreg1. set_solver.
Qed.

Lemma failed_second_mtu_registration_is_rolled_back_witness :
  let run :=
    @MTUMonitor.monitorMTU Sim.World Lan.os (Lan.net 1500) AF_INET Lan.tunnel
      SecondFails.world in
  EvRegisterRouteChange (Ok 1) ∈ run.2 ∧
  EvRegisterInterfaceChange (Err 5) ∈ run.2 ∧
  run.1.1.1 = Err 5 ∧
  ∃ w1 pass uerr,
    @MTUMonitor.doIt Sim.World Lan.os (Lan.net 1500) AF_INET Lan.tunnel
      MTUMonitor.state0 SecondFails.world = (None, run.1.1.2, w1, pass) ∧
    run.2 = pass ++ [EvRegisterRouteChange (Ok 1);
                     EvRegisterInterfaceChange (Err 5);
                     EvUnregister 1 uerr].
Proof.
  intros run.
  assert (Hfirst : EvRegisterRouteChange (Ok 1) ∈ run.2)
    by (vm_compute; repeat constructor).
  assert (Hsecond : EvRegisterInterfaceChange (Err 5) ∈ run.2)
    by (vm_compute; repeat constructor).
  split; [exact Hfirst|]. split; [exact Hsecond|].
  exact (@failed_second_mtu_registration_is_rolled_back Sim.World Lan.os
           (Lan.net 1500) AF_INET Lan.tunnel SecondFails.world _ _ _ _ 1 5
           (eta4 run) Hfirst Hsecond).
Defined.

(** ** The start of [monitorProxyRoutes] *)

(** X12. When the first registration of [monitorProxyRoutes] fails, the
    error is returned with [ourRoutes] empty, after one [DeleteRoute] call
    for every route the first pass left in [ourRoutes] and no other call:
    nothing is added, registered or unregistered any more. *)
Theorem failed_first_registration_deletes_the_routes
    {W : Type} `{!Winipcfg W} `{!GoRange}
    (topo : Topology) (family : AddressFamily) (ourLUID : LUID)
    (proxies : list ProxyRoutes.proxy) (w : W) res ourRoutes w' evs e :
  ProxyRoutes.monitorProxyRoutes topo family ourLUID proxies w
    = (res, ourRoutes, w', evs) →
  EvRegisterRouteChange (Err e) ∈ evs →
  res = Err e ∧ ourRoutes = ∅ ∧
  ∃ installed w1 pass rollback,
    ProxyRoutes.doIt topo family ourLUID
      (ProxyRoutes.buildDestProxy family proxies) false ∅ w
      = (None, installed, w1, pass) ∧
    evs = pass ++ [EvRegisterRouteChange (Err e)] ++ rollback ∧
    (deleteCalls rollback).*1 ≡ₚ elements installed ∧
    Forall (λ ev, isRouteEvent ev = true) rollback ∧
    addCalls rollback = [].
Proof.
  intros Hrun Hfirst. unfold ProxyRoutes.monitorProxyRoutes in Hrun.
  assert (Hreg : EvRegisterRouteChange (Err e) ∈ registerCalls evs)
    by by apply elem_of_registerCalls.
  clear Hfirst.
  destruct (GetIPForwardTable2 topo family) as [rows|e0] eqn:Htable.
  2:{ rewrite bind_run in Hrun. destruct Hrun as (a & w1 & e1 & e2 & Hpass & Hk & ->).
      rewrite (doIt_fail _ _ _ _ _ _ e0) in Hpass by done.
      injection Hpass as <- <- <-. apply ret_run in Hk as (_ & _ & ->).
      by apply elem_of_nil in Hreg. }
  apply bind_run in Hrun as ([err ours1] & w1 & pass & e2 & Hpass & Hk & ->).
  pose proof (doIt_run _ _ _ _ _ _ rows _ _ _ _ _ Htable Hpass)
    as (-> & _ & _ & _ & _ & Hroute).
  pose proof (registerCalls_route _ Hroute) as Hnone.
  apply bind_run in Hk as (r1 & w2 & e3 & e4 & Hr1 & Hk & ->).
  unfold RegisterRouteChangeCallback in Hr1.
  destruct (osRegisterRouteChangeCallback w1) as [r1' w2'].
  injection Hr1 as <- <- <-.
  destruct r1' as [cbr|e1].
  - apply bind_run in Hk as (r2 & w3 & e5 & e6 & Hr2 & Hk & ->).
    unfold RegisterInterfaceChangeCallback in Hr2.
    destruct (osRegisterInterfaceChangeCallback w2') as [r2' w3'].
    injection Hr2 as <- <- <-.
    assert (Hrest : registerCalls e6 = []).
    { destruct r2' as [cbi|e2].
      - by apply ret_run in Hk as (_ & _ & ->).
      - apply bind_run in Hk as (ours2 & w4 & e7 & e8 & Hun & Hk & ->).
        apply bind_run in Hk as (ours3 & w5 & e9 & e10 & Hclean & Hret & ->).
        apply ret_run in Hret as (_ & _ & ->).
        apply Unregister_cleanIt_run in Hun as (_ & Hru & _).
        apply cleanIt_run in Hclean as (_ & _ & _ & _ & Hrc).
        by rewrite !registerCalls_app, Hru, (registerCalls_route _ Hrc). }
    rewrite !registerCalls_app, Hnone, Hrest in Hreg.
    unfold registerCalls in Hreg. simpl in Hreg.
    destruct r2'; set_solver.
  - apply bind_run in Hk as (ours2 & w3 & e5 & e6 & Hclean & Hret & ->).
    apply ret_run in Hret as ([= -> ->] & -> & ->).
    apply cleanIt_run in Hclean as (-> & Hac & Hdc & _ & Hrc).
    rewrite !registerCalls_app, Hnone, (registerCalls_route _ Hrc) in Hreg.
    unfold registerCalls in Hreg. simpl in Hreg.
    assert (e1 = e) as -> by set_solver.
    split; [done|]. split; [done|].
    exists ours1, w1, pass, e5. rewrite app_nil_r.
    split; [done|]. split; [done|]. split; [|done].
    rewrite Hdc. apply rangeKeys_perm.
Qed.

Lemma failed_first_registration_deletes_the_routes_witness :
  let run :=
    @ProxyRoutes.monitorProxyRoutes Sim.World Lan.os Sim.range
      (Lan.net 1500) AF_INET Lan.tunnel Lan.proxies FirstFails.world in
  EvRegisterRouteChange (Err 5) ∈ run.2 ∧
  run.1.1.1 = Err 5 ∧ run.1.1.2 = ∅ ∧
  ∃ installed w1 pass rollback,
    @ProxyRoutes.doIt Sim.World Lan.os Sim.range (Lan.net 1500) AF_INET
      Lan.tunnel (ProxyRoutes.buildDestProxy AF_INET Lan.proxies) false ∅
      FirstFails.world
      = (None, installed, w1, pass) ∧
    run.2 = pass ++ [EvRegisterRouteChange (Err 5)] ++ rollback ∧
    (deleteCalls rollback).*1 ≡ₚ elements installed ∧
    Forall (λ ev, isRouteEvent ev = true) rollback ∧
    addCalls rollback = [].
Proof.
  intros run.
  assert (Hfirst : EvRegisterRouteChange (Err 5) ∈ run.2)
    by (vm_compute; repeat constructor).
  split; [exact Hfirst|].
  exact (@failed_first_registration_deletes_the_routes Sim.World Lan.os Sim.range
           (Lan.net 1500) AF_INET Lan.tunnel Lan.proxies FirstFails.world
           _ _ _ _ 5 (eta4 run) Hfirst).
Defined.

(** X13. [monitorProxyRoutes] returns callbacks only when its first pass
    returned [nil] and both registrations succeeded.  It returns the
    route-change callback, then the interface-change callback; [ourRoutes]
    is as the first pass left it, and after the pass nothing is called but
    the two registrations. *)
Theorem started_route_monitor_keeps_the_first_pass
    {W : Type} `{!Winipcfg W} `{!GoRange}
    (topo : Topology) (family : AddressFamily) (ourLUID : LUID)
    (proxies : list ProxyRoutes.proxy) (w : W) callbacks ourRoutes w' evs :
  ProxyRoutes.monitorProxyRoutes topo family ourLUID proxies w
    = (Ok callbacks, ourRoutes, w', evs) →
  ∃ cbr cbi w1 pass,
    callbacks = [cbr; cbi] ∧
    ProxyRoutes.doIt topo family ourLUID
      (ProxyRoutes.buildDestProxy family proxies) false ∅ w
      = (None, ourRoutes, w1, pass) ∧
    evs = pass ++ [EvRegisterRouteChange (Ok cbr); EvRegisterInterfaceChange (Ok cbi)].
Proof.
  intros Hrun. unfold ProxyRoutes.monitorProxyRoutes in Hrun.
  apply bind_run in Hrun as ([err ours1] & w1 & pass & e2 & Hpass & Hk & ->).
  destruct err as [e0|]; [by apply ret_run in Hk as ([=] & _)|].
  apply bind_run in Hk as (r1 & w2 & e3 & e4 & Hr1 & Hk & ->).
  unfold RegisterRouteChangeCallback in Hr1.
  destruct (osRegisterRouteChangeCallback w1) as [r1' w2'].
  injection Hr1 as <- <- <-.
  destruct r1' as [cbr|e1].
  - apply bind_run in Hk as (r2 & w3 & e5 & e6 & Hr2 & Hk & ->).
    unfold RegisterInterfaceChangeCallback in Hr2.
    destruct (osRegisterInterfaceChangeCallback w2') as [r2' w3'].
    injection Hr2 as <- <- <-.
    destruct r2' as [cbi|e2].
    + apply ret_run in Hk as ([= -> ->] & -> & ->).
      by exists cbr, cbi, w1, pass.
    + apply bind_run in Hk as (ours2 & w4 & e7 & e8 & Hun & Hk & ->).
      apply bind_run in Hk as (ours3 & w5 & e9 & e10 & Hclean & Hret & ->).
      by apply ret_run in Hret as ([=] & _).
  - apply bind_run in Hk as (ours2 & w3 & e5 & e6 & Hclean & Hret & ->).
    by apply ret_run in Hret as ([=] & _).
Qed.

Lemma started_route_monitor_keeps_the_first_pass_witness :
  let run :=
    @ProxyRoutes.monitorProxyRoutes Sim.World Lan.os Sim.range
      (Lan.net 1500) AF_INET Lan.tunnel Lan.proxies Sim.world0 in
  run = (Ok [1; 2], run.1.1.2, run.1.2, run.2) ∧
  ∃ cbr cbi w1 pass,
    [1; 2] = [cbr; cbi] ∧
    @ProxyRoutes.doIt Sim.World Lan.os Sim.range (Lan.net 1500) AF_INET
      Lan.tunnel (ProxyRoutes.buildDestProxy AF_INET Lan.proxies) false ∅
      Sim.world0
      = (None, run.1.1.2, w1, pass) ∧
    run.2 = pass ++ [EvRegisterRouteChange (Ok cbr); EvRegisterInterfaceChange (Ok cbi)].
Proof.
  intros run.
  assert (Hrun : run = (Ok [1; 2], run.1.1.2, run.1.2, run.2)) by reflexivity.
  split; [exact Hrun|].
  exact (@started_route_monitor_keeps_the_first_pass Sim.World Lan.os Sim.range
           (Lan.net 1500) AF_INET Lan.tunnel Lan.proxies Sim.world0
           _ _ _ _ Hrun).
Defined.

(** ** Passes with nothing to install *)

Lemma desiredRoutes_nil topo ourLUID dsts rows :
  dsts = [] ∨ Forall (λ r, ¬ upForeignDefault topo ourLUID r) rows →
  desiredRoutes topo ourLUID dsts rows = [].
Proof.
  unfold desiredRoutes. intros [-> | Hnone].
  - induction (filter _ rows) as [|r l IH]; [done|]. simpl. exact IH.
  - rewrite filter_none; [done|].
    eapply Forall_impl; [exact Hnone|]. intros r Hr Hup.
    by apply Hr, foreignDefaultUp_spec.
Qed.

(** X14. When no resolved address is of the monitor's family, or no
    default route of the snapshot goes over a foreign interface that is up,
    a pass adds nothing, calls [DeleteRoute] once for every tracked route
    and tracks nothing afterwards. *)
Theorem pass_withdraws_every_route_when_none_is_wanted
    {W : Type} `{!Winipcfg W} `{!GoRange}
    (topo : Topology) (family : AddressFamily) (ourLUID : LUID)
    (destProxy : gmap Prefix (list ProxyRoutes.proxyRef)) (restart : bool)
    (ourRoutes : gset luidRouteData) (rows : list MibIPforwardRow2)
    (w : W) err ourRoutes' w' evs :
  GetIPForwardTable2 topo family = Ok rows →
  ProxyRoutes.doIt topo family ourLUID destProxy restart ourRoutes w
    = (err, ourRoutes', w', evs) →
  destProxy = ∅ ∨ Forall (λ r, ¬ upForeignDefault topo ourLUID r) rows →
  err = None ∧ addCalls evs = [] ∧ ourRoutes' = ∅ ∧
  (deleteCalls evs).*1 ≡ₚ elements ourRoutes.
Proof.
  intros Htable Hrun Hnone.
  apply (doIt_run _ _ _ _ _ _ rows) in Hrun as (-> & Hadds & -> & Hdels & _);
    [|done].
  rewrite desiredRoutes_nil in Hadds.
  2:{ destruct Hnone as [-> | Hnone]; [left|by right].
      apply Permutation_nil_r. rewrite rangeKeys_perm, dom_empty_L.
      by rewrite elements_empty. }
  apply fmap_nil_inv in Hadds. rewrite Hadds in *.
  split; [done|]. split; [done|]. split; [done|].
  rewrite Hdels, <- rangeKeys_perm. clear.
  induction (rangeKeys ourRoutes) as [|k l IH]; [done|].
  rewrite filter_cons, decide_True by (unfold kept; set_solver).
  by rewrite IH.
Qed.

Lemma pass_withdraws_every_route_when_none_is_wanted_witness :
  let run :=
    @ProxyRoutes.doIt Sim.World Lan.os Sim.range (Lan.net 1500) AF_INET
      Lan.tunnel ∅ true {[Faulty.stale]} Sim.world0 in
  GetIPForwardTable2 (Lan.net 1500) AF_INET = Ok [Lan.own; Lan.uplink] ∧
  ((∅ : gmap Prefix (list ProxyRoutes.proxyRef)) = ∅ ∨
   Forall (λ r, ¬ upForeignDefault (Lan.net 1500) Lan.tunnel r)
     [Lan.own; Lan.uplink]) ∧
  run.1.1.1 = None ∧ addCalls run.2 = [] ∧ run.1.1.2 = ∅ ∧
  (deleteCalls run.2).*1 ≡ₚ elements ({[Faulty.stale]} : gset luidRouteData).
Proof.
  intros run.
  assert (Hnone : (∅ : gmap Prefix (list ProxyRoutes.proxyRef)) = ∅ ∨
            Forall (λ r, ¬ upForeignDefault (Lan.net 1500) Lan.tunnel r)
              [Lan.own; Lan.uplink]) by (left; reflexivity).
  split; [reflexivity|]. split; [exact Hnone|].
  exact (@pass_withdraws_every_route_when_none_is_wanted Sim.World Lan.os Sim.range
           (Lan.net 1500) AF_INET Lan.tunnel ∅ true {[Faulty.stale]}
           [Lan.own; Lan.uplink] Sim.world0 _ _ _ _ eq_refl (eta4 run) Hnone).
Defined.

(** X15. When the forwarding table cannot be read, a pass of either monitor
    returns the error of the read, makes no call and leaves its variables
    as they were; at the start of either monitor no registration is then
    attempted and the error is returned. *)
Theorem unreadable_table_fails_the_pass_and_changes_nothing
    {W : Type} `{!Winipcfg W} `{!GoRange}
    (topo : Topology) (family : AddressFamily) (ourLUID : LUID) (e : Errno)
    (st : MTUMonitor.state)
    (destProxy : gmap Prefix (list ProxyRoutes.proxyRef)) (restart : bool)
    (ourRoutes : gset luidRouteData) (proxies : list ProxyRoutes.proxy) (w : W) :
  GetIPForwardTable2 topo family = Err e →
  MTUMonitor.doIt topo family ourLUID st w = (Some e, st, w, []) ∧
  ProxyRoutes.doIt topo family ourLUID destProxy restart ourRoutes w
    = (Some e, ourRoutes, w, []) ∧
  MTUMonitor.monitorMTU topo family ourLUID w = (Err e, MTUMonitor.state0, w, []) ∧
  ProxyRoutes.monitorProxyRoutes topo family ourLUID proxies w = (Err e, ∅, w, []).
Proof.
  intros Htable.
  split; [by apply mtu_doIt_fail|]. split; [by apply doIt_fail|]. split.
  - unfold MTUMonitor.monitorMTU, bind.
    by rewrite (mtu_doIt_fail _ _ _ _ e) by done.
  - unfold ProxyRoutes.monitorProxyRoutes, bind.
    by rewrite (doIt_fail _ _ _ _ _ _ e) by done.
Qed.

Lemma unreadable_table_fails_the_pass_and_changes_nothing_witness :
  GetIPForwardTable2 Lan.unreadable AF_INET = Err 5 ∧
  @MTUMonitor.doIt Sim.World Lan.os Lan.unreadable AF_INET Lan.tunnel
    MTUMonitor.state0 Sim.world0
  = (Some 5, MTUMonitor.state0, Sim.world0, []) ∧
  @ProxyRoutes.doIt Sim.World Lan.os Sim.range Lan.unreadable AF_INET Lan.tunnel
    (ProxyRoutes.buildDestProxy AF_INET Lan.proxies) true {[Faulty.stale]} Sim.world0
  = (Some 5, {[Faulty.stale]}, Sim.world0, []) ∧
  @MTUMonitor.monitorMTU Sim.World Lan.os Lan.unreadable AF_INET Lan.tunnel
    Sim.world0
  = (Err 5, MTUMonitor.state0, Sim.world0, []) ∧
  @ProxyRoutes.monitorProxyRoutes Sim.World Lan.os Sim.range Lan.unreadable
    AF_INET Lan.tunnel Lan.proxies Sim.world0
  = (Err 5, ∅, Sim.world0, []).
Proof.
  split; [reflexivity|].
  exact (@unreadable_table_fails_the_pass_and_changes_nothing Sim.World Lan.os
           Sim.range Lan.unreadable AF_INET Lan.tunnel 5 MTUMonitor.state0
           (ProxyRoutes.buildDestProxy AF_INET Lan.proxies) true {[Faulty.stale]}
           Lan.proxies Sim.world0 eq_refl).
Defined.

(** ** Each monitor keeps to its own calls *)

Section Frames.
Context {W : Type} `{!Winipcfg W} `{!GoRange}.

Lemma setCalls_route evs :
  Forall (λ ev, isRouteEvent ev = true) evs → setCalls evs = [].
Proof.
  induction 1 as [|ev evs Hev _ IH]; [done|].
  destruct ev; try done; exact IH.
Qed.

Lemma doIt_route_events topo family ourLUID dp restart ours (w : W) err ours' w' evs :
  ProxyRoutes.doIt topo family ourLUID dp restart ours w = (err, ours', w', evs) →
  Forall (λ ev, isRouteEvent ev = true) evs.
Proof.
  intros Hrun.
  destruct (GetIPForwardTable2 topo family) as [rows|e] eqn:Htable.
  - by destruct (doIt_run _ _ _ _ _ _ _ _ _ _ _ _ Htable Hrun) as (_ & _ & _ & _ & _ & Hr).
  - rewrite (doIt_fail _ _ _ _ _ _ e) in Hrun by done.
    by injection Hrun as <- <- <- <-.
Qed.

Lemma Unregister_cleanIt_setCalls h ours (w : W) ours' w' evs :
  Unregister h (Some ProxyRoutes.cleanIt) ours w = (ours', w', evs) →
  setCalls evs = [].
Proof.
  unfold Unregister. intros Hrun.
  destruct cleanupPolicy.
  - apply bind_run in Hrun as (uerr & w1 & e1 & e2 & Hos & Hret & ->).
    apply ret_run in Hret as (-> & -> & ->).
    destruct (osUnregister h w) as [uerr' w1'].
    by injection Hos as <- <- <-.
  - apply bind_run in Hrun as (ours1 & w1 & e1 & e2 & Hclean & Hk & ->).
    apply bind_run in Hk as (uerr & w2 & e3 & e4 & Hos & Hret & ->).
    apply ret_run in Hret as (-> & -> & ->).
    destruct (osUnregister h w1) as [uerr' w1'].
    injection Hos as <- <- <-.
    apply cleanIt_run in Hclean as (_ & _ & _ & _ & Hr).
    by rewrite !setCalls_app, (setCalls_route _ Hr).
  - apply bind_run in Hrun as (uerr & w1 & e1 & e2 & Hos & Hclean & ->).
    destruct (osUnregister h w) as [uerr' w1'].
    injection Hos as <- <- <-.
    apply cleanIt_run in Hclean as (_ & _ & _ & _ & Hr).
    by rewrite setCalls_app, (setCalls_route _ Hr).
Qed.

Lemma monitorProxyRoutes_setCalls topo family ourLUID proxies (w : W) res ours w' evs :
  ProxyRoutes.monitorProxyRoutes topo family ourLUID proxies w = (res, ours, w', evs) →
  setCalls evs = [].
Proof.
  intros Hrun. unfold ProxyRoutes.monitorProxyRoutes in Hrun.
  apply bind_run in Hrun as ([err ours1] & w1 & pass & e2 & Hpass & Hk & ->).
  apply doIt_route_events, setCalls_route in Hpass.
  rewrite setCalls_app, Hpass. simpl.
  destruct err as [e0|]; [by apply ret_run in Hk as (_ & _ & ->)|].
  apply bind_run in Hk as (r1 & w2 & e3 & e4 & Hr1 & Hk & ->).
  unfold RegisterRouteChangeCallback in Hr1.
  destruct (osRegisterRouteChangeCallback w1) as [r1' w2'].
  injection Hr1 as <- <- <-. rewrite setCalls_app. simpl.
  destruct r1' as [cbr|e1].
  - apply bind_run in Hk as (r2 & w3 & e5 & e6 & Hr2 & Hk & ->).
    unfold RegisterInterfaceChangeCallback in Hr2.
    destruct (osRegisterInterfaceChangeCallback w2') as [r2' w3'].
    injection Hr2 as <- <- <-. rewrite setCalls_app. simpl.
    destruct r2' as [cbi|e2'].
    + by apply ret_run in Hk as (_ & _ & ->).
    + apply bind_run in Hk as (ours2 & w4 & e7 & e8 & Hun & Hk & ->).
      apply bind_run in Hk as (ours3 & w5 & e9 & e10 & Hclean & Hret & ->).
      apply ret_run in Hret as (_ & _ & ->).
      apply Unregister_cleanIt_setCalls in Hun.
      apply cleanIt_run in Hclean as (_ & _ & _ & _ & Hr).
      by rewrite !setCalls_app, Hun, (setCalls_route _ Hr).
  - apply bind_run in Hk as (ours2 & w3 & e5 & e6 & Hclean & Hret & ->).
    apply ret_run in Hret as (_ & _ & ->).
    apply cleanIt_run in Hclean as (_ & _ & _ & _ & Hr).
    by rewrite !setCalls_app, (setCalls_route _ Hr).
Qed.

(** The events of one MTU pass: nothing, or one write of the tunnel's row. *)
Lemma mtu_doIt_events topo family ourLUID st (w : W) err st' w' evs :
  MTUMonitor.doIt topo family ourLUID st w = (err, st', w', evs) →
  evs = [] ∨ ∃ row, evs = [EvSetIPInterface ourLUID family row err].
Proof.
  intros Hrun.
  destruct (GetIPForwardTable2 topo family) as [rows|e] eqn:Htable.
  - destruct (mtu_doIt_run _ _ _ _ _ _ _ _ _ _ Htable Hrun) as (_ & _ & Hcase).
    destruct (MTUMonitor.physicalMTU topo (MTUMonitor.lastLUID st')) as [mtu|e];
      [|left; tauto].
    destruct ((0 <? mtu) && negb (MTUMonitor.lastMTU st =? mtu)); [|left; tauto].
    destruct (IPInterface topo ourLUID family) as [iface|e]; [|left; tauto].
    right. destruct Hcase as [-> _]. by eexists.
  - rewrite (mtu_doIt_fail _ _ _ _ e) in Hrun by done.
    injection Hrun as <- <- <- <-. by left.
Qed.

End Frames.

(** X16. No entry point of the route monitor (its start, its two callbacks,
    its cleanup) writes the row of an interface. *)
Theorem route_monitor_never_writes_an_interface_row
    {W : Type} `{!Winipcfg W} `{!GoRange} (evs : list Event) :
  routeMonitorTrace evs → setCalls evs = [].
Proof.
  intros [topo family ourLUID proxies w res ours w' evs' Hrun
         |topo family ourLUID dp nt route ours w ours' w' evs' Hrun
         |topo family ourLUID dp nt ours w ours' w' evs' Hrun
         |ours w ours' w' evs' Hrun].
  - by apply monitorProxyRoutes_setCalls in Hrun.
  - unfold ProxyRoutes.onRouteChange in Hrun.
    destruct route as [r|]; [|by apply ret_run in Hrun as (_ & _ & ->)].
    destruct (PrefixLength r =? 0); [|by apply ret_run in Hrun as (_ & _ & ->)].
    apply bind_run in Hrun as ([err o] & w1 & e1 & e2 & Hpass & Hret & ->).
    apply ret_run in Hret as (_ & _ & ->).
    apply doIt_route_events, setCalls_route in Hpass.
    by rewrite setCalls_app, Hpass.
  - unfold ProxyRoutes.onInterfaceChange in Hrun.
    case_bool_decide; [|by apply ret_run in Hrun as (_ & _ & ->)].
    apply bind_run in Hrun as ([err o] & w1 & e1 & e2 & Hpass & Hret & ->).
    apply ret_run in Hret as (_ & _ & ->).
    apply doIt_route_events, setCalls_route in Hpass.
    by rewrite setCalls_app, Hpass.
  - apply cleanIt_run in Hrun as (_ & _ & _ & _ & Hr).
    by apply setCalls_route.
Qed.

Lemma route_monitor_never_writes_an_interface_row_witness :
  let run :=
    @ProxyRoutes.monitorProxyRoutes Sim.World Lan.os Sim.range
      (Lan.net 1500) AF_INET Lan.tunnel Lan.proxies SecondFails.world in
  @routeMonitorTrace Sim.World Lan.os Sim.range run.2 ∧ setCalls run.2 = [].
Proof.
  intros run.
  assert (Htrace : @routeMonitorTrace Sim.World Lan.os Sim.range run.2)
    by exact (routeTrace_start _ _ _ _ _ _ _ _ _ (eta4 run)).
  split; [exact Htrace|].
  exact (@route_monitor_never_writes_an_interface_row Sim.World Lan.os Sim.range
           run.2 Htrace).
Defined.

(** X17. No entry point of the MTU monitor (its start, its two callbacks)
    adds or deletes a route or writes a log line, and each writes the row
    of the tunnel interface at most once. *)
Theorem mtu_monitor_only_writes_the_tunnel_row_once
    {W : Type} `{!Winipcfg W} (evs : list Event) :
  mtuMonitorTrace evs →
  addCalls evs = [] ∧ deleteCalls evs = [] ∧ logLines evs = [] ∧
  (length (setCalls evs) ≤ 1)%nat.
Proof.
  assert (Hpass : ∀ topo family ourLUID st (w : W) err st' w' evs',
            MTUMonitor.doIt topo family ourLUID st w = (err, st', w', evs') →
            addCalls evs' = [] ∧ deleteCalls evs' = [] ∧ logLines evs' = [] ∧
            (length (setCalls evs') ≤ 1)%nat).
  { intros topo family ourLUID st w err st' w' evs' Hrun.
    apply mtu_doIt_events in Hrun as [-> | [row ->]]; simpl; repeat split; lia. }
  intros [topo family ourLUID w res st w' evs' Hrun
         |topo family ourLUID nt route st w st' w' evs' Hrun
         |topo family ourLUID nt st w st' w' evs' Hrun].
  - unfold MTUMonitor.monitorMTU in Hrun.
    apply bind_run in Hrun as ([err st1] & w1 & pass & e2 & Hrun & Hk & ->).
    apply Hpass in Hrun as (Ha & Hd & Hl & Hs).
    rewrite addCalls_app, deleteCalls_app, logLines_app, setCalls_app,
      length_app, Ha, Hd, Hl. simpl.
    destruct err as [e0|].
    { apply ret_run in Hk as (_ & _ & ->). simpl. repeat split; lia. }
    apply bind_run in Hk as (r1 & w2 & e3 & e4 & Hr1 & Hk & ->).
    unfold RegisterRouteChangeCallback in Hr1.
    destruct (osRegisterRouteChangeCallback w1) as [r1' w2'].
    injection Hr1 as <- <- <-.
    rewrite addCalls_app, deleteCalls_app, logLines_app, setCalls_app, length_app.
    simpl.
    destruct r1' as [cbr|e1].
    2:{ apply ret_run in Hk as (_ & _ & ->). simpl. repeat split; lia. }
    apply bind_run in Hk as (r2 & w3 & e5 & e6 & Hr2 & Hk & ->).
    unfold RegisterInterfaceChangeCallback in Hr2.
    destruct (osRegisterInterfaceChangeCallback w2') as [r2' w3'].
    injection Hr2 as <- <- <-.
    rewrite addCalls_app, deleteCalls_app, logLines_app, setCalls_app, length_app.
    simpl.
    destruct r2' as [cbi|e2'].
    { apply ret_run in Hk as (_ & _ & ->). simpl. repeat split; lia. }
    apply bind_run in Hk as (st2 & w4 & e7 & e8 & Hun & Hret & ->).
    apply ret_run in Hret as (_ & _ & ->).
    unfold Unregister in Hun.
    assert (e7 = [EvUnregister cbr (osUnregister cbr w3').1]) as ->.
    { destruct cleanupPolicy;
        apply bind_run in Hun as (uerr & w5 & e9 & e10 & Hos & Hret & ->);
        apply ret_run in Hret as (_ & _ & ->);
        destruct (osUnregister cbr w3') as [uerr' w5'];
        by injection Hos as <- <- <-. }
    simpl. repeat split; lia.
  - unfold MTUMonitor.onRouteChange in Hrun.
    destruct route as [r|];
      [|apply ret_run in Hrun as (_ & _ & ->); simpl; repeat split; lia].
    destruct (PrefixLength r =? 0);
      [|apply ret_run in Hrun as (_ & _ & ->); simpl; repeat split; lia].
    apply bind_run in Hrun as ([err o] & w1 & e1 & e2 & Hrun & Hret & ->).
    apply ret_run in Hret as (_ & _ & ->). rewrite app_nil_r. by eapply Hpass.
  - unfold MTUMonitor.onInterfaceChange in Hrun.
    case_bool_decide;
      [|apply ret_run in Hrun as (_ & _ & ->); simpl; repeat split; lia].
    apply bind_run in Hrun as ([err o] & w1 & e1 & e2 & Hrun & Hret & ->).
    apply ret_run in Hret as (_ & _ & ->). rewrite app_nil_r. by eapply Hpass.
Qed.

Lemma mtu_monitor_only_writes_the_tunnel_row_once_witness :
  let run :=
    @MTUMonitor.monitorMTU Sim.World Lan.os (Lan.net 1500) AF_INET Lan.tunnel
      SecondFails.world in
  @mtuMonitorTrace Sim.World Lan.os run.2 ∧
  addCalls run.2 = [] ∧ deleteCalls run.2 = [] ∧ logLines run.2 = [] ∧
  (length (setCalls run.2) ≤ 1)%nat.
Proof.
  intros run.
  assert (Htrace : @mtuMonitorTrace Sim.World Lan.os run.2)
    by exact (mtuTrace_start _ _ _ _ _ _ _ _ (eta4 run)).
  split; [exact Htrace|].
  exact (@mtu_monitor_only_writes_the_tunnel_row_once Sim.World Lan.os
           run.2 Htrace).
Defined.

(** ** The map of destinations *)

Lemma addDestination_lookup family i m a d :
  default [] (ProxyRoutes.addDestination family i m a !! d)
  = default [] (m !! d) ++
    ((λ _, i) <$> filter (λ a, familyAccepts family a = true ∧
                               PrefixFrom a (BitLen a) = d) [a]).
Proof.
  unfold ProxyRoutes.addDestination. rewrite filter_cons, filter_nil.
  destruct (decide (familyAccepts family a = true ∧ PrefixFrom a (BitLen a) = d))
    as [[Hacc <-]|Hn].
  - unfold familyAccepts in Hacc. apply andb_true_iff in Hacc as [H4 H6].
    apply negb_true_iff in H4, H6. rewrite H4, H6.
    by rewrite lookup_insert_eq.
  - destruct ((family =? AF_INET) && negb (Is4 a)) eqn:H4;
      [simpl; by rewrite app_nil_r|].
    destruct ((family =? AF_INET6) && negb (Is6 a)) eqn:H6;
      [simpl; by rewrite app_nil_r|].
    rewrite lookup_insert_ne; [simpl; by rewrite app_nil_r|].
    intros Heq. apply Hn. split; [|done]. unfold familyAccepts. by rewrite H4, H6.
Qed.

Lemma addDestination_nonempty family i m a :
  (∀ d, m !! d ≠ Some []) →
  ∀ d, ProxyRoutes.addDestination family i m a !! d ≠ Some [].
Proof.
  intros Hm d. unfold ProxyRoutes.addDestination.
  destruct ((family =? AF_INET) && negb (Is4 a)); [apply Hm|].
  destruct ((family =? AF_INET6) && negb (Is6 a)); [apply Hm|].
  destruct (decide (PrefixFrom a (BitLen a) = d)) as [<-|Hne].
  - rewrite lookup_insert_eq. intros [= Heq]. by apply app_nil in Heq as [_ ?].
  - rewrite lookup_insert_ne by done. apply Hm.
Qed.

Lemma addDestinations_lookup family i addrs d : ∀ m,
  default [] (foldl (ProxyRoutes.addDestination family i) m addrs !! d)
  = default [] (m !! d) ++
    ((λ _, i) <$> filter (λ a, familyAccepts family a = true ∧
                               PrefixFrom a (BitLen a) = d) addrs).
Proof.
  induction addrs as [|a addrs IH]; intros m; cbn [foldl].
  - by rewrite filter_nil, app_nil_r.
  - rewrite IH, addDestination_lookup, <- app_assoc, <- fmap_app.
    by rewrite <- filter_app.
Qed.

Lemma addDestinations_nonempty family i addrs : ∀ m,
  (∀ d, m !! d ≠ Some []) →
  ∀ d, foldl (ProxyRoutes.addDestination family i) m addrs !! d ≠ Some [].
Proof.
  induction addrs as [|a addrs IH]; intros m Hm; simpl; [done|].
  by apply IH, addDestination_nonempty.
Qed.

(** X18. Under each destination, [destProxy] lists the proxies that
    resolved to it, in the order of [proxies], once for every address of
    the proxy that passes the family tests and has that prefix; no
    destination has an empty list. *)
Theorem destProxy_lists_the_proxies_of_each_destination
    (family : AddressFamily) (proxies : list ProxyRoutes.proxy) (d : Prefix) :
  default [] (ProxyRoutes.buildDestProxy family proxies !! d)
    = flat_map (servedBy family d) (imap pair proxies) ∧
  ProxyRoutes.buildDestProxy family proxies !! d ≠ Some [].
Proof.
  unfold ProxyRoutes.buildDestProxy.
  assert (Hfold : ∀ (l : list (nat * ProxyRoutes.proxy)) m,
            (∀ d, m !! d ≠ Some []) →
            default []
              (foldl (λ m ip, foldl (ProxyRoutes.addDestination family ip.1) m
                                    (ProxyRoutes.Addresses ip.2)) m l !! d)
            = default [] (m !! d) ++ flat_map (servedBy family d) l ∧
            foldl (λ m ip, foldl (ProxyRoutes.addDestination family ip.1) m
                                 (ProxyRoutes.Addresses ip.2)) m l !! d ≠ Some []).
  { induction l as [|ip l IH]; intros m Hm; cbn [foldl flat_map].
    - by rewrite app_nil_r.
    - destruct (IH (foldl (ProxyRoutes.addDestination family ip.1) m
                          (ProxyRoutes.Addresses ip.2))) as [Hl Hne].
      { by apply addDestinations_nonempty. }
      split; [|done]. unfold servedBy at 1.
      etrans; [exact Hl|]. by rewrite addDestinations_lookup, <- app_assoc. }
  destruct (Hfold (imap pair proxies) ∅) as [Hl Hne].
  { intros d'. by rewrite lookup_empty. }
  split; [|done]. etrans; [exact Hl|]. by rewrite lookup_empty.
Qed.

(** ** proxy.go: spawnProxies *)

Section SpawnFacts.
Context `{!AddressList.Environment}.
Import AddressList.

Lemma parseAll_ok pips : ∀ acc l,
  Spawn.parseAll pips acc = Ok l →
  l = acc ++ parsed pips ∧
  Forall2 (λ ip addr, ParseAddr ip = Ok addr) pips (parsed pips).
Proof.
  unfold parsed.
  induction pips as [|ip pips IH]; intros acc l Hrun; simpl in *.
  - injection Hrun as <-. by rewrite app_nil_r.
  - destruct (ParseAddr ip) as [addr|e] eqn:Hip; [|done]. simpl.
    apply IH in Hrun as [-> Hall]. unfold append. rewrite <- app_assoc.
    split; [done|]. by constructor.
Qed.

Lemma peerAddresses_unproxied peer :
  proxied peer = false → peerAddresses peer = [].
Proof. unfold proxied, peerAddresses. by intros ->. Qed.

Lemma spawnEach_ok peers : ∀ acc proxies,
  Spawn.spawnEach peers acc = Ok proxies →
  proxies = acc ++ (proxyOf <$> filter (λ peer, proxied peer = true) peers) ∧
  Forall (λ peer, proxied peer = true → comesUp peer) peers.
Proof.
  induction peers as [|peer peers IH]; intros acc proxies Hrun; simpl in Hrun.
  - injection Hrun as <-. by rewrite app_nil_r.
  - rewrite filter_cons. fold (proxied peer) in Hrun.
    destruct (proxied peer) eqn:Hp.
    + rewrite decide_True by done.
      destruct (urlHostname (ProxyEndpoint peer)) as [host|e] eqn:Hhost; [|done].
      destruct (LookupHost host) as [pips|e] eqn:Hpips; [|done].
      destruct (Spawn.parseAll pips []) as [addresses|e] eqn:Hparse; [|done].
      destruct (proxyReady peer pips) as [e|] eqn:Hready; [done|].
      apply parseAll_ok in Hparse as [-> Hall]. simpl in Hrun.
      apply IH in Hrun as [-> Hrest].
      assert (Haddrs : peerAddresses peer = parsed pips).
      { unfold peerAddresses. fold (proxied peer). by rewrite Hp, Hhost, Hpips. }
      split.
      * unfold append, proxyOf. rewrite <- app_assoc. simpl. by rewrite Haddrs.
      * constructor; [|done]. intros _. exists host, pips. by rewrite Haddrs.
    + rewrite decide_False by done.
      apply IH in Hrun as [-> Hrest]. split; [done|].
      constructor; [intros ?; congruence|done].
Qed.

Lemma parse_agree pips : ∀ acc m,
  match Spawn.parseAll pips acc, parseInto pips m with
  | Ok _, Ok _ => True
  | Err e, Err e' => e = e'
  | _, _ => False
  end.
Proof.
  induction pips as [|ip pips IH]; intros acc m; simpl; [done|].
  destruct (ParseAddr ip) as [addr|e]; [|done].
  case_bool_decide; apply IH.
Qed.

Lemma spawn_agree `{!GoRange} peers : ∀ acc m,
  match Spawn.spawnEach peers acc, resolvePeers peers m with
  | Ok _, Ok _ => True
  | Err e, Err e' => e = e'
  | _, _ => False
  end.
Proof.
  induction peers as [|peer peers IH]; intros acc m; simpl; [done|].
  destruct (0 <? String.length (ProxyEndpoint peer))%nat; [|apply IH].
  destruct (urlHostname (ProxyEndpoint peer)) as [host|e]; [|done].
  destruct (LookupHost host) as [pips|e]; [|done].
  pose proof (parse_agree pips [] m) as Hparse.
  destruct (Spawn.parseAll pips []) as [addresses|e],
           (parseInto pips m) as [m'|e']; try done.
  destruct (proxyReady peer pips); [done|]. apply IH.
Qed.

Lemma resolved_proxyOf peers a :
  resolved (proxyOf <$> filter (λ peer, proxied peer = true) peers) a ↔
  a ∈ flat_map peerAddresses peers.
Proof.
  unfold resolved. rewrite list_elem_of_In, in_flat_map. split.
  - intros (p & Hp & Ha).
    apply list_elem_of_fmap in Hp as (peer & -> & Hin).
    apply list_elem_of_filter in Hin as [_ Hin].
    exists peer. by rewrite <- !list_elem_of_In.
  - intros (peer & Hin & Ha).
    apply list_elem_of_In in Hin. apply list_elem_of_In in Ha.
    exists (proxyOf peer). split; [|done].
    apply list_elem_of_fmap. exists peer. split; [done|].
    apply list_elem_of_filter. split; [|done].
    destruct (proxied peer) eqn:Hp; [done|].
    rewrite peerAddresses_unproxied in Ha by done. by inversion Ha.
Qed.

End SpawnFacts.

(** X19. When [spawnProxies] succeeds it returns one proxy for every peer
    with a proxy endpoint, in the order of the peers: the proxy listens on
    the peer's endpoint and has, in the resolver's order and with
    repetitions, the addresses the proxy endpoint resolved to.  Every such
    peer resolved, all its answers parsed, and its proxy reported ready. *)
Theorem spawned_proxies_follow_the_peers
    `{!AddressList.Environment} (conf : AddressList.Config)
    (proxies : list ProxyRoutes.proxy) :
  Spawn.spawnProxies conf = Ok proxies →
  proxies = proxyOf <$> filter (λ peer, proxied peer = true) (AddressList.Peers conf) ∧
  Forall (λ peer, proxied peer = true → comesUp peer) (AddressList.Peers conf).
Proof. unfold Spawn.spawnProxies. intros Hrun. by apply spawnEach_ok in Hrun. Qed.

Lemma spawned_proxies_follow_the_peers_witness :
  let proxies :=
    [ {| ProxyRoutes.Listen := "127.0.0.1:51820"%string;
         ProxyRoutes.Addresses :=
           [Addr4 3405803785;
            Addr6 42540766411282592856903984951653826561 EmptyString;
            Addr4 3405803785] |} ] in
  @Spawn.spawnProxies Resolved.env Resolved.conf = Ok proxies ∧
  proxies = @proxyOf Resolved.env <$>
              filter (λ peer, proxied peer = true) (AddressList.Peers Resolved.conf) ∧
  Forall (λ peer, proxied peer = true → @comesUp Resolved.env peer)
         (AddressList.Peers Resolved.conf).
Proof.
  intros proxies.
  assert (Hrun : @Spawn.spawnProxies Resolved.env Resolved.conf = Ok proxies)
    by reflexivity.
  split; [exact Hrun|].
  exact (@spawned_proxies_follow_the_peers Resolved.env Resolved.conf proxies Hrun).
Defined.

(** X20. The two variants of [spawnProxies] fail on the same configurations
    and with the same error.  Where they succeed, the list of addresses of
    the one holds the addresses of the proxies of the other, and besides
    them only the zero address, which it holds when there is an address
    at all. *)
Theorem spawnProxies_variants_agree
    `{!AddressList.Environment} `{!GoRange} (conf : AddressList.Config) :
  match Spawn.spawnProxies conf, AddressList.spawnProxies conf with
  | Ok proxies, Ok addrs =>
      ∀ a, a ∈ addrs ↔
           (a = AddrZero ∧ ∃ a', resolved proxies a') ∨ resolved proxies a
  | Err e, Err e' => e = e'
  | _, _ => False
  end.
Proof.
  unfold Spawn.spawnProxies, AddressList.spawnProxies.
  pose proof (spawn_agree (AddressList.Peers conf) [] ∅) as Hagree.
  destruct (Spawn.spawnEach (AddressList.Peers conf) []) as [proxies|e] eqn:Hnew,
           (AddressList.resolvePeers (AddressList.Peers conf) ∅) as [m|e'] eqn:Hold;
    try done.
  apply spawnEach_ok in Hnew as [-> _]. apply resolvePeers_ok in Hold as ->.
  rewrite (left_id_L ∅ (∪)). simpl.
  set (l := flat_map AddressList.peerAddresses (AddressList.Peers conf)).
  assert (Hres : ∀ a, resolved
            (proxyOf <$> filter (λ peer, proxied peer = true) (AddressList.Peers conf)) a
            ↔ a ∈ l) by (intros a; apply resolved_proxyOf).
  intros a. rewrite foldl_append, elem_of_app, elem_of_rangeKeys,
    elem_of_list_to_set, Hres.
  assert (Hzero : a ∈ replicate (size (list_to_set l : gset Addr)) AddrZero ↔
                  a = AddrZero ∧ ∃ a', a' ∈ l).
  { rewrite elem_of_replicate. split.
    - intros [-> Hsize]. split; [done|].
      apply size_non_empty_iff, set_choose in Hsize as [a' Ha'].
      exists a'. by apply elem_of_list_to_set in Ha'.
    - intros [-> [a' Ha']]. split; [done|].
      apply size_non_empty_iff. intros Hempty.
      assert (a' ∈ (list_to_set l : gset Addr)) as Hin
        by by apply elem_of_list_to_set.
      apply Hempty in Hin. by apply elem_of_empty in Hin. }
  rewrite Hzero. split.
  - intros [[-> [a' Ha']]|Ha]; [left|by right].
    split; [done|]. exists a'. by apply Hres.
  - intros [[-> [a' Ha']]|Ha]; [left|by right].
    split; [done|]. exists a'. by apply Hres.
Qed.

(** X21. From a configuration to the routes: when [spawnProxies] succeeds,
    the destinations [monitorProxyRoutes] installs routes to, for IPv4 or
    IPv6, are the host prefixes of the addresses of that family that the
    proxy endpoints of the configuration resolve to. *)
Theorem destinations_are_the_resolved_addresses_of_the_family
    `{!AddressList.Environment} (conf : AddressList.Config)
    (proxies : list ProxyRoutes.proxy) (family : AddressFamily) (d : Prefix) :
  Spawn.spawnProxies conf = Ok proxies →
  family = AF_INET ∨ family = AF_INET6 →
  d ∈ dom (ProxyRoutes.buildDestProxy family proxies) ↔
  ∃ a, a ∈ AddressList.resolvedAddresses conf ∧ inFamily family a ∧ d = hostPrefix a.
Proof.
  unfold Spawn.spawnProxies. intros Hrun Hfamily.
  apply spawnEach_ok in Hrun as [-> _]. simpl.
  rewrite buildDestProxy_dom. unfold AddressList.resolvedAddresses.
  split.
  - intros (a & Ha & Hacc & ->). exists a.
    apply resolved_proxyOf in Ha. apply familyAccepts_inFamily in Hacc; [|done].
    split; [by apply elem_of_list_to_set|]. split; [done|].
    by apply (hostPrefix_PrefixFrom family).
  - intros (a & Ha & Hin & ->). exists a.
    apply elem_of_list_to_set in Ha.
    split; [by apply resolved_proxyOf|].
    split; [by apply familyAccepts_inFamily|].
    symmetry. by apply (hostPrefix_PrefixFrom family).
Qed.

Lemma destinations_are_the_resolved_addresses_of_the_family_witness :
  let proxies :=
    [ {| ProxyRoutes.Listen := "127.0.0.1:51820"%string;
         ProxyRoutes.Addresses :=
           [Addr4 3405803785;
            Addr6 42540766411282592856903984951653826561 EmptyString;
            Addr4 3405803785] |} ] in
  @Spawn.spawnProxies Resolved.env Resolved.conf = Ok proxies ∧
  (AF_INET = AF_INET ∨ AF_INET = AF_INET6) ∧
  (hostPrefix (Addr4 3405803785) ∈ dom (ProxyRoutes.buildDestProxy AF_INET proxies) ↔
   ∃ a, a ∈ @AddressList.resolvedAddresses Resolved.env Resolved.conf ∧
        inFamily AF_INET a ∧ hostPrefix (Addr4 3405803785) = hostPrefix a).
Proof.
  intros proxies.
  assert (Hrun : @Spawn.spawnProxies Resolved.env Resolved.conf = Ok proxies)
    by reflexivity.
  assert (Hfamily : AF_INET = AF_INET ∨ AF_INET = AF_INET6) by (left; reflexivity).
  split; [exact Hrun|]. split; [exact Hfamily|].
  exact (@destinations_are_the_resolved_addresses_of_the_family Resolved.env
           Resolved.conf proxies AF_INET (hostPrefix (Addr4 3405803785))
           Hrun Hfamily).
Defined.

(** ** monitorProxyRoutes, the variant that takes the list of addresses *)

Section Simulation.
Context {W : Type}.

Lemma forEach_onResult {A S T} (f : S → T)
    (body1 : T → A → M W T) (body2 : S → A → M W S) :
  (∀ s x w, body1 (f s) x w = onResult f (body2 s x) w) →
  ∀ l s w, forEach body1 l (f s) w = onResult f (forEach body2 l s) w.
Proof.
  intros Hbody. induction l as [|x l IH]; intros s w; cbn [forEach]; [done|].
  unfold bind, onResult in *. rewrite Hbody.
  destruct (body2 s x w) as [[s1 w1] e1]. rewrite IH.
  by destruct (forEach body2 l s1 w1) as [[s2 w2] e2].
Qed.

Lemma iterateRows_onResult `{!Winipcfg W} {S T} (f : S → T) topo ourLUID
    (callback1 : MibIPforwardRow2 → T → M W (error * T))
    (callback2 : MibIPforwardRow2 → S → M W (error * S)) :
  (∀ r s w, callback1 r (f s) w = onResult (prod_map id f) (callback2 r s) w) →
  ∀ rows s w,
    iterateRows topo ourLUID callback1 rows (f s) w
    = onResult (prod_map id f) (iterateRows topo ourLUID callback2 rows s) w.
Proof.
  intros Hcb. induction rows as [|r rows IH]; intros s w; cbn [iterateRows]; [done|].
  destruct (foreignDefaultUp topo ourLUID r); [|apply IH].
  unfold bind, onResult in *. rewrite Hcb.
  destruct (callback2 r s w) as [[[err s1] w1] e1]. simpl.
  destruct err as [e|]; [done|]. rewrite IH.
  by destruct (iterateRows topo ourLUID callback2 rows s1 w1) as [[[err2 s2] w2] e2].
Qed.

End Simulation.

Section AddressRoutesFacts.
Context {W : Type} `{!Winipcfg W} `{!GoRange}.

(** A turn of the loop over the destinations does to the routes what the
    turn of the other variant does, which marks proxies besides. *)
Lemma addressRoutes_addOne dp r sc dst (w : W) :
  AddressRoutes.addOne r (ProxyRoutes.newRoutes sc) dst w
  = onResult ProxyRoutes.newRoutes (ProxyRoutes.addOne dp r sc dst) w.
Proof.
  unfold AddressRoutes.addOne, ProxyRoutes.addOne, onResult, bind, AddRoute.
  destruct (osAddRoute (InterfaceLUID r) dst (NextHop r) 0 w) as [[e|] w1]; [|done].
  by destruct (e =? ERROR_OBJECT_ALREADY_EXISTS).
Qed.

Lemma addressRoutes_dropStale dp new restart r (w : W) :
  AddressRoutes.dropStale new tt r w
  = onResult (λ _, tt) (ProxyRoutes.dropStale dp new restart r) w.
Proof.
  unfold AddressRoutes.dropStale, ProxyRoutes.dropStale, onResult, bind, DeleteRoute.
  case_bool_decide; [done|].
  destruct (osDeleteRoute (luid r) (destination r) (nextHop r) w) as [[e|] w1];
    [|done].
  by destruct (e =? ERROR_NOT_FOUND).
Qed.

Lemma addressRoutes_cleanIt ours (w : W) :
  AddressRoutes.cleanIt ours w = ProxyRoutes.cleanIt ours w.
Proof.
  unfold AddressRoutes.cleanIt, ProxyRoutes.cleanIt, bind.
  assert (Hloop : ∀ ks u (w : W),
            forEach AddressRoutes.cleanOne ks u w = forEach ProxyRoutes.cleanOne ks u w).
  { induction ks as [|k ks IH]; intros u w0; cbn [forEach]; [done|].
    unfold bind. 
    assert (AddressRoutes.cleanOne u k w0 = ProxyRoutes.cleanOne u k w0) as ->.
    { unfold AddressRoutes.cleanOne, ProxyRoutes.cleanOne, bind, DeleteRoute.
      destruct (osDeleteRoute (luid k) (destination k) (nextHop k) w0)
        as [[e|] w1]; [|done].
      by destruct (e =? ERROR_NOT_FOUND). }
    destruct (ProxyRoutes.cleanOne u k w0) as [[u1 w1] e1]. by rewrite IH. }
  by rewrite Hloop.
Qed.

Lemma addressRoutes_addRoutes_run dsts r new (w : W) err new' w' evs :
  AddressRoutes.addRoutes dsts r new w = (err, new', w', evs) →
  err = None ∧
  (addCalls evs).*1 = ProxyRoutes.routeOf r <$> dsts ∧
  deleteCalls evs = [] ∧
  new' = kept (addCalls evs) ∪ new ∧
  logLines evs = addFailures (addCalls evs) ∧
  Forall (λ ev, isRouteEvent ev = true) evs.
Proof.
  unfold AddressRoutes.addRoutes. intros Hrun.
  apply bind_run in Hrun as (new1 & w1 & e1 & e2 & Hloop & Hret & ->).
  apply ret_run in Hret as ([= <- <-] & -> & ->).
  rewrite app_nil_r. split; [done|].
  pose proof (forEach_onResult ProxyRoutes.newRoutes
                (AddressRoutes.addOne r) (ProxyRoutes.addOne ∅ r)
                (addressRoutes_addOne ∅ r) dsts
                {| ProxyRoutes.newRoutes := new; ProxyRoutes.proxiesToRestart := ∅ |} w)
    as Hsim.
  simpl in Hsim. rewrite Hloop in Hsim. unfold onResult in Hsim.
  destruct (forEach (ProxyRoutes.addOne ∅ r) dsts _ w) as [[sc' w2] e3] eqn:Hnew.
  injection Hsim as -> -> ->.
  by apply addOne_loop in Hnew.
Qed.

Lemma addressRoutes_iterateRows topo ourLUID dsts rows : ∀ new (w : W) err new' w' evs,
  iterateRows topo ourLUID (AddressRoutes.addRoutes dsts) rows new w
    = (err, new', w', evs) →
  err = None ∧
  (addCalls evs).*1 = desiredRoutes topo ourLUID dsts rows ∧
  deleteCalls evs = [] ∧
  new' = kept (addCalls evs) ∪ new ∧
  logLines evs = addFailures (addCalls evs) ∧
  Forall (λ ev, isRouteEvent ev = true) evs.
Proof.
  unfold desiredRoutes.
  induction rows as [|r rows IH]; intros new w err new' w' evs Hrun;
    cbn [iterateRows] in Hrun.
  - apply ret_run in Hrun as ([= <- <-] & -> & ->). unfold kept. simpl.
    by rewrite (left_id_L ∅ (∪)).
  - rewrite filter_cons. destruct (foreignDefaultUp topo ourLUID r) eqn:Hup.
    + rewrite decide_True by done. cbn [flat_map].
      apply bind_run in Hrun as ([err1 new1] & w1 & e1 & e2 & Hcb & Hrest & ->).
      apply addressRoutes_addRoutes_run in Hcb as (-> & Ha1 & Hd1 & Hn1 & Hl1 & Hr1).
      apply IH in Hrest as (-> & Ha2 & Hd2 & Hn2 & Hl2 & Hr2).
      rewrite addCalls_app, deleteCalls_app, logLines_app, kept_app,
        addFailures_app, fmap_app, Ha1, Ha2, Hd1, Hd2, Hn2, Hn1, Hl1, Hl2.
      repeat split; try done.
      * rewrite (assoc_L (∪)). f_equal. apply (comm_L (∪)).
      * by apply Forall_app.
    + rewrite decide_False by done. by apply IH in Hrun.
Qed.

Lemma addressRoutes_dropStale_loop new ks (w : W) u w' evs :
  forEach (AddressRoutes.dropStale new) ks tt w = (u, w', evs) →
  addCalls evs = [] ∧
  (deleteCalls evs).*1 = filter (λ k, k ∉ new) ks ∧
  logLines evs = deleteFailures (deleteCalls evs) ∧
  Forall (λ ev, isRouteEvent ev = true) evs.
Proof.
  intros Hrun.
  pose proof (forEach_onResult (λ _ : gset ProxyRoutes.proxyRef, tt)
                (AddressRoutes.dropStale new) (ProxyRoutes.dropStale ∅ new)
                (λ s x w, addressRoutes_dropStale ∅ new s x w) ks ∅ w) as Hsim.
  simpl in Hsim. rewrite Hrun in Hsim. unfold onResult in Hsim.
  destruct (forEach (ProxyRoutes.dropStale ∅ new) ks ∅ w) as [[rs w2] e3] eqn:Hnew.
  injection Hsim as _ -> ->.
  by apply dropStale_loop in Hnew.
Qed.

Lemma addressRoutes_doIt_run topo family ourLUID dsts ours rows (w : W)
    err ours' w' evs :
  GetIPForwardTable2 topo family = Ok rows →
  AddressRoutes.doIt topo family ourLUID dsts ours w = (err, ours', w', evs) →
  err = None ∧
  (addCalls evs).*1 = desiredRoutes topo ourLUID dsts rows ∧
  ours' = kept (addCalls evs) ∧
  (deleteCalls evs).*1 = filter (λ k, k ∉ ours') (rangeKeys ours) ∧
  logLines evs = addFailures (addCalls evs) ++ deleteFailures (deleteCalls evs) ∧
  Forall (λ ev, isRouteEvent ev = true) evs.
Proof.
  intros Htable Hrun. unfold AddressRoutes.doIt, iterateForeignDefaultRoutes in Hrun.
  rewrite Htable in Hrun.
  apply bind_run in Hrun as ([err1 new] & w1 & e1 & e2 & Hadd & Hk & ->).
  apply addressRoutes_iterateRows in Hadd as (-> & Ha1 & Hd1 & Hn1 & Hl1 & Hr1).
  apply bind_run in Hk as ([] & w2 & e3 & e4 & Hdel & Hret & ->).
  apply ret_run in Hret as ([= -> ->] & -> & ->).
  apply addressRoutes_dropStale_loop in Hdel as (Ha2 & Hd2 & Hl2 & Hr2).
  rewrite app_nil_r, addCalls_app, deleteCalls_app, logLines_app, Ha2, Hd1,
    app_nil_r, Ha1, Hl1, Hl2.
  simpl. rewrite (right_id_L ∅ (∪)) in Hn1. rewrite <- Hn1.
  repeat split; try done. by apply Forall_app.
Qed.

End AddressRoutesFacts.

Lemma buildDestinations_fold family l : ∀ acc,
  foldl (AddressRoutes.addDestination family) acc l
  = acc ++ (destinationOf <$> filter (λ a, familyAccepts family a = true) l).
Proof.
  induction l as [|a l IH]; intros acc; cbn [foldl].
  - by rewrite filter_nil, app_nil_r.
  - rewrite IH, filter_cons. unfold AddressRoutes.addDestination, familyAccepts.
    destruct ((family =? AF_INET) && negb (Is4 a)); simpl; [done|].
    destruct ((family =? AF_INET6) && negb (Is6 a)); simpl; [done|].
    unfold AddressList.append. by rewrite <- app_assoc.
Qed.

Lemma destinationOf_hostPrefix family (l : list Addr) :
  family = AF_INET ∨ family = AF_INET6 →
  destinationOf <$> filter (λ a, familyAccepts family a = true) l
  = hostPrefix <$> filter (λ a, familyAccepts family a = true) l.
Proof.
  intros Hfamily. induction l as [|a l IH]; [done|].
  rewrite filter_cons. case_decide as Hacc; [|done].
  rewrite !fmap_cons, IH. f_equal.
  apply (hostPrefix_PrefixFrom family). by apply familyAccepts_inFamily.
Qed.

(** X22. In the variant that passes a list of addresses, the zero addresses
    at the head of the list [spawnProxies] returns give no destination to
    the IPv4 or the IPv6 monitor: its destinations are the host prefixes
    of the resolved addresses of its family, one for each address. *)
Theorem padding_of_the_address_list_gives_no_destination
    `{!AddressList.Environment} `{!GoRange}
    (conf : AddressList.Config) (addrs : list Addr) (family : AddressFamily) :
  AddressList.spawnProxies conf = Ok addrs →
  family = AF_INET ∨ family = AF_INET6 →
  AddressRoutes.buildDestinations family addrs
    ≡ₚ hostPrefix <$> filter (λ a, familyAccepts family a = true)
                             (elements (AddressList.resolvedAddresses conf)).
Proof.
  unfold AddressList.spawnProxies, AddressRoutes.buildDestinations.
  intros Hrun Hfamily.
  destruct (AddressList.resolvePeers (AddressList.Peers conf) ∅) as [m|e] eqn:Hm;
    [|done].
  injection Hrun as <-. apply resolvePeers_ok in Hm.
  rewrite (left_id_L ∅ (∪)) in Hm. fold (AddressList.resolvedAddresses conf) in Hm.
  subst m. rewrite foldl_append, buildDestinations_fold, app_nil_l, filter_app.
  assert (Hzero : ∀ n, filter (λ a, familyAccepts family a = true)
                         (replicate n AddrZero) = []).
  { induction n as [|n IH]; [done|]. simpl. rewrite filter_cons, IH.
    rewrite decide_False; [done|]. by destruct Hfamily as [-> | ->]. }
  rewrite Hzero, app_nil_l, (destinationOf_hostPrefix family) by done.
  by rewrite rangeKeys_perm.
Qed.

Lemma padding_of_the_address_list_gives_no_destination_witness :
  let addrs :=
    [AddrZero; AddrZero;
     Addr6 42540766411282592856903984951653826561 EmptyString; Addr4 3405803785] in
  @AddressList.spawnProxies Resolved.env Sim.range Resolved.conf = Ok addrs ∧
  (AF_INET = AF_INET ∨ AF_INET = AF_INET6) ∧
  AddressRoutes.buildDestinations AF_INET addrs
    ≡ₚ hostPrefix <$> filter (λ a, familyAccepts AF_INET a = true)
         (elements (@AddressList.resolvedAddresses Resolved.env Resolved.conf)).
Proof.
  intros addrs.
  assert (Hrun : @AddressList.spawnProxies Resolved.env Sim.range Resolved.conf
                 = Ok addrs) by (vm_compute; reflexivity).
  assert (Hfamily : AF_INET = AF_INET ∨ AF_INET = AF_INET6) by (left; reflexivity).
  split; [exact Hrun|]. split; [exact Hfamily|].
  exact (@padding_of_the_address_list_gives_no_destination Resolved.env Sim.range
           Resolved.conf addrs AF_INET Hrun Hfamily).
Defined.

(** With the keys of [destProxy] visited in one order under every row, a
    pass of [monitorProxyRoutes] does what the pass of the variant that
    takes a list of addresses does on the keys in that order. *)
Lemma doIt_over_the_keys
    {W : Type} `{!Winipcfg W} `{!GoRange}
    (topo : Topology) (family : AddressFamily) (ourLUID : LUID)
    (destProxy : gmap Prefix (list ProxyRoutes.proxyRef)) (restartProxies : bool)
    (ourRoutes : gset luidRouteData) (w : W) :
  ProxyRoutes.doIt topo family ourLUID destProxy restartProxies ourRoutes w
  = AddressRoutes.doIt topo family ourLUID (rangeKeys (dom destProxy)) ourRoutes w.
Proof.
  unfold ProxyRoutes.doIt, AddressRoutes.doIt, iterateForeignDefaultRoutes.
  destruct (GetIPForwardTable2 topo family) as [rows|e]; [|done].
  unfold bind at 1 3.
  change (∅ : gset luidRouteData) with (ProxyRoutes.newRoutes ProxyRoutes.scratch0)
    at 1.
  rewrite (iterateRows_onResult ProxyRoutes.newRoutes topo ourLUID
             (AddressRoutes.addRoutes (rangeKeys (dom destProxy)))
             (ProxyRoutes.addRoutes destProxy)).
  2:{ intros r s w0. unfold AddressRoutes.addRoutes, ProxyRoutes.addRoutes, bind.
      rewrite (forEach_onResult ProxyRoutes.newRoutes (AddressRoutes.addOne r)
                 (ProxyRoutes.addOne destProxy r) (addressRoutes_addOne destProxy r)).
      unfold onResult.
      by destruct (forEach (ProxyRoutes.addOne destProxy r) _ s w0) as [[s1 w1] e1]. }
  unfold onResult.
  destruct (iterateRows topo ourLUID (ProxyRoutes.addRoutes destProxy) rows
              ProxyRoutes.scratch0 w) as [[[err sc] w1] e1].
  simpl. destruct err as [e|]; [done|].
  unfold bind.
  rewrite (forEach_onResult (λ _ : gset ProxyRoutes.proxyRef, tt)
             (AddressRoutes.dropStale (ProxyRoutes.newRoutes sc))
             (ProxyRoutes.dropStale destProxy (ProxyRoutes.newRoutes sc))
             (λ s x w, addressRoutes_dropStale destProxy _ s x w)
             (rangeKeys ourRoutes) (ProxyRoutes.proxiesToRestart sc) w1).
  unfold onResult.
  by destruct (forEach (ProxyRoutes.dropStale destProxy (ProxyRoutes.newRoutes sc))
                 (rangeKeys ourRoutes) (ProxyRoutes.proxiesToRestart sc) w1)
    as [[rs w2] e2].
Qed.

(** X23. A pass depends on [destProxy] only through its keys, and not on
    [restartProxies]: from the same [ourRoutes] and the same system, with
    two maps of the same keys, visited in the same order, it makes the same
    calls with the same results, logs the same lines, and leaves the same
    [ourRoutes] and the same system.  What the pass notes of proxies to
    restart changes nothing. *)
Theorem pass_depends_only_on_the_keys_of_destProxy
    {W : Type} `{!Winipcfg W} `{!GoRange}
    (topo : Topology) (family : AddressFamily) (ourLUID : LUID)
    (destProxy destProxy' : gmap Prefix (list ProxyRoutes.proxyRef))
    (restartProxies restartProxies' : bool)
    (ourRoutes : gset luidRouteData) (w : W) :
  dom destProxy = dom destProxy' →
  ProxyRoutes.doIt topo family ourLUID destProxy restartProxies ourRoutes w
  = ProxyRoutes.doIt topo family ourLUID destProxy' restartProxies' ourRoutes w.
Proof.
  intros Hkeys.
  rewrite (doIt_over_the_keys topo family ourLUID destProxy restartProxies).
  rewrite (doIt_over_the_keys topo family ourLUID destProxy' restartProxies').
  by rewrite Hkeys.
Qed.

Lemma pass_depends_only_on_the_keys_of_destProxy_witness :
  let destProxy := ProxyRoutes.buildDestProxy AF_INET Lan.proxies in
  let destProxy' : gmap Prefix (list ProxyRoutes.proxyRef) := (λ _, []) <$> destProxy in
  dom destProxy = dom destProxy' ∧
  @ProxyRoutes.doIt Sim.World Lan.os Sim.range (Lan.net 1500) AF_INET Lan.tunnel
    destProxy false {[Faulty.stale]} Sim.world0
  = @ProxyRoutes.doIt Sim.World Lan.os Sim.range (Lan.net 1500) AF_INET Lan.tunnel
      destProxy' true {[Faulty.stale]} Sim.world0.
Proof.
  intros destProxy destProxy'.
  assert (Hkeys : dom destProxy = dom destProxy')
    by (symmetry; apply dom_fmap_L).
  split; [exact Hkeys|].
  exact (@pass_depends_only_on_the_keys_of_destProxy Sim.World Lan.os Sim.range
           (Lan.net 1500) AF_INET Lan.tunnel destProxy destProxy' false true
           {[Faulty.stale]} Sim.world0 Hkeys).
Defined.

(** X24. A pass of the variant that takes a list of addresses, the
    forwarding table being readable, returns [nil].  It calls [AddRoute]
    for every default route over a foreign interface that is up, in the
    order of the table, and under each for every destination in the order
    of the list, repetitions included; it tracks the routes whose add was
    accepted, calls [DeleteRoute] once for each route it tracked before
    and does not track any more, and logs the failures of its calls. *)
Theorem address_list_pass_adds_in_order_and_tracks_the_accepted
    {W : Type} `{!Winipcfg W} `{!GoRange}
    (topo : Topology) (family : AddressFamily) (ourLUID : LUID)
    (destinations : list Prefix) (ourRoutes : gset luidRouteData)
    (rows : list MibIPforwardRow2) (w : W) err ourRoutes' w' evs :
  GetIPForwardTable2 topo family = Ok rows →
  AddressRoutes.doIt topo family ourLUID destinations ourRoutes w
    = (err, ourRoutes', w', evs) →
  err = None ∧
  (addCalls evs).*1 = desiredRoutes topo ourLUID destinations rows ∧
  ourRoutes' = kept (addCalls evs) ∧
  (deleteCalls evs).*1 ≡ₚ elements (ourRoutes ∖ ourRoutes') ∧
  logLines evs = addFailures (addCalls evs) ++ deleteFailures (deleteCalls evs).
Proof.
  intros Htable Hrun.
  destruct (addressRoutes_doIt_run _ _ _ _ _ _ _ _ _ _ _ Htable Hrun)
    as (-> & Ha & -> & Hd & Hl & _).
  split; [done|]. split; [done|]. split; [done|]. split; [|done].
  rewrite Hd. apply NoDup_Permutation.
  - apply NoDup_filter, NoDup_rangeKeys.
  - apply NoDup_elements.
  - intros k. rewrite list_elem_of_filter, elem_of_rangeKeys, elem_of_elements.
    set_solver.
Qed.

Lemma address_list_pass_adds_in_order_and_tracks_the_accepted_witness :
  let destinations := [hostPrefix (Addr4 3405803785); hostPrefix (Addr4 3405803785)] in
  let run :=
    @AddressRoutes.doIt Sim.World Lan.os Sim.range (Lan.net 1500) AF_INET
      Lan.tunnel destinations {[Faulty.stale]} Sim.world0 in
  GetIPForwardTable2 (Lan.net 1500) AF_INET = Ok [Lan.own; Lan.uplink] ∧
  run.1.1.1 = None ∧
  (addCalls run.2).*1
    = desiredRoutes (Lan.net 1500) Lan.tunnel destinations [Lan.own; Lan.uplink] ∧
  run.1.1.2 = kept (addCalls run.2) ∧
  (deleteCalls run.2).*1 ≡ₚ elements ({[Faulty.stale]} ∖ run.1.1.2) ∧
  logLines run.2
    = addFailures (addCalls run.2) ++ deleteFailures (deleteCalls run.2).
Proof.
  intros destinations run.
  split; [reflexivity|].
  exact (@address_list_pass_adds_in_order_and_tracks_the_accepted Sim.World Lan.os
           Sim.range (Lan.net 1500) AF_INET Lan.tunnel destinations
           {[Faulty.stale]} [Lan.own; Lan.uplink] Sim.world0 _ _ _ _
           eq_refl (eta4 run)).
Defined.

(** X25. In the variant that takes a list of addresses, a failure of the
    first registration ends [monitorProxyRoutes] with the error and
    nothing more: no [DeleteRoute] is called at all, and the routes the
    first pass added stay in [ourRoutes]. *)
Theorem address_list_monitor_leaves_the_routes_when_registration_fails
    {W : Type} `{!Winipcfg W} `{!GoRange}
    (topo : Topology) (family : AddressFamily) (ourLUID : LUID)
    (proxies : list Addr) (w : W) res ourRoutes w' evs e :
  AddressRoutes.monitorProxyRoutes topo family ourLUID proxies w
    = (res, ourRoutes, w', evs) →
  EvRegisterRouteChange (Err e) ∈ evs →
  res = Err e ∧ deleteCalls evs = [] ∧ ourRoutes = kept (addCalls evs) ∧
  ∃ w1 pass,
    AddressRoutes.doIt topo family ourLUID
      (AddressRoutes.buildDestinations family proxies) ∅ w
      = (None, ourRoutes, w1, pass) ∧
    evs = pass ++ [EvRegisterRouteChange (Err e)].
Proof.
  intros Hrun Hfirst. unfold AddressRoutes.monitorProxyRoutes in Hrun.
  assert (Hreg : EvRegisterRouteChange (Err e) ∈ registerCalls evs)
    by by apply elem_of_registerCalls.
  clear Hfirst.
  apply bind_run in Hrun as ([err ours1] & w1 & pass & e2 & Hpass & Hk & ->).
  destruct (GetIPForwardTable2 topo family) as [rows|e0] eqn:Htable.
  2:{ unfold AddressRoutes.doIt, iterateForeignDefaultRoutes in Hpass.
      rewrite Htable in Hpass. injection Hpass as <- <- <- <-.
      apply ret_run in Hk as (_ & _ & ->). by apply elem_of_nil in Hreg. }
  pose proof (addressRoutes_doIt_run _ _ _ _ _ _ _ _ _ _ _ Htable Hpass)
    as (-> & _ & Hkept & Hdel & _ & Hroute).
  pose proof (registerCalls_route _ Hroute) as Hnone.
  assert (Hnodel : deleteCalls pass = []).
  { apply (fmap_nil_inv fst). rewrite Hdel.
    assert (rangeKeys (∅ : gset luidRouteData) = []) as ->; [|done].
    apply Permutation_nil_r. by rewrite rangeKeys_perm, elements_empty. }
  apply bind_run in Hk as (r1 & w2 & e3 & e4 & Hr1 & Hk & ->).
  unfold RegisterRouteChangeCallback in Hr1.
  destruct (osRegisterRouteChangeCallback w1) as [r1' w2'].
  injection Hr1 as <- <- <-.
  destruct r1' as [cbr|e1].
  - apply bind_run in Hk as (r2 & w3 & e5 & e6 & Hr2 & Hk & ->).
    unfold RegisterInterfaceChangeCallback in Hr2.
    destruct (osRegisterInterfaceChangeCallback w2') as [r2' w3'].
    injection Hr2 as <- <- <-.
    assert (Hrest : registerCalls e6 = []).
    { destruct r2' as [cbi|e2'].
      - by apply ret_run in Hk as (_ & _ & ->).
      - apply bind_run in Hk as (ours2 & w4 & e7 & e8 & Hun & Hret & ->).
        apply ret_run in Hret as (_ & _ & ->). rewrite app_nil_r.
        unfold Unregister in Hun.
        destruct cleanupPolicy.
        + apply bind_run in Hun as (uerr & w5 & e9 & e10 & Hos & Hret & ->).
          apply ret_run in Hret as (_ & _ & ->).
          destruct (osUnregister cbr w3') as [uerr' w5'].
          by injection Hos as <- <- <-.
        + apply bind_run in Hun as (ours3 & w5 & e9 & e10 & Hclean & Hun & ->).
          apply bind_run in Hun as (uerr & w6 & e11 & e12 & Hos & Hret & ->).
          apply ret_run in Hret as (_ & _ & ->).
          destruct (osUnregister cbr w5) as [uerr' w6'].
          injection Hos as <- <- <-.
          rewrite addressRoutes_cleanIt in Hclean.
          apply cleanIt_run in Hclean as (_ & _ & _ & _ & Hrc).
          by rewrite !registerCalls_app, (registerCalls_route _ Hrc).
        + apply bind_run in Hun as (uerr & w5 & e9 & e10 & Hos & Hclean & ->).
          destruct (osUnregister cbr w3') as [uerr' w5'].
          injection Hos as <- <- <-.
          rewrite addressRoutes_cleanIt in Hclean.
          apply cleanIt_run in Hclean as (_ & _ & _ & _ & Hrc).
          by rewrite registerCalls_app, (registerCalls_route _ Hrc). }
    rewrite !registerCalls_app, Hnone, Hrest in Hreg.
    unfold registerCalls in Hreg. simpl in Hreg.
    destruct r2'; set_solver.
  - apply ret_run in Hk as ([= -> ->] & -> & ->).
    rewrite !registerCalls_app, Hnone in Hreg.
    unfold registerCalls in Hreg. simpl in Hreg.
    assert (e1 = e) as -> by set_solver.
    rewrite app_nil_r, deleteCalls_app, addCalls_app, Hnodel. simpl.
    rewrite app_nil_r.
    split; [done|]. split; [done|]. split; [done|].
    by exists w1, pass.
Qed.

Lemma address_list_monitor_leaves_the_routes_when_registration_fails_witness :
  let run :=
    @AddressRoutes.monitorProxyRoutes Sim.World Lan.os Sim.range
      (Lan.net 1500) AF_INET Lan.tunnel [AddrZero; Addr4 3405803785]
      FirstFails.world in
  EvRegisterRouteChange (Err 5) ∈ run.2 ∧
  run.1.1.1 = Err 5 ∧ deleteCalls run.2 = [] ∧
  run.1.1.2 = kept (addCalls run.2) ∧
  ∃ w1 pass,
    @AddressRoutes.doIt Sim.World Lan.os Sim.range (Lan.net 1500) AF_INET
      Lan.tunnel (AddressRoutes.buildDestinations AF_INET [AddrZero; Addr4 3405803785])
      ∅ FirstFails.world
      = (None, run.1.1.2, w1, pass) ∧
    run.2 = pass ++ [EvRegisterRouteChange (Err 5)].
Proof.
  intros run.
  assert (Hfirst : EvRegisterRouteChange (Err 5) ∈ run.2)
    by (vm_compute; repeat constructor).
  split; [exact Hfirst|].
  exact (@address_list_monitor_leaves_the_routes_when_registration_fails
           Sim.World Lan.os Sim.range (Lan.net 1500) AF_INET Lan.tunnel
           [AddrZero; Addr4 3405803785] FirstFails.world
           _ _ _ _ 5 (eta4 run) Hfirst).
Defined.

(** ** When spawnProxies succeeds *)

Section SpawnTotal.
Context `{!AddressList.Environment}.
Import AddressList.

Lemma parseAll_total pips addrs :
  Forall2 (λ ip addr, ParseAddr ip = Ok addr) pips addrs →
  ∀ acc, Spawn.parseAll pips acc = Ok (acc ++ addrs).
Proof.
  induction 1 as [|ip addr pips addrs Hip _ IH]; intros acc; simpl.
  - by rewrite app_nil_r.
  - rewrite Hip, IH. unfold append. by rewrite <- app_assoc.
Qed.

Lemma spawnEach_total peers :
  Forall (λ peer, proxied peer = true → comesUp peer) peers →
  ∀ acc, ∃ proxies, Spawn.spawnEach peers acc = Ok proxies.
Proof.
  induction 1 as [|peer peers Hpeer _ IH]; intros acc; simpl.
  - by eexists.
  - fold (proxied peer). destruct (proxied peer); [|apply IH].
    destruct Hpeer as (host & pips & -> & -> & Hall & ->); [done|].
    rewrite (parseAll_total _ _ Hall). apply IH.
Qed.

End SpawnTotal.

(** X27. [spawnProxies] succeeds when, for every peer with a proxy
    endpoint, the endpoint parses and resolves, every answer parses, and
    the proxy reports that it is ready. *)
Theorem spawnProxies_succeeds_when_every_proxy_comes_up
    `{!AddressList.Environment} (conf : AddressList.Config) :
  Forall (λ peer, proxied peer = true → comesUp peer) (AddressList.Peers conf) →
  Spawn.spawnProxies conf
  = Ok (proxyOf <$> filter (λ peer, proxied peer = true) (AddressList.Peers conf)).
Proof.
  intros Hall. unfold Spawn.spawnProxies.
  destruct (spawnEach_total _ Hall []) as [proxies Hrun].
  rewrite Hrun. by apply spawnEach_ok in Hrun as [-> _].
Qed.

Lemma spawnProxies_succeeds_when_every_proxy_comes_up_witness :
  Forall (λ peer, proxied peer = true → @comesUp Resolved.env peer)
         (AddressList.Peers Resolved.conf) ∧
  @Spawn.spawnProxies Resolved.env Resolved.conf
  = Ok (@proxyOf Resolved.env <$>
          filter (λ peer, proxied peer = true) (AddressList.Peers Resolved.conf)).
Proof.
  assert (Hall : Forall (λ peer, proxied peer = true → @comesUp Resolved.env peer)
                        (AddressList.Peers Resolved.conf)).
  { repeat constructor.
    - intros _. exists "vpn.example.org"%string,
        ["203.0.113.9"; "2001:db8::1"; "203.0.113.9"]%string.
      split; [reflexivity|]. split; [reflexivity|]. split; [|reflexivity].
      repeat constructor.
    - intros Hproxied. discriminate Hproxied. }
  split; [exact Hall|].
  exact (@spawnProxies_succeeds_when_every_proxy_comes_up Resolved.env
           Resolved.conf Hall).
Defined.

(** * The route monitor and the state of the system *)

(** ** The simulated system is as the claims assume *)

Lemma sim_reports_installed_routes (policy : CleanupPolicy) :
  @ReportsInstalledRoutes Sim.World (Sim.os policy) simSettled.
Proof.
  split; simpl; unfold Sim.addRoute, Sim.deleteRoute, simSettled.
  - intros l dst via metric w [Hf|[Hf Hin]]; rewrite Hf; [done|].
    by rewrite bool_decide_eq_true_2.
  - intros l dst via metric w err w'.
    set (k := {| luid := l; destination := dst; nextHop := via |}).
    destruct (Sim.addFault w k) as [e|] eqn:Hf.
    + intros [= <- <-] He. simpl in He. apply Z.eqb_eq in He as ->. by left.
    + case_bool_decide as Hin; intros [= <- <-] _; right; simpl.
      * done.
      * split; [done|]. set_solver.
  - intros l dst via metric w err w' k.
    destruct (Sim.addFault w _) as [e|].
    + by intros [= <- <-].
    + case_bool_decide; intros [= <- <-]; [done|].
      intros [Hf|[Hf Hin]]; [by left|right]. simpl. split; [done|]. set_solver.
  - intros l dst via w err w' k.
    destruct (Sim.deleteFault w _) as [e|].
    + by intros [= <- <-].
    + case_bool_decide; intros [= <- <-]; [|done].
      intros Hne [Hf|[Hf Hin]]; [by left|right]. simpl. split; [done|]. set_solver.
Qed.

Lemma sim_forgets_what_it_removes (policy : CleanupPolicy) :
  @ForgetsWhatItRemoves Sim.World (Sim.os policy) simInstalled simRegistered.
Proof.
  split; simpl; unfold Sim.deleteRoute, Sim.unregister, simInstalled, simRegistered.
  - intros l dst via w w'. destruct (Sim.deleteFault w _) as [e|]; [done|].
    case_bool_decide; intros [= <-]; simpl. set_solver.
  - intros l dst via w err w' k. destruct (Sim.deleteFault w _) as [e|].
    + by intros [= <- <-].
    + case_bool_decide; intros [= <- <-]; simpl; set_solver.
  - intros l dst via w err w' h. destruct (Sim.deleteFault w _) as [e|].
    + by intros [= <- <-].
    + by case_bool_decide; intros [= <- <-].
  - intros h w w' [= <-]. simpl. intros Hin.
    by apply list_elem_of_filter in Hin as [? _].
  - by intros h w err w' k [= <- <-].
Qed.

(** ** A pass on a system that reports installed routes *)

Section Settled.
Context {W : Type} `{!Winipcfg W} `{!GoRange}.
Context (settled : W → luidRouteData → Prop).
Context (Hsys : ReportsInstalledRoutes settled).

Import ProxyRoutes.

Lemma addOne_settles dp r dsts : ∀ sc (w : W) sc' w' evs,
  forEach (addOne dp r) dsts sc w = (sc', w', evs) →
  (∀ k, settled w k → settled w' k) ∧
  (Forall (λ c, addOk c.2 = true) (addCalls evs) →
   ∀ k, k ∈ routeOf r <$> dsts → settled w' k) ∧
  ((∀ k, k ∈ routeOf r <$> dsts → settled w k) →
   w' = w ∧
   Forall (λ c, c.2 = Some ERROR_OBJECT_ALREADY_EXISTS) (addCalls evs)).
Proof.
  induction dsts as [|dst dsts IH]; intros sc w sc' w' evs Hrun; simpl in Hrun.
  - apply ret_run in Hrun as (-> & -> & ->).
    split; [done|]. split.
    + intros _ k Hin. by apply elem_of_nil in Hin.
    + intros _. by split.
  - apply bind_run in Hrun as (sc1 & w1 & e1 & e2 & Hone & Hrest & ->).
    apply IH in Hrest as (Hkeep2 & Hok2 & Hsame2).
    unfold addOne in Hone.
    apply bind_run in Hone as (err & w2 & e3 & e4 & Hadd & Hk & ->).
    unfold AddRoute in Hadd.
    destruct (osAddRoute (InterfaceLUID r) dst (NextHop r) 0 w)
      as [err' w2'] eqn:Hos.
    injection Hadd as <- <- <-. fold (routeOf r dst) in *.
    assert (w1 = w2' ∧ addCalls e4 = []) as [-> He4].
    { destruct err' as [e|]; cbv beta iota in Hk.
      - destruct (e =? ERROR_OBJECT_ALREADY_EXISTS).
        + by apply ret_run in Hk as (_ & -> & ->).
        + apply bind_run in Hk as (? & ? & ? & ? & Hlog & Hk & ->).
          apply ret_run in Hk as (_ & -> & ->).
          unfold logPrintf in Hlog. by injection Hlog as <- <- <-.
      - by apply ret_run in Hk as (_ & -> & ->). }
    rewrite !addCalls_app, He4. cbn [addCalls omap app].
    split; [|split].
    + intros k Hs. eapply Hkeep2, (add_keeps_settled _ Hsys); [exact Hos|done].
    + intros Hok k Hin. apply Forall_cons in Hok as [Hok Hoks]. simpl in Hok.
      rewrite fmap_cons in Hin. apply elem_of_cons in Hin as [->|Hin].
      * apply Hkeep2. by eapply (add_settles _ Hsys).
      * by apply Hok2.
    + intros Hall.
      assert (Hhere : settled w (routeOf r dst))
        by (apply Hall; rewrite fmap_cons; by left).
      rewrite (add_of_settled _ Hsys _ _ _ _ _ Hhere) in Hos.
      injection Hos as <- <-.
      destruct Hsame2 as [-> Hrest];
        [intros k Hin; apply Hall; rewrite fmap_cons; by right|].
      split; [done|]. by constructor.
Qed.

Lemma iterateRows_settles topo ourLUID dp rows :
  ∀ sc (w : W) err sc' w' evs,
  iterateRows topo ourLUID (addRoutes dp) rows sc w = (err, sc', w', evs) →
  (∀ k, settled w k → settled w' k) ∧
  (Forall (λ c, addOk c.2 = true) (addCalls evs) →
   ∀ k, k ∈ desiredRoutes topo ourLUID (rangeKeys (dom dp)) rows → settled w' k) ∧
  ((∀ k, k ∈ desiredRoutes topo ourLUID (rangeKeys (dom dp)) rows → settled w k) →
   w' = w ∧
   Forall (λ c, c.2 = Some ERROR_OBJECT_ALREADY_EXISTS) (addCalls evs)).
Proof.
  unfold desiredRoutes.
  induction rows as [|r rows IH]; intros sc w err sc' w' evs Hrun;
    cbn [iterateRows] in Hrun.
  - apply ret_run in Hrun as (_ & -> & ->).
    split; [done|]. split.
    + intros _ k Hin. by apply elem_of_nil in Hin.
    + intros _. by split.
  - rewrite filter_cons. destruct (foreignDefaultUp topo ourLUID r) eqn:Hup.
    + rewrite decide_True by done. cbn [flat_map].
      apply bind_run in Hrun as ([err1 sc1] & w1 & e1 & e2 & Hcb & Hrest & ->).
      unfold addRoutes in Hcb.
      apply bind_run in Hcb as (sc2 & w2 & e3 & e4 & Hloop & Hret & ->).
      apply ret_run in Hret as ([= -> ->] & -> & ->).
      apply addOne_settles in Hloop as (Hkeep1 & Hok1 & Hsame1).
      apply IH in Hrest as (Hkeep2 & Hok2 & Hsame2).
      rewrite app_nil_r, addCalls_app.
      split; [by auto|]. split.
      * intros Hok k Hin. apply Forall_app in Hok as [Hoka Hokb].
        apply elem_of_app in Hin as [Hin|Hin]; [by apply Hkeep2, Hok1|by apply Hok2].
      * intros Hall.
        destruct Hsame1 as [-> Ha]; [intros k Hin; apply Hall, elem_of_app; by left|].
        destruct Hsame2 as [-> Hb]; [intros k Hin; apply Hall, elem_of_app; by right|].
        split; [done|]. by apply Forall_app.
    + rewrite decide_False by done. by apply IH in Hrun.
Qed.

(** Deletes of the routes outside [new] leave the routes of [new]
    settled, and there is none when every route is in [new]. *)
Lemma dropStale_settles dp new ks : ∀ restart (w : W) restart' w' evs,
  forEach (dropStale dp new) ks restart w = (restart', w', evs) →
  (∀ k, k ∈ new → settled w k → settled w' k) ∧
  (Forall (λ k, k ∈ new) ks → w' = w).
Proof.
  induction ks as [|k ks IH]; intros restart w restart' w' evs Hrun; simpl in Hrun.
  - by apply ret_run in Hrun as (-> & -> & ->).
  - apply bind_run in Hrun as (restart1 & w1 & e1 & e2 & Hone & Hrest & ->).
    apply IH in Hrest as (Hkeep2 & Hsame2).
    unfold dropStale in Hone. case_bool_decide as Hin.
    + apply ret_run in Hone as (-> & -> & ->).
      split; [done|]. intros Hall. apply Hsame2.
      by apply Forall_cons in Hall as [_ ?].
    + apply bind_run in Hone as (err & w2 & e3 & e4 & Hdel & Hk & ->).
      unfold DeleteRoute in Hdel.
      destruct (osDeleteRoute (luid k) (destination k) (nextHop k) w)
        as [err' w2'] eqn:Hos.
      injection Hdel as <- <- <-.
      assert (w1 = w2') as ->.
      { destruct err' as [e|]; cbv beta iota in Hk.
        - destruct (e =? ERROR_NOT_FOUND).
          + by apply ret_run in Hk as (_ & -> & _).
          + apply bind_run in Hk as (? & ? & ? & ? & Hlog & Hk & ->).
            apply ret_run in Hk as (_ & -> & _).
            unfold logPrintf in Hlog. by injection Hlog as <- <- <-.
        - by apply ret_run in Hk as (_ & -> & _). }
      split.
      * intros k' Hk' Hs. apply Hkeep2; [done|].
        eapply (delete_keeps_settled _ Hsys); [exact Hos| |done].
        intros ->. apply Hin. by destruct k.
      * intros Hall. by apply Forall_cons in Hall as [? _].
Qed.

(** A pass on such a system: the adds that are accepted are settled
    afterwards, and a pass whose wanted keys are all settled and tracked
    changes nothing. *)
Lemma doIt_settles topo family ourLUID dp restart ours rows (w : W)
    err ours' w' evs :
  GetIPForwardTable2 topo family = Ok rows →
  doIt topo family ourLUID dp restart ours w = (err, ours', w', evs) →
  (Forall (λ c, addOk c.2 = true) (addCalls evs) →
   ∀ k, k ∈ desiredRoutes topo ourLUID (rangeKeys (dom dp)) rows → settled w' k) ∧
  ((∀ k, k ∈ desiredRoutes topo ourLUID (rangeKeys (dom dp)) rows → settled w k) →
   ours = list_to_set (desiredRoutes topo ourLUID (rangeKeys (dom dp)) rows) →
   w' = w ∧
   Forall (λ c, c.2 = Some ERROR_OBJECT_ALREADY_EXISTS) (addCalls evs)).
Proof.
  intros Htable Hrun.
  pose proof (doIt_run _ _ _ _ _ _ rows _ _ _ _ _ Htable Hrun)
    as (_ & Hadds & Hkept & _).
  unfold doIt, iterateForeignDefaultRoutes in Hrun. rewrite Htable in Hrun.
  apply bind_run in Hrun as ([err1 sc] & wa & ea & eb & Hadd & Hk & ->).
  pose proof (iterateRows_addRoutes _ _ _ _ _ _ _ _ _ _ Hadd)
    as (-> & Ha & _ & Hn & _).
  apply iterateRows_settles in Hadd as (_ & Hok & Hsame).
  apply bind_run in Hk as (restart' & wb & ec & ed & Hdel & Hret & ->).
  apply ret_run in Hret as ([= _ ->] & -> & ->).
  pose proof (dropStale_loop _ _ _ _ _ _ _ _ Hdel) as (Hac & _).
  apply dropStale_settles in Hdel as (Hkeep & Hsame').
  rewrite app_nil_r, addCalls_app, Hac, app_nil_r in *.
  unfold scratch0 in Hn. simpl in Hn. rewrite (right_id_L ∅ (∪)) in Hn.
  split.
  - intros Hoks k Hin. apply Hkeep; [|by apply Hok].
    rewrite Hn, (kept_all_ok _ Hoks), Ha. by apply elem_of_list_to_set.
  - intros Hall Hours. destruct (Hsame Hall) as [-> Hae].
    split; [|done]. apply Hsame'. apply Forall_forall.
    intros k Hin. apply elem_of_rangeKeys in Hin.
    rewrite Hn, kept_all_ok, Ha, <- Hours; [done|].
    eapply Forall_impl; [exact Hae|].
    intros [k' err'] Hc. simpl in *. by subst err'.
Qed.

End Settled.

(** C2, amended.  The second of two passes over the same snapshot and the
    same destinations calls [AddRoute] once for every wanted key (every
    default route over a foreign interface that is up, with every
    destination), as the first did.  On a system that reports the routes
    that are there, when every add of the first pass succeeded or reported
    that the route exists, the second pass changes nothing: each of its
    adds reports that the route exists, it calls [DeleteRoute] for no
    route, logs nothing, and leaves the system and [ourRoutes] as the first
    pass left them. *)
Theorem second_pass_adds_again_and_changes_nothing
    {W : Type} `{!Winipcfg W} `{!GoRange}
    (settled : W → luidRouteData → Prop)
    (topo : Topology) (family : AddressFamily) (ourLUID : LUID)
    (destProxy : gmap Prefix (list ProxyRoutes.proxyRef)) (restart1 restart2 : bool)
    (ourRoutes : gset luidRouteData) (rows : list MibIPforwardRow2)
    (w : W) err1 ourRoutes1 w1 evs1 err2 ourRoutes2 w2 evs2 :
  GetIPForwardTable2 topo family = Ok rows →
  ProxyRoutes.doIt topo family ourLUID destProxy restart1 ourRoutes w
    = (err1, ourRoutes1, w1, evs1) →
  ProxyRoutes.doIt topo family ourLUID destProxy restart2 ourRoutes1 w1
    = (err2, ourRoutes2, w2, evs2) →
  err2 = None ∧
  (addCalls evs1).*1 ≡ₚ desiredRoutes topo ourLUID (elements (dom destProxy)) rows ∧
  (addCalls evs2).*1 ≡ₚ desiredRoutes topo ourLUID (elements (dom destProxy)) rows ∧
  (ReportsInstalledRoutes settled →
   Forall (λ c, addOk c.2 = true) (addCalls evs1) →
   Forall (λ c, c.2 = Some ERROR_OBJECT_ALREADY_EXISTS) (addCalls evs2) ∧
   deleteCalls evs2 = [] ∧ logLines evs2 = [] ∧
   ourRoutes2 = ourRoutes1 ∧ w2 = w1).
Proof.
  intros Htable Hrun1 Hrun2.
  destruct (second_pass_calls _ _ _ _ _ _ _ _ _ _ _ _ _ _ _ _ _
              Htable Hrun1 Hrun2) as (-> & Hadds1 & Hadds2 & Hquiet).
  split; [done|]. split; [done|]. split; [done|].
  intros Hsys Hok1.
  pose proof (doIt_run _ _ _ _ _ _ rows _ _ _ _ _ Htable Hrun1)
    as (_ & Ha1 & Hkept1 & _).
  destruct (doIt_settles settled Hsys _ _ _ _ _ _ _ _ _ _ _ _ Htable Hrun1)
    as (Hsettled & _).
  destruct (doIt_settles settled Hsys _ _ _ _ _ _ _ _ _ _ _ _ Htable Hrun2)
    as (_ & Hsame).
  destruct Hsame as [-> Hae]; [by apply Hsettled| |].
  { by rewrite Hkept1, (kept_all_ok _ Hok1), Ha1. }
  assert (Hok2 : Forall (λ c, addOk c.2 = true) (addCalls evs2)).
  { eapply Forall_impl; [exact Hae|].
    intros [k' err'] Hc. simpl in *. by subst err'. }
  destruct (Hquiet Hok1 Hok2) as (Hnodel & Hnolog & Hsameours).
  by repeat split.
Qed.

Lemma second_pass_adds_again_and_changes_nothing_witness :
  let first :=
    @ProxyRoutes.doIt Sim.World (Sim.os CleanupAfterUnregister) Sim.range
      (Lan.net 1500) AF_INET Lan.tunnel
      (ProxyRoutes.buildDestProxy AF_INET Lan.proxies)
      false {[Faulty.stale]} Sim.world0 in
  let second :=
    @ProxyRoutes.doIt Sim.World (Sim.os CleanupAfterUnregister) Sim.range
      (Lan.net 1500) AF_INET Lan.tunnel
      (ProxyRoutes.buildDestProxy AF_INET Lan.proxies)
      true first.1.1.2 first.1.2 in
  let wanted :=
    desiredRoutes (Lan.net 1500) Lan.tunnel
      (elements (dom (ProxyRoutes.buildDestProxy AF_INET Lan.proxies)))
      [Lan.own; Lan.uplink] in
  GetIPForwardTable2 (Lan.net 1500) AF_INET = Ok [Lan.own; Lan.uplink] ∧
  @ReportsInstalledRoutes Sim.World (Sim.os CleanupAfterUnregister) simSettled ∧
  Forall (λ c, addOk c.2 = true) (addCalls first.2) ∧
  second.1.1.1 = None ∧
  (addCalls first.2).*1 ≡ₚ wanted ∧
  (addCalls second.2).*1 ≡ₚ wanted ∧
  (@ReportsInstalledRoutes Sim.World (Sim.os CleanupAfterUnregister) simSettled →
   Forall (λ c, addOk c.2 = true) (addCalls first.2) →
   Forall (λ c, c.2 = Some ERROR_OBJECT_ALREADY_EXISTS) (addCalls second.2) ∧
   deleteCalls second.2 = [] ∧ logLines second.2 = [] ∧
   second.1.1.2 = first.1.1.2 ∧ second.1.2 = first.1.2).
Proof.
  intros first second wanted.
  assert (Hok1 : Forall (λ c, addOk c.2 = true) (addCalls first.2))
    by (vm_compute; repeat constructor).
  split; [reflexivity|].
  split; [exact (sim_reports_installed_routes CleanupAfterUnregister)|].
  split; [exact Hok1|].
  exact (@second_pass_adds_again_and_changes_nothing Sim.World
           (Sim.os CleanupAfterUnregister) Sim.range simSettled
           (Lan.net 1500) AF_INET Lan.tunnel
           (ProxyRoutes.buildDestProxy AF_INET Lan.proxies) false true
           {[Faulty.stale]} [Lan.own; Lan.uplink] Sim.world0 _ _ _ _ _ _ _ _
           eq_refl (eta4 first) (eta4 second)).
Defined.

(** ** The rollback of a start whose second registration fails *)

(** The steps of a start in which the first registration succeeded and
    the second failed. *)
Lemma second_registration_failure_inv
    {W : Type} `{!Winipcfg W} `{!GoRange}
    (topo : Topology) (family : AddressFamily) (ourLUID : LUID)
    (proxies : list ProxyRoutes.proxy) (w : W) res ourRoutes w' evs cbr e :
  ProxyRoutes.monitorProxyRoutes topo family ourLUID proxies w
    = (res, ourRoutes, w', evs) →
  EvRegisterRouteChange (Ok cbr) ∈ evs →
  EvRegisterInterfaceChange (Err e) ∈ evs →
  res = Err e ∧
  ∃ tracked w1 pass w2 w3 ours4 w4 unreg clean,
    ProxyRoutes.doIt topo family ourLUID
      (ProxyRoutes.buildDestProxy family proxies) false ∅ w
      = (None, tracked, w1, pass) ∧
    osRegisterRouteChangeCallback w1 = (Ok cbr, w2) ∧
    osRegisterInterfaceChangeCallback w2 = (Err e, w3) ∧
    Unregister cbr (Some ProxyRoutes.cleanIt) tracked w3 = (ours4, w4, unreg) ∧
    ProxyRoutes.cleanIt ours4 w4 = (ourRoutes, w', clean) ∧
    evs = pass ++ [EvRegisterRouteChange (Ok cbr);
                   EvRegisterInterfaceChange (Err e)] ++ unreg ++ clean.
Proof.
  intros Hrun Hfirst Hsecond. unfold ProxyRoutes.monitorProxyRoutes in Hrun.
  assert (Hreg1 : EvRegisterRouteChange (Ok cbr) ∈ registerCalls evs)
    by by apply elem_of_registerCalls.
  assert (Hreg2 : EvRegisterInterfaceChange (Err e) ∈ registerCalls evs)
    by by apply elem_of_registerCalls.
  clear Hfirst Hsecond.
  destruct (GetIPForwardTable2 topo family) as [rows|e0] eqn:Htable.
  2:{ rewrite bind_run in Hrun. destruct Hrun as (a & w1 & e1 & e2 & Hpass & Hk & ->).
      rewrite (doIt_fail _ _ _ _ _ _ e0) in Hpass by done.
      injection Hpass as <- <- <-. apply ret_run in Hk as (_ & _ & ->).
      by apply elem_of_nil in Hreg1. }
  apply bind_run in Hrun as ([err ours1] & w1 & pass & e2 & Hpass & Hk & ->).
  pose proof (doIt_run _ _ _ _ _ _ rows _ _ _ _ _ Htable Hpass)
    as (-> & _ & _ & _ & _ & Hroute).
  pose proof (registerCalls_route _ Hroute) as Hnone.
  apply bind_run in Hk as (r1 & w2 & e3 & e4 & Hr1 & Hk & ->).
  unfold RegisterRouteChangeCallback in Hr1.
  destruct (osRegisterRouteChangeCallback w1) as [r1' w2'] eqn:Hos1.
  injection Hr1 as <- <- <-.
  destruct r1' as [cbr'|e1].
  - apply bind_run in Hk as (r2 & w3 & e5 & e6 & Hr2 & Hk & ->).
    unfold RegisterInterfaceChangeCallback in Hr2.
    destruct (osRegisterInterfaceChangeCallback w2') as [r2' w3'] eqn:Hos2.
    injection Hr2 as <- <- <-.
    destruct r2' as [cbi|e2].
    + apply ret_run in Hk as (_ & _ & ->).
      rewrite !registerCalls_app, Hnone in Hreg2. simpl in Hreg2.
      unfold registerCalls in Hreg2. simpl in Hreg2.
      set_solver.
    + apply bind_run in Hk as (ours2 & w4 & e7 & e8 & Hun & Hk & ->).
      apply bind_run in Hk as (ours3 & w5 & e9 & e10 & Hclean & Hret & ->).
      apply ret_run in Hret as ([= -> ->] & -> & ->).
      pose proof (Unregister_cleanIt_run _ _ _ _ _ _ Hun) as (_ & Hru & _).
      pose proof (cleanIt_run _ _ _ _ _ Hclean) as (_ & _ & _ & _ & Hrc).
      pose proof (registerCalls_route _ Hrc) as Hnone'.
      rewrite !registerCalls_app, Hnone, Hru, Hnone', !app_nil_r in Hreg1, Hreg2.
      unfold registerCalls in Hreg1, Hreg2. simpl in Hreg1, Hreg2.
      assert (cbr' = cbr) as -> by set_solver.
      assert (e2 = e) as -> by set_solver.
      split; [done|].
      exists ours1, w1, pass, w2', w3', ours2, w4, e7, e9.
      rewrite app_nil_r. by repeat split.
  - apply bind_run in Hk as (ours2 & w3 & e5 & e6 & Hclean & Hret & ->).
    apply ret_run in Hret as (_ & _ & ->).
    apply cleanIt_run in Hclean as (_ & _ & _ & _ & Hrc).
    rewrite !registerCalls_app, Hnone, (registerCalls_route _ Hrc) in Hreg1.
    unfold registerCalls in Hreg1. simpl in Hreg1. set_solver.
Qed.

(** The calls of [Unregister], whenever it runs the cleanup. *)
Lemma Unregister_cleanIt_calls {W : Type} `{!Winipcfg W} `{!GoRange}
    cbr ours (w : W) ours' w' evs :
  Unregister cbr (Some ProxyRoutes.cleanIt) ours w = (ours', w', evs) →
  (∃ uerr, EvUnregister cbr uerr ∈ evs) ∧
  (deleteCalls evs).*1 ++ rangeKeys ours' ≡ₚ elements ours ∧
  logLines evs = deleteFailures (deleteCalls evs).
Proof.
  assert (Hempty : rangeKeys (∅ : gset luidRouteData) = []).
  { apply Permutation_nil_r. by rewrite rangeKeys_perm, elements_empty. }
  unfold Unregister. intros Hrun.
  destruct cleanupPolicy.
  - apply bind_run in Hrun as (uerr & w1 & e1 & e2 & Hos & Hret & ->).
    apply ret_run in Hret as (-> & -> & ->).
    destruct (osUnregister cbr w) as [uerr' w1'].
    injection Hos as <- <- <-. simpl.
    split; [exists uerr'; by left|]. split; [apply rangeKeys_perm|done].
  - apply bind_run in Hrun as (ours1 & w1 & e1 & e2 & Hclean & Hk & ->).
    apply bind_run in Hk as (uerr & w2 & e3 & e4 & Hos & Hret & ->).
    apply ret_run in Hret as (-> & -> & ->).
    destruct (osUnregister cbr w1) as [uerr' w1'].
    injection Hos as <- <- <-.
    apply cleanIt_run in Hclean as (-> & _ & Hd & Hl & _).
    rewrite !app_nil_r, deleteCalls_app, logLines_app, Hl, Hempty. simpl.
    rewrite !app_nil_r, Hd.
    split; [exists uerr'; apply elem_of_app; right; by left|].
    split; [apply rangeKeys_perm|done].
  - apply bind_run in Hrun as (uerr & w1 & e1 & e2 & Hos & Hclean & ->).
    destruct (osUnregister cbr w) as [uerr' w1'].
    injection Hos as <- <- <-.
    apply cleanIt_run in Hclean as (-> & _ & Hd & Hl & _).
    rewrite deleteCalls_app, logLines_app, Hl, Hempty. simpl.
    rewrite !app_nil_r, Hd.
    split; [exists uerr'; by left|]. split; [apply rangeKeys_perm|done].
Qed.

Section Forgets.
Context {W : Type} `{!Winipcfg W} `{!GoRange}.
Context (installed : W → luidRouteData → Prop) (registered : W → Handle → Prop).
Context (Hsys : ForgetsWhatItRemoves installed registered).

Import ProxyRoutes.

Lemma cleanOne_forgets ks : ∀ u (w : W) u' w' evs,
  forEach cleanOne ks u w = (u', w', evs) →
  (∀ k, installed w' k → installed w k) ∧
  (∀ h, registered w' h → registered w h) ∧
  (∀ k, (k, None) ∈ deleteCalls evs → ¬ installed w' k).
Proof.
  induction ks as [|k ks IH]; intros u w u' w' evs Hrun; simpl in Hrun.
  - apply ret_run in Hrun as (-> & -> & ->).
    split; [done|]. split; [done|]. intros k Hin. by apply elem_of_nil in Hin.
  - apply bind_run in Hrun as (u1 & w1 & e1 & e2 & Hone & Hrest & ->).
    apply IH in Hrest as (Hinst2 & Hreg2 & Hgone2).
    unfold cleanOne in Hone.
    apply bind_run in Hone as (err & w2 & e3 & e4 & Hdel & Hk & ->).
    unfold DeleteRoute in Hdel.
    destruct (osDeleteRoute (luid k) (destination k) (nextHop k) w)
      as [err' w2'] eqn:Hos.
    injection Hdel as <- <- <-.
    assert ({| luid := luid k; destination := destination k;
               nextHop := nextHop k |} = k) as Hk_eta by by destruct k.
    assert (w1 = w2' ∧ deleteCalls e4 = []) as [-> He4].
    { destruct err' as [e|]; cbv beta iota in Hk.
      - destruct (e =? ERROR_NOT_FOUND).
        + by apply ret_run in Hk as (_ & -> & ->).
        + unfold logPrintf in Hk. by injection Hk as <- <- <-.
      - by apply ret_run in Hk as (_ & -> & ->). }
    rewrite !deleteCalls_app, He4, Hk_eta. cbn [deleteCalls omap app].
    split; [|split].
    + intros k' Hi. eapply (delete_installs_nothing _ _ Hsys); [exact Hos|by auto].
    + intros h Hr. eapply (delete_registers_nothing _ _ Hsys); [exact Hos|by auto].
    + intros k' Hin. apply elem_of_cons in Hin as [[= -> <-]|Hin].
      * intros Hstill. apply Hinst2 in Hstill.
        apply (delete_removes _ _ Hsys) in Hos. by rewrite Hk_eta in Hos.
      * by apply Hgone2.
Qed.

Lemma cleanIt_forgets ours (w : W) ours' w' evs :
  cleanIt ours w = (ours', w', evs) →
  (∀ k, installed w' k → installed w k) ∧
  (∀ h, registered w' h → registered w h) ∧
  (∀ k, (k, None) ∈ deleteCalls evs → ¬ installed w' k).
Proof.
  unfold cleanIt. intros Hrun.
  apply bind_run in Hrun as (u & w1 & e1 & e2 & Hloop & Hret & ->).
  apply ret_run in Hret as (_ & -> & ->). rewrite app_nil_r.
  by apply cleanOne_forgets in Hloop.
Qed.

Lemma Unregister_forgets cbr ours (w : W) ours' w' evs :
  Unregister cbr (Some cleanIt) ours w = (ours', w', evs) →
  (∀ k, installed w' k → installed w k) ∧
  (∀ uerr, EvUnregister cbr uerr ∈ evs → uerr = None → ¬ registered w' cbr) ∧
  (∀ k, (k, None) ∈ deleteCalls evs → ¬ installed w' k).
Proof.
  assert (Hnot : ∀ evs' uerr, Forall (λ ev, isRouteEvent ev = true) evs' →
                   EvUnregister cbr uerr ∉ evs').
  { intros evs' uerr Hall Hin. rewrite Forall_forall in Hall.
    by apply Hall in Hin. }
  unfold Unregister. intros Hrun.
  destruct cleanupPolicy.
  - apply bind_run in Hrun as (uerr & w1 & e1 & e2 & Hos & Hret & ->).
    apply ret_run in Hret as (-> & -> & ->).
    destruct (osUnregister cbr w) as [uerr' w1'] eqn:Hun.
    injection Hos as <- <- <-. simpl.
    split; [|split].
    + intros k. by apply (unregister_installs_nothing _ _ Hsys _ _ _ _ _ Hun).
    + intros uerr Hin ->. apply list_elem_of_singleton in Hin. injection Hin as <-.
      by apply (unregister_removes _ _ Hsys) in Hun.
    + intros k Hin. by apply elem_of_nil in Hin.
  - apply bind_run in Hrun as (ours1 & w1 & e1 & e2 & Hclean & Hk & ->).
    apply bind_run in Hk as (uerr & w2 & e3 & e4 & Hos & Hret & ->).
    apply ret_run in Hret as (-> & -> & ->).
    destruct (osUnregister cbr w1) as [uerr' w1'] eqn:Hun.
    injection Hos as <- <- <-.
    pose proof (cleanIt_run _ _ _ _ _ Hclean) as (_ & _ & _ & _ & Hr).
    apply cleanIt_forgets in Hclean as (Hinst & Hreg & Hgone).
    rewrite !app_nil_r, deleteCalls_app. simpl. rewrite app_nil_r.
    split; [|split].
    + intros k Hi. apply Hinst.
      by apply (unregister_installs_nothing _ _ Hsys _ _ _ _ _ Hun).
    + intros uerr Hin ->. apply elem_of_app in Hin as [Hin|Hin].
      * by apply Hnot in Hin.
      * apply list_elem_of_singleton in Hin. injection Hin as <-.
        by apply (unregister_removes _ _ Hsys) in Hun.
    + intros k Hin Hstill. apply (Hgone k Hin).
      by apply (unregister_installs_nothing _ _ Hsys _ _ _ _ _ Hun).
  - apply bind_run in Hrun as (uerr & w1 & e1 & e2 & Hos & Hclean & ->).
    destruct (osUnregister cbr w) as [uerr' w1'] eqn:Hun.
    injection Hos as <- <- <-.
    pose proof (cleanIt_run _ _ _ _ _ Hclean) as (_ & _ & _ & _ & Hr).
    apply cleanIt_forgets in Hclean as (Hinst & Hreg & Hgone).
    rewrite deleteCalls_app. simpl.
    split; [|split].
    + intros k Hi.
      apply (unregister_installs_nothing _ _ Hsys _ _ _ _ _ Hun). by apply Hinst.
    + intros uerr Hin ->. apply elem_of_cons in Hin as [Hin|Hin].
      * injection Hin as <-. intros Hstill. apply Hreg in Hstill.
        by apply (unregister_removes _ _ Hsys) in Hun.
      * by apply Hnot in Hin.
    + done.
Qed.

End Forgets.



